(** * Data Capture: local store, row serializer and sync run

    A shallow embedding of the persistence and synchronisation core of the
    Data Capture application:

    - [types.ts]: field definitions, campaigns, entries;
    - [db.ts]: the IndexedDB-backed store ([db.saveCampaign],
      [db.deleteCampaign], [db.markSynced], ...);
    - [services/googleService.ts]: [getHeaders], [ensureSheetStructure],
      [syncEntries];
    - [App.tsx]: the [handleSync] and [handleSaveEntry] handlers of
      [CampaignView].

    JavaScript values are an inductive type, numbers are IEEE binary64
    floats, strings are sequences of characters standing for UTF-16 code
    units, timestamps (the results of [Date.now()]) are integers.  IndexedDB
    transactions are a small state monad over a working copy of the
    database with an explicit fault plan; remote calls are state passing
    over a [World]. *)

From Stdlib Require Import ZArith String Ascii List Bool Lia PrimFloat.
From stdpp Require Import base option list gmap strings sorting.

Set Warnings "-register-all".
Local Open Scope string_scope.
Local Open Scope Z_scope.

(** ** JavaScript values *)

Module JS.

(** The values an entry's [data] record can hold after a structured
    clone: primitives, arrays and plain objects; and the built-in
    functions, by their names, that reading a member of a record can
    give (see [prop]). *)
Inductive value : Type :=
| VUndefined
| VNull
| VBool (b : bool)
| VNumber (x : float)
| VString (s : string)
| VArray (items : list value)
| VObject (props : list (string * value))
| VFunction (name : string).

(** [Number::toString] (shortest round-trip decimal printing) is the
    platform's; the development is parametric in it. *)
Class NumberFormat := numberToString : float -> string.

(** ToBoolean: the falsy values are [undefined], [null], [false], [+0],
    [-0], [NaN] and the empty string. *)
Definition truthy (v : value) : bool :=
  match v with
  | VUndefined | VNull => false
  | VBool b => b
  | VNumber x => negb (PrimFloat.eqb x 0%float || negb (PrimFloat.eqb x x))
  | VString s => negb (String.eqb s "")
  | VArray _ | VObject _ | VFunction _ => true
  end.

(** [a || b] *)
Definition or_else (a b : value) : value := if truthy a then a else b.

(** [v === undefined || v === null] *)
Definition nullish (v : value) : bool :=
  match v with VUndefined | VNull => true | _ => false end.

(** [typeof v === 'string'] *)
Definition is_string (v : value) : bool :=
  match v with VString _ => true | _ => false end.

Fixpoint join (sep : string) (l : list string) : string :=
  match l with
  | [] => ""
  | [s] => s
  | s :: rest => s ++ sep ++ join sep rest
  end.

(** [String(v)]: arrays print as their elements joined by commas, with
    [undefined] and [null] elements printed as nothing; plain objects
    print as [[object Object]]; a built-in function prints as a function
    of its name with the body [[native code]] (the white space of that
    text is the engine's; it is given as V8 and JavaScriptCore print
    it). *)
Fixpoint toString `{NumberFormat} (v : value) : string :=
  match v with
  | VUndefined => "undefined"
  | VNull => "null"
  | VBool true => "true"
  | VBool false => "false"
  | VNumber x => numberToString x
  | VString s => s
  | VArray items =>
      join ","
        ((fix elems (l : list value) : list string :=
            match l with
            | [] => []
            | e :: r => (if nullish e then "" else toString e) :: elems r
            end) items)
  | VObject _ => "[object Object]"
  | VFunction name => "function " ++ name ++ "() { [native code] }"
  end.

Fixpoint assoc (k : string) (props : list (string * value)) : value :=
  match props with
  | [] => VUndefined
  | (k', v) :: rest => if String.eqb k k' then v else assoc k rest
  end.

(** [v.k] for a property name [k] that is neither an index nor a
    built-in member: only plain objects have it. The receiver is never
    [undefined] or [null] where the code uses it. *)
Definition member (v : value) (k : string) : value :=
  match v with
  | VObject props => assoc k props
  | _ => VUndefined
  end.

(** *** [new Date(t).toISOString()] for an integer time value [t] *)

Definition digit (n : Z) : ascii := ascii_of_nat (48 + Z.to_nat (n mod 10)).

(** The last [width] decimal digits of [n], zero padded. *)
Fixpoint pad (width : nat) (n : Z) (acc : string) : string :=
  match width with
  | O => acc
  | S w => pad w (n / 10) (String (digit n) acc)
  end.

(** Proleptic Gregorian year, month and day of a day number counted from
    1970-01-01. *)
Definition civil (days : Z) : Z * Z * Z :=
  let z := days + 719468 in
  let era := z / 146097 in
  let doe := z - era * 146097 in
  let yoe := (doe - doe / 1460 + doe / 36524 - doe / 146096) / 365 in
  let doy := doe - (365 * yoe + yoe / 4 - yoe / 100) in
  let mp := (5 * doy + 2) / 153 in
  let d := doy - (153 * mp + 2) / 5 + 1 in
  let m := if mp <? 10 then mp + 3 else mp - 9 in
  let y := yoe + era * 400 + (if m <=? 2 then 1 else 0) in
  (y, m, d).

Definition maxTime : Z := 8640000000000000.

(** TimeClip: a time value beyond 8.64e15 ms is an invalid date. *)
Definition validTime (t : Z) : bool := (- maxTime <=? t) && (t <=? maxTime).

Definition isoYear (y : Z) : string :=
  if (0 <=? y) && (y <=? 9999) then pad 4 y ""
  else (if y <? 0 then "-" else "+") ++ pad 6 (Z.abs y) "".

(** [None] stands for the [RangeError] thrown on an invalid date. *)
Definition toISOString (t : Z) : option string :=
  if validTime t then
    let '(y, m, d) := civil (t / 86400000) in
    Some (isoYear y ++ "-" ++ pad 2 m "" ++ "-" ++ pad 2 d "" ++ "T"
          ++ pad 2 (t / 3600000 mod 24) "" ++ ":"
          ++ pad 2 (t / 60000 mod 60) "" ++ ":"
          ++ pad 2 (t / 1000 mod 60) "" ++ "."
          ++ pad 3 (t mod 1000) "" ++ "Z")
  else None.

End JS.

Export JS.

(** ** types.ts *)

Inductive FieldType : Type :=
| text | number | datetime | location | polygon | image | boolean.

Record FieldDefinition : Type := mkField {
  field_id : string;
  field_name : string;
  field_type : FieldType;
  field_required : bool
}.

Record Campaign : Type := mkCampaign {
  campaign_id : string;
  campaign_name : string;
  campaign_description : string;
  fields : list FieldDefinition;
  spreadsheetId : option string;
  campaign_createdAt : Z
}.

Record Entry : Type := mkEntry {
  id : string;
  campaignId : string;
  data : gmap string value;
  synced : bool;
  createdAt : Z;
  updatedAt : Z
}.

(** The members a record inherits from [Object.prototype]: its
    functions, the [constructor] being [Object], and the prototype
    itself under [__proto__], an object with no member of interest. A
    name that is not inherited reads as [undefined]. *)
Definition inherited (k : string) : value :=
  if existsb (String.eqb k)
       ["__defineGetter__"; "__defineSetter__"; "__lookupGetter__";
        "__lookupSetter__"; "hasOwnProperty"; "isPrototypeOf";
        "propertyIsEnumerable"; "toLocaleString"; "toString"; "valueOf"]
  then VFunction k
  else if String.eqb k "constructor" then VFunction "Object"
  else if String.eqb k "__proto__" then VObject []
  else VUndefined.

(** [data[k]] for a record [data]: its own property [k], or else the
    member of that name it inherits. *)
Definition prop (d : gmap string value) (k : string) : value :=
  default (inherited k) (d !! k).

(** [entry.synced = true] *)
Definition set_synced (e : Entry) : Entry :=
  mkEntry (id e) (campaignId e) (data e) true (createdAt e) (updatedAt e).

(** [{ ...campaign, spreadsheetId }] *)
Definition with_spreadsheetId (c : Campaign) (sid : string) : Campaign :=
  mkCampaign (campaign_id c) (campaign_name c) (campaign_description c)
             (fields c) (Some sid) (campaign_createdAt c).

(** ** IndexedDB: object stores and transactions *)

Module IDB.

(** The database [DataCaptureDB]: two object stores with key path [id]. *)
Record DB : Type := mkDB {
  campaigns : gmap string Campaign;
  entries : gmap string Entry
}.

(** In-line keys: a record is stored under the value of its key path. *)
Definition keyed (d : DB) : Prop :=
  map_Forall (fun k c => campaign_id c = k) (campaigns d) /\
  map_Forall (fun k e => id e = k) (entries d).

Global Instance keyed_dec d : Decision (keyed d).
Proof. unfold keyed. apply _. Defined.

(** What the promise wrapped around a request does when the request
    fails: its [onerror] (or the transaction's) rejects, or nothing is
    listening and the promise never settles. *)
Inductive failure : Type := Rejects | Hangs.

Inductive promise (A : Type) : Type :=
| Resolved (a : A)
| Rejected
| Pending.
Arguments Resolved {A} a.
Arguments Rejected {A}.
Arguments Pending {A}.

(** A fault plan tells which requests of a transaction fail, by their
    position; position [n] of a transaction that issued [n] requests is
    its commit. *)
Definition plan : Type := nat -> bool.
Definition no_fault : plan := fun _ => false.

(** A running transaction: its working copy, the number of requests
    issued so far, and what a reader outside the transaction read each
    time a request was processed (the committed database). *)
Record TxState : Type := mkTx {
  work : DB;
  issued : nat;
  views : list DB
}.

Definition Tx (A : Type) : Type :=
  plan -> DB -> TxState -> (A + failure) * TxState.

Definition tx_ret {A} (a : A) : Tx A := fun _ _ st => (inl a, st).

Definition tx_bind {A B} (m : Tx A) (k : A -> Tx B) : Tx B :=
  fun p c st =>
    match m p c st with
    | (inl a, st') => k a p c st'
    | (inr f, st') => (inr f, st')
    end.

(** One request: it fails when the plan says so, otherwise it acts on
    the working copy. *)
Definition request {A} (onerror : failure) (f : DB -> A * DB) : Tx A :=
  fun p c st =>
    if p (issued st)
    then (inr onerror, mkTx (work st) (S (issued st)) (views st ++ [c])%list)
    else let '(a, d) := f (work st) in
         (inl a, mkTx d (S (issued st)) (views st ++ [c])%list).

Fixpoint forEach {A} (l : list A) (f : A -> Tx unit) : Tx unit :=
  match l with
  | [] => tx_ret tt
  | x :: rest => tx_bind (f x) (fun _ => forEach rest f)
  end.

(** The outcome of a transaction: how the caller's promise settled, the
    committed database afterwards, and what outside readers read while
    it ran. *)
Record TxRun (A : Type) : Type := mkRun {
  settled : promise A;
  after : DB;
  observed : list DB
}.
Arguments mkRun {A}.
Arguments settled {A}.
Arguments after {A}.
Arguments observed {A}.

(** A promise settled by [tx.oncomplete] and [tx.onerror]. A failed
    request aborts the transaction (its error event is not cancelled),
    which rolls the working copy back; a failed commit fires [abort]
    only, which nobody listens to. *)
Definition on_complete {A} (body : Tx A) (p : plan) (d : DB) : TxRun A :=
  match body p d (mkTx d 0 []) with
  | (inl a, st) =>
      if p (issued st) then mkRun Pending d (views st)
      else mkRun (Resolved a) (work st) (views st)
  | (inr Rejects, st) => mkRun Rejected d (views st)
  | (inr Hangs, st) => mkRun Pending d (views st)
  end.

(** A promise settled by the request's own [onsuccess] and [onerror]:
    it resolves before the commit. *)
Definition on_request {A} (body : Tx A) (p : plan) (d : DB) : TxRun A :=
  match body p d (mkTx d 0 []) with
  | (inl a, st) =>
      mkRun (Resolved a) (if p (issued st) then d else work st) (views st)
  | (inr Rejects, st) => mkRun Rejected d (views st)
  | (inr Hangs, st) => mkRun Pending d (views st)
  end.

(** *** Requests on the two stores *)

Definition put_campaign (c : Campaign) (d : DB) : unit * DB :=
  (tt, mkDB (<[campaign_id c := c]> (campaigns d)) (entries d)).

Definition delete_campaign (k : string) (d : DB) : unit * DB :=
  (tt, mkDB (delete k (campaigns d)) (entries d)).

Definition put_entry (e : Entry) (d : DB) : unit * DB :=
  (tt, mkDB (campaigns d) (<[id e := e]> (entries d))).

Definition delete_entry (k : string) (d : DB) : unit * DB :=
  (tt, mkDB (campaigns d) (delete k (entries d))).

Definition get_entry (k : string) (d : DB) : option Entry * DB :=
  (entries d !! k, d).

Definition key_le {V} (a b : string * V) : Prop :=
  String.leb (fst a) (fst b) = true.

Global Instance key_le_dec {V} (a b : string * V) : Decision (key_le a b).
Proof. unfold key_le. apply _. Defined.

(** The records of a store in key order. *)
Definition records {V} (m : gmap string V) : list (string * V) :=
  merge_sort key_le (map_to_list m).

(** The index [campaignId] of the entry store at key [cid]. *)
Definition index_campaignId (cid : string) (m : gmap string Entry)
  : list (string * Entry) :=
  List.filter (fun kv => String.eqb (campaignId (snd kv)) cid) (records m).

Definition index_getAllKeys (cid : string) (d : DB) : list string * DB :=
  (List.map fst (index_campaignId cid (entries d)), d).

Definition index_getAll (cid : string) (d : DB) : list Entry * DB :=
  (List.map snd (index_campaignId cid (entries d)), d).

End IDB.

Export IDB.

Notation "'let*' x ':=' m 'in' k" := (tx_bind m (fun x => k))
  (at level 10, x name, m at level 200, k at level 200).

(** ** [Array.prototype.sort]

    The sort is stable: elements that compare as equal keep their order.
    [x] is put before the first element it may precede. *)
Fixpoint insertSorted {A} (precedes : A -> A -> bool) (x : A) (l : list A)
  : list A :=
  match l with
  | [] => [x]
  | y :: rest =>
      if precedes x y then x :: l else y :: insertSorted precedes x rest
  end.

Definition stableSort {A} (precedes : A -> A -> bool) (l : list A) : list A :=
  fold_right (insertSorted precedes) [] l.

(** ** db.ts

    Every method opens the database and runs one transaction; opening is
    taken to succeed (a failed open rejects before any transaction
    exists). *)

Module db.

Definition saveCampaign (campaign : Campaign) : plan -> DB -> TxRun unit :=
  on_request (request Rejects (put_campaign campaign)).

Definition deleteCampaign (id : string) : plan -> DB -> TxRun unit :=
  on_complete
    (let* _ := request Rejects (delete_campaign id) in
     let* keys := request Rejects (index_getAllKeys id) in
     forEach keys (fun key => request Rejects (delete_entry key))).

Definition getCampaigns : plan -> DB -> TxRun (list Campaign) :=
  on_request
    (request Rejects (fun d => (List.map snd (records (campaigns d)), d))).

Definition getCampaign (id : string) : plan -> DB -> TxRun (option Campaign) :=
  on_request (request Rejects (fun d => (campaigns d !! id, d))).

Definition saveEntry (entry : Entry) : plan -> DB -> TxRun unit :=
  on_request (request Rejects (put_entry entry)).

Definition deleteEntry (id : string) : plan -> DB -> TxRun unit :=
  on_request (request Rejects (delete_entry id)).

(** [(a, b) => b.createdAt - a.createdAt] is not positive: [a] may stay
    before [b]. *)
Definition newer_first (a b : Entry) : Prop := createdAt b <= createdAt a.

Global Instance newer_first_dec a b : Decision (newer_first a b).
Proof. unfold newer_first. apply _. Defined.

(** [result.sort((a, b) => b.createdAt - a.createdAt)] *)
Definition sort_newer_first (l : list Entry) : list Entry :=
  stableSort (fun a b => bool_decide (newer_first a b)) l.

Definition getEntries (campaignId : string) : plan -> DB -> TxRun (list Entry) :=
  on_request
    (let* result := request Rejects (index_getAll campaignId) in
     tx_ret (sort_newer_first result)).

Definition map_promise {A B} (f : A -> B) (r : TxRun A) : TxRun B :=
  mkRun match settled r with
        | Resolved a => Resolved (f a)
        | Rejected => Rejected
        | Pending => Pending
        end (after r) (observed r).

Definition getUnsyncedEntries (campaignId : string) (p : plan) (d : DB)
  : TxRun (list Entry) :=
  map_promise (List.filter (fun e => negb (synced e)))
              (getEntries campaignId p d).

(** The loop of [markSynced]: one [get] per id, whose [onerror] rejects,
    and one [put] for an id that is found, which has no [onerror]. Each
    [await] resumes in the microtask of the success callback of the last
    request, while the transaction is still active, so every request of
    the loop belongs to the one transaction opened before it. *)
Fixpoint markLoop (entryIds : list string) : Tx unit :=
  match entryIds with
  | [] => tx_ret tt
  | id :: rest =>
      let* entry := request Rejects (get_entry id) in
      let* _ := match entry with
                | Some e => request Hangs (put_entry (set_synced e))
                | None => tx_ret tt
                end in
      markLoop rest
  end.

Definition markSynced (entryIds : list string) : plan -> DB -> TxRun unit :=
  on_complete (markLoop entryIds).

End db.

(** ** The world a handler runs in *)

Module IO.

(** A row of a sheet: the cells the Sheets API reports for it (a blank
    row is the empty list). *)
Abbreviation row := (list value) (only parsing).
Abbreviation Sheet := (list (list value)) (only parsing).

(** The calls a handler makes on its collaborators, in order. *)
Inductive event : Type :=
| GapiInit (clientId apiKey : string)
| RequestToken
| SheetsCreate (title : string)
| ValuesGet (spreadsheetId : string)
| ValuesUpdate (spreadsheetId : string) (values : list row)
| ValuesAppend (spreadsheetId : string) (values : list row)
| DbSaveCampaign (c : Campaign)
| DbSaveEntry (e : Entry)
| DbGetEntries (campaignId : string)
| DbMarkSynced (entryIds : list string)
| Alert (message : string).

Inductive Screen : Type := list_view | entry_view.

(** The state of a [CampaignView] component. *)
Record View : Type := mkView {
  props_campaign : Campaign;
  state_localCampaign : Campaign;
  state_entries : list Entry;
  state_formData : gmap string value;
  state_editingEntryId : option string;
  state_syncing : bool;
  state_view : Screen
}.

Record World : Type := mkWorld {
  store : DB;
  sheets : gmap string Sheet;
  log : list event;
  ui : View
}.

(** How a remote collaborator answers a call. *)
Inductive reply : Type := Answers | Fails | Stalls.

(** The environment's choices, by the position of the call in the log:
    the answer to a remote call, the fault plan of a store transaction,
    the id given to a new spreadsheet. *)
Record Oracle : Type := mkOracle {
  replies : nat -> reply;
  plans : nat -> plan;
  newSheetId : nat -> string
}.

(** How an awaited computation ends: with a value, with an exception, or
    never. *)
Inductive outcome (A : Type) : Type :=
| Ok (a : A)
| Throw
| Hang.
Arguments Ok {A} a.
Arguments Throw {A}.
Arguments Hang {A}.

Definition IO (A : Type) : Type := Oracle -> World -> outcome A * World.

Definition ret {A} (a : A) : IO A := fun _ w => (Ok a, w).

Definition bind {A B} (m : IO A) (k : A -> IO B) : IO B :=
  fun o w =>
    match m o w with
    | (Ok a, w') => k a o w'
    | (Throw, w') => (Throw, w')
    | (Hang, w') => (Hang, w')
    end.

Definition throw {A} : IO A := fun _ w => (Throw, w).

(** [try { body } catch { handler }] *)
Definition try_catch {A} (body handler : IO A) : IO A :=
  fun o w =>
    match body o w with
    | (Throw, w') => handler o w'
    | r => r
    end.

(** [try { body } finally { fin }], for a [fin] that does not throw. *)
Definition finally {A} (body : IO A) (fin : World -> World) : IO A :=
  fun o w =>
    match body o w with
    | (Hang, w') => (Hang, w')
    | (r, w') => (r, fin w')
    end.

Definition emit (e : event) (w : World) : World :=
  mkWorld (store w) (sheets w) (log w ++ [e])%list (ui w).

Definition with_sheets (s : gmap string Sheet) (w : World) : World :=
  mkWorld (store w) s (log w) (ui w).

Definition with_store (d : DB) (w : World) : World :=
  mkWorld d (sheets w) (log w) (ui w).

Definition with_ui (f : View -> View) (w : World) : World :=
  mkWorld (store w) (sheets w) (log w) (f (ui w)).

Definition get_ui : IO View := fun _ w => (Ok (ui w), w).

Definition set_ui (f : View -> View) : IO unit :=
  fun _ w => (Ok tt, with_ui f w).

Definition alert (message : string) : IO unit :=
  fun _ w => (Ok tt, emit (Alert message) w).

(** A remote call: logged, then answered as the oracle says; [act] is
    its effect and result when it is answered ([None]: the service
    reports an error). *)
Definition remote {A} (e : event)
    (act : Oracle -> World -> option (A * gmap string Sheet)) : IO A :=
  fun o w =>
    match replies o (length (log w)) with
    | Answers =>
        match act o w with
        | Some (a, s) => (Ok a, with_sheets s (emit e w))
        | None => (Throw, emit e w)
        end
    | Fails => (Throw, emit e w)
    | Stalls => (Hang, emit e w)
    end.

(** A call of a [db] method: logged, run as one transaction under the
    plan the oracle gives it. *)
Definition dbcall {A} (e : event) (op : plan -> DB -> TxRun A) : IO A :=
  fun o w =>
    let r := op (plans o (length (log w))) (store w) in
    let w' := with_store (after r) (emit e w) in
    match settled r with
    | Resolved a => (Ok a, w')
    | Rejected => (Throw, w')
    | Pending => (Hang, w')
    end.

(** The calls a computation adds to the log. *)
Definition emitted {A} (m : IO A) (o : Oracle) (w : World) : list event :=
  skipn (length (log w)) (log (snd (m o w))).

End IO.

Export IO.

Notation "'run*' x ':=' m 'in' k" := (bind m (fun x => k))
  (at level 10, x name, m at level 200, k at level 200).
Notation "m ;; k" := (bind m (fun _ => k))
  (at level 100, k at level 200, right associativity).

(** ** services/googleService.ts *)

Module GoogleService.

(** The client initialisation and the token request are collaborators:
    the oracle answers them. *)
Definition initGoogleClient (clientId apiKey : string) : IO unit :=
  remote (GapiInit clientId apiKey) (fun _ w => Some (tt, sheets w)).

Definition signInAndGetToken : IO unit :=
  remote RequestToken (fun _ w => Some (tt, sheets w)).

Definition getHeaders (fields : list FieldDefinition) : list string :=
  (["ID"; "Created At"; "Latitude"; "Longitude"; "Accuracy"]
     ++ List.map field_name fields)%list.

Definition createSpreadsheet (title : string) : IO string :=
  remote (SheetsCreate ("Data Capture: " ++ title))
    (fun o w =>
       let spreadsheetId := newSheetId o (length (log w)) in
       Some (spreadsheetId, <[spreadsheetId := []]> (sheets w))).

(** [spreadsheets.values.get] on [Sheet1!A1:Z1]: the first 26 cells of
    the first row; [values] is missing when the sheet has no row. *)
Definition values_get (spreadsheetId : string) : IO (option (list row)) :=
  remote (ValuesGet spreadsheetId)
    (fun _ w =>
       match sheets w !! spreadsheetId with
       | None => None
       | Some sh =>
           Some (match sh with
                 | [] => None
                 | r :: _ => Some [firstn 26 r]
                 end, sheets w)
       end).

(** Writing [values] from [A1] on: cells to the right of and below the
    written block keep their content. *)
Fixpoint write_at_A1 (values : list row) (sh : Sheet) : Sheet :=
  match values, sh with
  | [], _ => sh
  | v :: vs, [] => v :: write_at_A1 vs []
  | v :: vs, r :: rs => (v ++ skipn (length v) r)%list :: write_at_A1 vs rs
  end.

Definition values_update (spreadsheetId : string) (values : list row)
  : IO unit :=
  remote (ValuesUpdate spreadsheetId values)
    (fun _ w =>
       match sheets w !! spreadsheetId with
       | None => None
       | Some sh =>
           Some (tt, <[spreadsheetId := write_at_A1 values sh]> (sheets w))
       end).

(** [spreadsheets.values.append] at [Sheet1!A1]: the rows go below the
    table. *)
Definition values_append (spreadsheetId : string) (values : list row)
  : IO unit :=
  remote (ValuesAppend spreadsheetId values)
    (fun _ w =>
       match sheets w !! spreadsheetId with
       | None => None
       | Some sh =>
           Some (tt, <[spreadsheetId := (sh ++ values)%list]> (sheets w))
       end).

(** [!existingHeaders || existingHeaders.length === 0] for
    [existingHeaders = response.result.values?.[0]]. *)
Definition header_missing (values : option (list row)) : bool :=
  match values with
  | None => true
  | Some rows =>
      match rows with
      | [] => true
      | existingHeaders :: _ => (length existingHeaders =? 0)%nat
      end
  end.

Definition ensureSheetStructure (spreadsheetId : string) (campaign : Campaign)
  : IO unit :=
  let headers := getHeaders (fields campaign) in
  run* values := values_get spreadsheetId in
  if header_missing values
  then values_update spreadsheetId [List.map VString headers]
  else ret tt.

Definition placeholder : string := "(Image too large for Sheet Cell)".

(** [val.length] of a string. *)
Definition strlen (s : string) : Z := Z.of_nat (String.length s).

Definition baseData (entry : Entry) : option row :=
  iso ← toISOString (createdAt entry);
  Some [ VString (id entry);
         VString iso;
         or_else (prop (data entry) "__loc_lat") (VString "");
         or_else (prop (data entry) "__loc_lng") (VString "");
         or_else (prop (data entry) "__loc_acc") (VString "") ].

Definition fieldCell `{NumberFormat} (entry : Entry) (field : FieldDefinition)
  : value :=
  let val := prop (data entry) (field_id field) in
  if nullish val then VString ""
  else match field_type field with
       | image =>
           match val with
           | VString s =>
               if 40000 <? strlen s then VString placeholder else val
           | _ => val
           end
       | location =>
           VString (toString (member val "latitude") ++ ","
                    ++ toString (member val "longitude"))
       | _ => VString (toString val)
       end.

Definition entryRow `{NumberFormat} (campaign : Campaign) (entry : Entry)
  : option row :=
  base ← baseData entry;
  Some (base ++ List.map (fieldCell entry) (fields campaign))%list.

(** [entries.map(entry => ...)]; [None] when a [toISOString] throws. *)
Definition entryRows `{NumberFormat} (campaign : Campaign)
    (entries : list Entry) : option (list row) :=
  mapM (entryRow campaign) entries.

Definition syncEntries `{NumberFormat} (spreadsheetId : string)
    (campaign : Campaign) (entries : list Entry) : IO unit :=
  if (length entries =? 0)%nat then ret tt
  else match entryRows campaign entries with
       | None => throw
       | Some rows => values_append spreadsheetId rows
       end.

End GoogleService.

(** ** App.tsx: [CampaignView] *)

Module App.

Record GoogleAuthConfig : Type := mkAuth {
  clientId : string;
  apiKey : string
}.

Definition setSyncing (b : bool) (v : View) : View :=
  mkView (props_campaign v) (state_localCampaign v) (state_entries v)
         (state_formData v) (state_editingEntryId v) b (state_view v).

Definition setLocalCampaign (c : Campaign) (v : View) : View :=
  mkView (props_campaign v) c (state_entries v)
         (state_formData v) (state_editingEntryId v) (state_syncing v)
         (state_view v).

Definition setEntries (l : list Entry) (v : View) : View :=
  mkView (props_campaign v) (state_localCampaign v) l
         (state_formData v) (state_editingEntryId v) (state_syncing v)
         (state_view v).

Definition setFormData (d : gmap string value) (v : View) : View :=
  mkView (props_campaign v) (state_localCampaign v) (state_entries v)
         d (state_editingEntryId v) (state_syncing v) (state_view v).

Definition setEditingEntryId (i : option string) (v : View) : View :=
  mkView (props_campaign v) (state_localCampaign v) (state_entries v)
         (state_formData v) i (state_syncing v) (state_view v).

Definition setView (s : Screen) (v : View) : View :=
  mkView (props_campaign v) (state_localCampaign v) (state_entries v)
         (state_formData v) (state_editingEntryId v) (state_syncing v) s.

(** Truthiness of a [string | null] or [string | undefined]. *)
Definition given (s : option string) : option string :=
  match s with
  | Some x => if String.eqb x "" then None else Some x
  | None => None
  end.

Definition loadEntries (campaign : Campaign) : IO unit :=
  run* data := dbcall (DbGetEntries (campaign_id campaign))
                      (db.getEntries (campaign_id campaign)) in
  set_ui (setEntries data).

Definition unsyncedOf (entries : list Entry) : list Entry :=
  List.filter (fun e => negb (synced e)) entries.

(** The handler closes over the [localCampaign] and [entries] of the
    render it was created in. The text of the failure alert, which
    quotes the error, is cut to its fixed part. *)
Definition handleSync `{NumberFormat} (authConfig : GoogleAuthConfig) : IO unit :=
  run* v := get_ui in
  let campaign := props_campaign v in
  let localCampaign := state_localCampaign v in
  let entries := state_entries v in
  if String.eqb (clientId authConfig) "" || String.eqb (apiKey authConfig) ""
  then alert "Please configure Google API Credentials in settings first."
  else
    set_ui (setSyncing true);;
    finally
      (try_catch
         (GoogleService.initGoogleClient (clientId authConfig) (apiKey authConfig);;
          GoogleService.signInAndGetToken;;
          run* spreadsheetId :=
            match given (spreadsheetId localCampaign) with
            | Some spreadsheetId => ret spreadsheetId
            | None =>
                run* spreadsheetId :=
                  GoogleService.createSpreadsheet (campaign_name localCampaign) in
                let updatedCampaign := with_spreadsheetId localCampaign spreadsheetId in
                dbcall (DbSaveCampaign updatedCampaign) (db.saveCampaign updatedCampaign);;
                set_ui (setLocalCampaign updatedCampaign);;
                ret spreadsheetId
            end in
          GoogleService.ensureSheetStructure spreadsheetId localCampaign;;
          let unsynced := unsyncedOf entries in
          (if (0 <? length unsynced)%nat
           then
             GoogleService.syncEntries spreadsheetId localCampaign unsynced;;
             dbcall (DbMarkSynced (List.map id unsynced))
                    (db.markSynced (List.map id unsynced));;
             loadEntries campaign
           else ret tt);;
          alert "Sync successful!")
         (alert "Sync failed"))
      (with_ui (setSyncing false)).

(** The first required field whose form value is falsy. *)
Definition missingRequired (fields : list FieldDefinition)
    (formData : gmap string value) : option FieldDefinition :=
  List.find (fun f => field_required f && negb (truthy (prop formData (field_id f))))
            fields.

(** [editingEntryId ? entries.find(e => e.id === editingEntryId)?.createdAt : undefined],
    when it is truthy: the creation time an edit keeps. *)
Definition keptCreatedAt (editingEntryId : option string)
    (entries : list Entry) : option Z :=
  i ← editingEntryId;
  e ← List.find (fun e => String.eqb (id e) i) entries;
  if createdAt e =? 0 then None else Some (createdAt e).

(** [uuid] is the result of [crypto.randomUUID()], which is called for a
    new entry only. [now] and [later] are the first and the second
    reading of [Date.now()]: the expression of [createdAt] reads the
    clock unless it keeps the creation time of the edited entry, and
    [updatedAt] takes the next reading, which is the first one when the
    creation time is kept. *)
Definition handleSaveEntry (uuid : string) (now later : Z) : IO unit :=
  run* v := get_ui in
  let campaign := props_campaign v in
  let formData := state_formData v in
  let entries := state_entries v in
  let editingEntryId := given (state_editingEntryId v) in
  match missingRequired (fields campaign) formData with
  | Some f => alert (field_name f ++ " is required")
  | None =>
      let newEntry :=
        mkEntry
          (default uuid editingEntryId)
          (campaign_id campaign)
          formData
          false
          (default now (keptCreatedAt editingEntryId entries))
          (match keptCreatedAt editingEntryId entries with
           | Some _ => now
           | None => later
           end) in
      dbcall (DbSaveEntry newEntry) (db.saveEntry newEntry);;
      loadEntries campaign;;
      set_ui (setFormData ∅);;
      set_ui (setEditingEntryId None);;
      set_ui (setView list_view)
  end.

End App.

(** ** Sample data *)

Module Sample.

Definition plain : NumberFormat := fun _ => "0".

(** A string of [n] characters. *)
Definition blob (n : N) : string := N.iter n (String "A"%char) "".

Definition note : FieldDefinition := mkField "f1" "Note" text false.
Definition photo : FieldDefinition := mkField "f2" "Photo" image false.

Definition survey : Campaign :=
  mkCampaign "c1" "Survey" "" [note] None 1699999999000.

Definition album : Campaign :=
  mkCampaign "c2" "Album" "" [note; photo] (Some "sheet0") 1699999999000.

Definition E1 : Entry :=
  mkEntry "e1" "c1" {["f1" := VString "hello"]} false
          1700000000000 1700000000000.

Definition E2 : Entry :=
  mkEntry "e2" "c1" {["f1" := VString "world"]} true
          1700000000001 1700000000001.

(** An entry captured on the equator. *)
Definition E3 : Entry :=
  mkEntry "e3" "c1"
          (<["__loc_lat" := VNumber 0%float]>
             (<["__loc_lng" := VNumber 10.5%float]>
                {["__loc_acc" := VNumber 4%float]}))
          false 1700000000000 1700000000000.

Definition small_photo : Entry :=
  mkEntry "p1" "c2" {["f2" := VString (blob 40000)]} false
          1700000000000 1700000000000.

Definition large_photo : Entry :=
  mkEntry "p2" "c2" {["f2" := VString (blob 40001)]} false
          1700000000000 1700000000000.

Definition database : DB :=
  mkDB {["c1" := survey]} (<["e1" := E1]> {["e2" := E2]}).

Definition component : View :=
  mkView survey survey [E2; E1] ∅ None false list_view.

Definition world : World := mkWorld database ∅ [] component.

Definition calm : Oracle :=
  mkOracle (fun _ => Answers) (fun _ => no_fault) (fun _ => "sheet1").

(** The component while the synced entry [E2] is being edited. *)
Definition editing : View :=
  mkView survey survey [E2; E1] {["f1" := VString "world!"]} (Some "e2")
         false entry_view.

Definition editing_world : World := mkWorld database ∅ [] editing.

(** [E2] as [handleSaveEntry] stores it after the edit. *)
Definition E2_edited : Entry :=
  mkEntry "e2" "c1" {["f1" := VString "world!"]} false
          1700000000001 1700000000600.

(** A world whose sheet has a header the user rewrote. *)
Definition headed_world : World :=
  mkWorld database {["sheet0" := [[VString "Site"; VString "When"]]]} []
          component.

(** A fault on the third request of a transaction. *)
Definition third_fails : plan := fun n => Nat.eqb n 2.

Definition credentials : App.GoogleAuthConfig := App.mkAuth "client" "key".

End Sample.

(** ** Vocabulary of the statements *)

Section Vocabulary.
Context `{NumberFormat}.
Import GoogleService App.

Definition keyed_entries (m : gmap string Entry) : Prop :=
  forall k e, m !! k = Some e -> id e = k.

(** The entry store after the loop of [markSynced] ran without fault. *)
Fixpoint markAll (entryIds : list string) (m : gmap string Entry)
  : gmap string Entry :=
  match entryIds with
  | [] => m
  | k :: rest =>
      markAll rest match m !! k with
                   | Some e => <[id e := set_synced e]> m
                   | None => m
                   end
  end.

(** Readers outside a transaction only ever read the committed
    database. *)
Definition isolated (c : DB) (st : TxState) : Prop :=
  Forall (fun v => v = c) (views st).

(** The entry store after the given keys were deleted. *)
Definition deleteAll (keys : list string) (m : gmap string Entry)
  : gmap string Entry :=
  fold_left (fun m k => delete k m) keys m.

(** The database after the cascade ran without fault. *)
Definition cascade (id : string) (d : DB) : DB :=
  mkDB (delete id (campaigns d))
       (deleteAll (List.map fst (index_campaignId id (entries d))) (entries d)).

(** A computation only adds to the log. *)
Definition grows {A} (m : IO A) : Prop :=
  forall o w, exists l, log (snd (m o w)) = (log w ++ l)%list.

(** Running the step once for each campaign of a list, whatever each
    run's outcome. *)
Definition ensureEach (spreadsheetId : string) (campaigns : list Campaign)
    (o : Oracle) (w : World) : World :=
  fold_left
    (fun w campaign => snd (ensureSheetStructure spreadsheetId campaign o w))
    campaigns w.

Definition is_update (e : event) : bool :=
  match e with ValuesUpdate _ _ => true | _ => false end.

(** The calls of a sync run that matter to the sink and the watermark:
    the append, the marking, and the report of success. *)
Definition relevant (e : event) : bool :=
  match e with
  | ValuesAppend _ _ => true
  | DbMarkSynced _ => true
  | Alert message => String.eqb message "Sync successful!"
  | _ => false
  end.

Definition sync_trace (l : list event) : list event := List.filter relevant l.

(** The part of [handleSync] from the append on, named for the proofs
    ([handleSync_unfold] shows that [handleSync] is made of these parts). *)
Definition appendAndMark (spreadsheetId : string)
    (campaign localCampaign : Campaign) (unsynced : list Entry) : IO unit :=
  (if (0 <? length unsynced)%nat
   then
     syncEntries spreadsheetId localCampaign unsynced;;
     dbcall (DbMarkSynced (List.map id unsynced))
            (db.markSynced (List.map id unsynced));;
     loadEntries campaign
   else ret tt);;
  alert "Sync successful!".

Definition expected (spreadsheetId : string) (rows : list (list value))
    (unsynced : list Entry) : list event :=
  [ValuesAppend spreadsheetId rows; DbMarkSynced (List.map id unsynced);
   Alert "Sync successful!"].

Definition quiet {A} (m : IO A) : Prop :=
  forall o w, sync_trace (emitted m o w) = [].

(** The part of [handleSync] that finds the spreadsheet id of the run:
    the campaign's, or a new one that is saved with the campaign. *)
Definition ensureSink (localCampaign : Campaign) : IO string :=
  match given (spreadsheetId localCampaign) with
  | Some spreadsheetId => ret spreadsheetId
  | None =>
      run* spreadsheetId :=
        createSpreadsheet (campaign_name localCampaign) in
      let updatedCampaign := with_spreadsheetId localCampaign spreadsheetId in
      dbcall (DbSaveCampaign updatedCampaign) (db.saveCampaign updatedCampaign);;
      set_ui (setLocalCampaign updatedCampaign);;
      ret spreadsheetId
  end.

(** The body of the [try] block of [handleSync]. *)
Definition syncBody (authConfig : GoogleAuthConfig)
    (campaign localCampaign : Campaign) (entries : list Entry) : IO unit :=
  initGoogleClient (clientId authConfig) (apiKey authConfig);;
  signInAndGetToken;;
  run* spreadsheetId := ensureSink localCampaign in
  ensureSheetStructure spreadsheetId localCampaign;;
  appendAndMark spreadsheetId campaign localCampaign (unsyncedOf entries).

(** What a run may leave in the trace, for the entries it found
    unsynced. *)
Definition sync_outcome (localCampaign : Campaign) (unsynced : list Entry)
    (trace : list event) : Prop :=
  match unsynced with
  | [] => trace = [] \/ trace = [Alert "Sync successful!"]
  | _ :: _ =>
      trace = []
      \/ exists spreadsheetId rows n,
           entryRows localCampaign unsynced = Some rows
           /\ (1 <= n <= 3)%nat
           /\ trace = firstn n (expected spreadsheetId rows unsynced)
  end.

Definition calm (o : Oracle) : Prop :=
  (forall n, replies o n = Answers) /\ (forall n k, plans o n k = false).

(** The store after a computation is related to the store before. *)
Definition respects {A} (R : DB -> DB -> Prop) (m : IO A) : Prop :=
  forall o w, R (store w) (store (snd (m o w))).

(** An entry that is synced stays as it is, in a store that stays
    keyed. *)
Definition carries (d d' : DB) : Prop :=
  keyed d ->
  keyed d'
  /\ forall k e, entries d !! k = Some e -> synced e = true ->
                 entries d' !! k = Some e.

(** The operations on entries that the application performs. *)
Inductive operation : Type :=
| SaveEntry (uuid : string) (now later : Z)
| Sync (authConfig : App.GoogleAuthConfig)
| MarkSynced (entryIds : list string).

Definition perform (op : operation) (o : Oracle) (w : World)
  : World :=
  match op with
  | SaveEntry uuid now later => snd (App.handleSaveEntry uuid now later o w)
  | Sync authConfig => snd (App.handleSync authConfig o w)
  | MarkSynced entryIds =>
      snd (dbcall (DbMarkSynced entryIds) (db.markSynced entryIds) o w)
  end.

(** No entry goes from synced to unsynced. *)
Definition watermark_kept (d d' : DB) : Prop :=
  forall k e e',
    entries d !! k = Some e -> synced e = true ->
    entries d' !! k = Some e' -> synced e' = true.

(** The id under which [handleSaveEntry] saves: the entry being edited,
    or the new uuid. *)
Definition savedId (uuid : string) (w : World) : string :=
  default uuid (given (state_editingEntryId (ui w))).

End Vocabulary.

(** * The rest of the application *)

(** ** String helpers of the platform *)

Module JSString.

(** The white space characters [String.prototype.trim] removes, among the
    code units below 256: tab, line feed, vertical tab, form feed,
    carriage return, space and no-break space. *)
Definition isWhiteSpace (c : ascii) : bool :=
  match nat_of_ascii c with
  | 9%nat | 10%nat | 11%nat | 12%nat | 13%nat | 32%nat | 160%nat => true
  | _ => false
  end.

Fixpoint trimStart (s : string) : string :=
  match s with
  | EmptyString => EmptyString
  | String c rest => if isWhiteSpace c then trimStart rest else s
  end.

Fixpoint revapp (s acc : string) : string :=
  match s with
  | EmptyString => acc
  | String c rest => revapp rest (String c acc)
  end.

Definition reversed (s : string) : string := revapp s EmptyString.

(** [s.trim()] *)
Definition trim (s : string) : string :=
  reversed (trimStart (reversed (trimStart s))).

(** [!s.trim()] *)
Definition blank (s : string) : bool := String.eqb (trim s) "".

(** [[...s]] for a string of code units below 256: its characters. *)
Fixpoint characters (s : string) : list string :=
  match s with
  | EmptyString => []
  | String c rest => String c EmptyString :: characters rest
  end.

End JSString.

(** ** App.tsx: [CreateCampaign] *)

Module CreateCampaign.

(** [Partial<FieldDefinition>] *)
Record FieldUpdates : Type := mkUpdates {
  new_id : option string;
  new_name : option string;
  new_type : option FieldType;
  new_required : option bool
}.

(** [{ ...f, ...updates }] *)
Definition merged (f : FieldDefinition) (updates : FieldUpdates)
  : FieldDefinition :=
  mkField (default (field_id f) (new_id updates))
          (default (field_name f) (new_name updates))
          (default (field_type f) (new_type updates))
          (default (field_required f) (new_required updates)).

(** [uuid] is the result of [crypto.randomUUID()]. *)
Definition addField (uuid : string) (type : FieldType)
    (fields : list FieldDefinition) : list FieldDefinition :=
  (fields ++ [mkField uuid "" type false])%list.

Definition updateField (id : string) (updates : FieldUpdates)
    (fields : list FieldDefinition) : list FieldDefinition :=
  List.map (fun f => if String.eqb (field_id f) id then merged f updates else f)
           fields.

Definition removeField (id : string) (fields : list FieldDefinition)
  : list FieldDefinition :=
  List.filter (fun f => negb (String.eqb (field_id f) id)) fields.

(** What [handleSave] does: an alert, or a call of [onSave]. *)
Inductive saved : Type :=
| Alerted (message : string)
| OnSave (c : Campaign).

(** [uuid] and [now] are the results of [crypto.randomUUID()] and
    [Date.now()], used when the existing campaign gives no id or no
    creation time. *)
Definition handleSave (existingCampaign : option Campaign) (uuid : string)
    (now : Z) (name : string) (fields : list FieldDefinition) : saved :=
  if JSString.blank name then Alerted "Please enter a campaign name"
  else if existsb (fun f => JSString.blank (field_name f)) fields
  then Alerted "All fields must have a name"
  else
    OnSave
      (mkCampaign
         (match existingCampaign with
          | Some c => if String.eqb (campaign_id c) "" then uuid else campaign_id c
          | None => uuid
          end)
         name
         ""
         fields
         (match existingCampaign with
          | Some c => spreadsheetId c
          | None => None
          end)
         (match existingCampaign with
          | Some c => if campaign_createdAt c =? 0 then now else campaign_createdAt c
          | None => now
          end)).

End CreateCampaign.

(** ** App.tsx: the other handlers of [CampaignView] *)

Module CampaignView.
Import App.

(** The component as it is mounted on [campaign]: the initial values of
    its states, [localCampaign] being the campaign it is given. *)
Definition mount (campaign : Campaign) : View :=
  mkView campaign campaign [] ∅ None false list_view.

(** The component mounted in a world: its states are initialised and its
    effect loads the entries. *)
Definition mounted (campaign : Campaign) : IO unit :=
  set_ui (fun _ => mount campaign);; App.loadEntries campaign.

(** [loadEntries] run on its own, under the plan [q]. *)
Definition loadEntries (q : plan) (d : DB) (v : View) : promise unit * DB * View :=
  let r := db.getEntries (campaign_id (props_campaign v)) q d in
  match settled r with
  | Resolved data => (Resolved tt, after r, setEntries data v)
  | Rejected => (Rejected, after r, v)
  | Pending => (Pending, after r, v)
  end.

(** [confirmed] is the answer to [confirm('Delete this entry?')]. The
    reload is started and not awaited: the handler resolves whatever
    becomes of it. *)
Definition handleDeleteEntry (confirmed : bool) (id : string) (p q : plan)
    (d : DB) (v : View) : promise unit * DB * View :=
  if confirmed then
    let r := db.deleteEntry id p d in
    match settled r with
    | Resolved _ =>
        let '(_, d', v') := loadEntries q (after r) v in (Resolved tt, d', v')
    | Rejected => (Rejected, after r, v)
    | Pending => (Pending, after r, v)
    end
  else (Resolved tt, d, v).

Definition handleEditEntry (entry : Entry) (v : View) : View :=
  setView entry_view (setEditingEntryId (Some (id entry)) (setFormData (data entry) v)).

(** The button that opens the form for a new entry. *)
Definition newEntry (v : View) : View :=
  setView entry_view (setEditingEntryId None (setFormData ∅ v)).

(** The buttons that leave the form. *)
Definition cancelEntry (v : View) : View :=
  setEditingEntryId None (setView list_view v).

(** [{ latitude, longitude }] *)
Definition point (latitude longitude : float) : value :=
  VObject [("latitude", VNumber latitude); ("longitude", VNumber longitude)].

Definition is_location (f : FieldDefinition) : bool :=
  match field_type f with location => true | _ => false end.

(** [updates[k] = v] on the object literal [updates]: an assignment to
    [__proto__] sets the prototype of the object and gives it no
    property of its own. *)
Definition assign (updates : gmap string value) (k : string) (v : value)
  : gmap string value :=
  if String.eqb k "__proto__" then updates else <[k := v]> updates.

(** The [updates] object of [captureLocation]: the three reserved keys,
    then one point for each location field whose value in [formData],
    the form data the handler closed over, is falsy. *)
Definition captureUpdates (fields : list FieldDefinition)
    (formData : gmap string value) (lat lng acc : float) : gmap string value :=
  fold_left
    (fun updates f =>
       if is_location f && negb (truthy (prop formData (field_id f)))
       then assign updates (field_id f) (point lat lng)
       else updates)
    fields
    (<["__loc_acc" := VNumber acc]>
       (<["__loc_lng" := VNumber lng]> {["__loc_lat" := VNumber lat]})).

(** The component with the flag of the location button, which [View]
    leaves out. *)
Record Capture : Type := mkCapture {
  capture_view : View;
  locationLoading : bool
}.

(** [captureLocation] itself sets the flag and asks for the position. *)
Definition captureLocation (c : Capture) : Capture :=
  mkCapture (capture_view c) true.

(** The success callback of [captureLocation], for the position
    [(lat, lng)] of accuracy [acc]. [formData] is the form data of the
    render whose button was pressed; the update
    [prev => ({ ...prev, ...updates })] applies to the form data of the
    time of the callback. *)
Definition captureLocation_success (formData : gmap string value)
    (lat lng acc : float) (c : Capture) : Capture :=
  let v := capture_view c in
  mkCapture
    (setFormData
       (captureUpdates (fields (props_campaign v)) formData lat lng acc
          ∪ state_formData v)
       v)
    false.

(** The error callback of [captureLocation]: the alert, and the state
    after it. *)
Definition captureLocation_error (message : string) (c : Capture)
  : string * Capture :=
  ("Could not get location: " ++ message, mkCapture (capture_view c) false).

(** [[...current]]: the elements of an array, the characters of a string;
    [None] stands for the [TypeError] on a value that is not iterable. *)
Definition spread (current : value) : option (list value) :=
  match current with
  | VArray items => Some items
  | VString s => Some (List.map VString (JSString.characters s))
  | _ => None
  end.

(** The success callback of [addToPolygon], for a form that did not
    change between the press of the button and the callback. *)
Definition addToPolygon (fieldId : string) (lat lng : float) (v : View)
  : option View :=
  let current := or_else (prop (state_formData v) fieldId) (VArray []) in
  items ← spread current;
  Some (setFormData
          (<[fieldId := VArray (items ++ [point lat lng])]> (state_formData v)) v).

(** [confirmed] is the answer to the [confirm] of [clearPolygon]. *)
Definition clearPolygon (confirmed : bool) (fieldId : string) (v : View) : View :=
  if confirmed
  then setFormData (<[fieldId := VArray []]> (state_formData v)) v
  else v.

(** [reader.onloadend] of [handleFileChange], for the data URL read. *)
Definition handleFileChange (fieldId : string) (dataUrl : string) (v : View)
  : View :=
  setFormData (<[fieldId := VString dataUrl]> (state_formData v)) v.

End CampaignView.

(** ** App.tsx: the [App] component *)

Module Home.

Inductive Screen : Type := home | create | campaign.

Record State : Type := mkState {
  screen : Screen;
  campaigns : list Campaign;
  selectedCampaign : option Campaign;
  editingCampaign : option Campaign
}.

Definition setScreen (s : Screen) (h : State) : State :=
  mkState s (campaigns h) (selectedCampaign h) (editingCampaign h).

Definition setCampaigns (l : list Campaign) (h : State) : State :=
  mkState (screen h) l (selectedCampaign h) (editingCampaign h).

Definition setSelectedCampaign (c : option Campaign) (h : State) : State :=
  mkState (screen h) (campaigns h) c (editingCampaign h).

Definition setEditingCampaign (c : option Campaign) (h : State) : State :=
  mkState (screen h) (campaigns h) (selectedCampaign h) c.

(** [(a, b) => b.createdAt - a.createdAt] is not positive. *)
Definition newerFirst (a b : Campaign) : bool :=
  campaign_createdAt b <=? campaign_createdAt a.

Definition loadCampaigns (q : plan) (d : DB) (h : State)
  : promise unit * DB * State :=
  let r := db.getCampaigns q d in
  match settled r with
  | Resolved data => (Resolved tt, after r, setCampaigns (stableSort newerFirst data) h)
  | Rejected => (Rejected, after r, h)
  | Pending => (Pending, after r, h)
  end.

Definition handleSaveCampaign (c : Campaign) (p q : plan) (d : DB) (h : State)
  : promise unit * DB * State :=
  let r := db.saveCampaign c p d in
  match settled r with
  | Resolved _ =>
      match loadCampaigns q (after r) h with
      | (Resolved _, d', h') =>
          (Resolved tt, d', setEditingCampaign None (setScreen home h'))
      | other => other
      end
  | Rejected => (Rejected, after r, h)
  | Pending => (Pending, after r, h)
  end.

(** [confirmed] is the answer to the [confirm] of the handler. *)
Definition handleDeleteCampaign (confirmed : bool) (id : string) (p q : plan)
    (d : DB) (h : State) : promise unit * DB * State :=
  if confirmed then
    let r := db.deleteCampaign id p d in
    match settled r with
    | Resolved _ =>
        loadCampaigns q (after r) (setSelectedCampaign None (setScreen home h))
    | Rejected => (Rejected, after r, h)
    | Pending => (Pending, after r, h)
    end
  else (Resolved tt, d, h).

Definition handleEditCampaignRequest (c : Campaign) (h : State) : State :=
  setScreen create (setEditingCampaign (Some c) h).

Definition openCampaign (c : Campaign) (h : State) : State :=
  setScreen campaign (setSelectedCampaign (Some c) h).

End Home.

(** ** App.tsx: [CampaignMap] *)

Module CampaignMap.

(** [entry.data['__loc_lat']] and [entry.data['__loc_lng']] *)
Definition globalLat (e : Entry) : value := prop (data e) "__loc_lat".
Definition globalLng (e : Entry) : value := prop (data e) "__loc_lng".

(** [entries.some(e => e.data['__loc_lat'])] *)
Definition hasData (entries : list Entry) : bool :=
  existsb (fun e => truthy (globalLat e)) entries.

(** The center of the map: the position of the first entry that has a
    latitude, or [[0, 0]]. *)
Definition center (entries : list Entry) : value * value :=
  match List.find (fun e => truthy (globalLat e)) entries with
  | Some e => (globalLat e, globalLng e)
  | None => (VNumber 0, VNumber 0)
  end.

(** [globalLat && <Marker position={[globalLat, globalLng]}>]: the
    position of the marker of an entry, if it gets one. *)
Definition marker (e : Entry) : option (value * value) :=
  if truthy (globalLat e) then Some (globalLat e, globalLng e) else None.

(** [v !== 0] *)
Definition isnt_zero (v : value) : bool :=
  match v with
  | VNumber x => negb (PrimFloat.eqb x 0%float)
  | _ => true
  end.

(** The guard of [Recenter]: [lat !== 0 && lng !== 0]. *)
Definition recenters (c : value * value) : bool :=
  isnt_zero (fst c) && isnt_zero (snd c).

(** [polyData && Array.isArray(polyData) && polyData.length > 2] *)
Definition drawn (e : Entry) (f : FieldDefinition) : bool :=
  match prop (data e) (field_id f) with
  | VArray items => (2 <? length items)%nat
  | _ => false
  end.

End CampaignMap.

(** ** More sample data *)

Module Cases.
Import App.

Definition site : FieldDefinition := mkField "f3" "Site" location false.
Definition outline : FieldDefinition := mkField "f4" "Outline" polygon false.
Definition count : FieldDefinition := mkField "f5" "Count" number true.
Definition label : FieldDefinition := mkField "f6" "Label" text false.

Definition plots : Campaign :=
  mkCampaign "c3" "Plots" "" [site; outline; count; label] (Some "sheet0")
             1700000000000.

Definition corner (latitude longitude : float) : list (string * value) :=
  [("latitude", VNumber latitude); ("longitude", VNumber longitude)].

Definition P1 : Entry :=
  mkEntry "q1" "c3"
          (<["f3" := VObject (corner 12.5 77.5)]>
             (<["f4" := VArray (List.map VObject [corner 1 2; corner 3 4])]>
                (<["f5" := VNumber 7]> {["f6" := VString "north"]})))
          false 1700000000000 1700000000000.

(** An entry whose creation time is past the last time value. *)
Definition undated : Entry :=
  mkEntry "u1" "c1" ∅ false 8640000000000001 0.

(** A world with a new, empty sheet. *)
Definition blank_sheet_world : World :=
  mkWorld Sample.database {["sheet1" := []]} [] Sample.component.

(** The form of [plots] with the required count set to 0. *)
Definition zero_count : View :=
  mkView plots plots [] {["f5" := VNumber 0]} None false entry_view.

Definition form_world : World := mkWorld Sample.database ∅ [] zero_count.

(** A campaign with a field whose id names a member of
    [Object.prototype], and an entry of it that holds no value. *)
Definition method : FieldDefinition := mkField "toString" "Method" text false.

Definition methods : Campaign :=
  mkCampaign "c4" "Methods" "" [method] (Some "sheet0") 1700000000000.

Definition bare : Entry :=
  mkEntry "b1" "c4" ∅ false 1700000000000 1700000000000.

(** The same field made required, and its empty form. *)
Definition required_method : FieldDefinition :=
  mkField "toString" "Method" text true.

Definition checks : Campaign :=
  mkCampaign "c5" "Checks" "" [required_method] (Some "sheet0") 1700000000000.

Definition empty_form : View :=
  mkView checks checks [] ∅ None false entry_view.

Definition empty_form_world : World :=
  mkWorld Sample.database ∅ [] empty_form.

(** Collaborators that answer, with a fault on the first request of the
    transaction opened at position [n] of the log. *)
Definition read_fails_at (n : nat) : Oracle :=
  mkOracle (fun _ => Answers) (fun m k => Nat.eqb m n && Nat.eqb k 0)
           (fun _ => "sheet1").

(** The sample world after a sync run whose append and marking succeed
    and whose final [loadEntries] fails: the read of the entries is the
    ninth call of the run. *)
Definition after_failed_reload : World :=
  snd (handleSync (H := Sample.plain) Sample.credentials (read_fails_at 8)
         Sample.world).

End Cases.

(** ** More vocabulary *)

(** The world after a computation is related to the world before. *)
Definition steps {A} (R : World -> World -> Prop) (m : IO A) : Prop :=
  forall o w, R w (snd (m o w)).

(** A computation makes no call of the kind [f]. *)
Definition silent {A} (f : event -> bool) (m : IO A) : Prop :=
  forall o w, List.filter f (emitted m o w) = [].

Definition is_alert (e : event) : bool :=
  match e with Alert _ => true | _ => false end.

Definition is_create (e : event) : bool :=
  match e with SheetsCreate _ => true | _ => false end.

Definition is_append (e : event) : bool :=
  match e with ValuesAppend _ _ => true | _ => false end.

(** A computation ends its calls with the report of success when it
    returns, and alerts nothing when it does not. *)
Definition reports {A} (m : IO A) : Prop :=
  forall o w,
    (forall a, fst (m o w) = Ok a ->
               last (emitted m o w) = Some (Alert "Sync successful!")
               /\ List.filter is_alert (emitted m o w)
                  = [Alert "Sync successful!"])
    /\ ((forall a, fst (m o w) <> Ok a) ->
        List.filter is_alert (emitted m o w) = []).

(** Two worlds agree on an observation. *)
Definition same_on {B} (f : World -> B) (w w' : World) : Prop := f w' = f w.

Definition missingCredentials (authConfig : App.GoogleAuthConfig) : bool :=
  String.eqb (App.clientId authConfig) "" || String.eqb (App.apiKey authConfig) "".

(** The component shows what the store holds for its campaign. *)
Definition coherent (w : World) : Prop :=
  forall e,
    e ∈ state_entries (ui w)
    <-> exists k, entries (store w) !! k = Some e
                  /\ campaignId e = campaign_id (props_campaign (ui w)).

(** A spreadsheet that exists keeps existing. *)
Definition sheet_kept (spreadsheetId : string) (w w' : World) : Prop :=
  is_Some (sheets w !! spreadsheetId) -> is_Some (sheets w' !! spreadsheetId).

Definition is_mark (e : event) : bool :=
  match e with DbMarkSynced _ => true | _ => false end.

(** What [handleSync] may do to the store, for the campaign and the ids
    of the run: entries are neither created nor removed, an entry changes
    at most by getting its flag set, and only if its id is listed; a
    campaign record changes at most by being put with a spreadsheet id,
    and only the one of the run. *)
Definition sync_frame (localCampaign : Campaign) (ids : list string)
    (d d' : DB) : Prop :=
  keyed d ->
  keyed d'
  /\ (forall k, entries d' !! k = None <-> entries d !! k = None)
  /\ (forall k e e',
        entries d !! k = Some e -> entries d' !! k = Some e' ->
        e' = e \/ (e' = set_synced e /\ k ∈ ids))
  /\ (forall k, k <> campaign_id localCampaign ->
        campaigns d' !! k = campaigns d !! k)
  /\ (campaigns d' !! campaign_id localCampaign
        = campaigns d !! campaign_id localCampaign
      \/ exists sid,
           App.given (spreadsheetId localCampaign) = None
           /\ campaigns d' !! campaign_id localCampaign
              = Some (with_spreadsheetId localCampaign sid)).

(** What the prefix of a sync run leaves alone: the stored entries, the
    entries shown, the campaign shown. *)
Definition shown (w : World) : gmap string Entry * list Entry * Campaign :=
  (entries (store w), state_entries (ui w), props_campaign (ui w)).

Definition is_sink_call (e : event) : bool := is_append e || is_mark e.

(** The spreadsheet a run of [handleSync] writes to: the one the
    component's campaign names, or else the one the run creates, whose
    id the service gives in answer to the third call of the run. *)
Definition sinkOf (localCampaign : Campaign) (o : Oracle) (w : World) : string :=
  match App.given (spreadsheetId localCampaign) with
  | Some spreadsheetId => spreadsheetId
  | None => newSheetId o (S (S (length (log w))))
  end.

(** The part of [handleSync] before the append, named for the proofs
    ([syncBody_split] shows that the body is this part followed by the
    append and the marking). *)
Definition untilAppend (authConfig : App.GoogleAuthConfig)
    (localCampaign : Campaign) : IO string :=
  GoogleService.initGoogleClient (App.clientId authConfig) (App.apiKey authConfig);;
  GoogleService.signInAndGetToken;;
  run* spreadsheetId := ensureSink localCampaign in
  GoogleService.ensureSheetStructure spreadsheetId localCampaign;;
  ret spreadsheetId.

(** A run of [handleSync] for a campaign without spreadsheet id gets as
    far as saving the campaign: the client, the token and the creation
    are answered and the save does not fault. *)
Definition reaches_save (o : Oracle) (w : World) : Prop :=
  let n := length (log w) in
  replies o n = Answers
  /\ replies o (S n) = Answers
  /\ replies o (S (S n)) = Answers
  /\ forall k, plans o (S (S (S n))) k = false.

(** A required field whose form value is falsy. *)
Definition falsy_required (formData : gmap string value) (f : FieldDefinition)
  : Prop :=
  field_required f = true /\ truthy (prop formData (field_id f)) = false.

(** A location field of id [k], other than [__proto__], whose form
    value is falsy: the fields [captureLocation] fills. *)
Definition refilled (fields : list FieldDefinition)
    (formData : gmap string value) (k : string) : bool :=
  existsb (fun f => CampaignView.is_location f && String.eqb (field_id f) k
                    && negb (truthy (prop formData k)))
          fields
  && negb (String.eqb k "__proto__").

(** The positions read one after the other by [addToPolygon], each added
    to what the one before left (the component is rendered again between
    two presses of the button); [None] once one of them threw. *)
Definition addPoints (fieldId : string) (positions : list (float * float))
    (v : View) : option View :=
  fold_left
    (fun ov position =>
       v ← ov; CampaignView.addToPolygon fieldId (fst position) (snd position) v)
    positions (Some v).

(** Every character of a string is white space. *)
Definition allWhite (s : string) : bool :=
  forallb JSString.isWhiteSpace (list_ascii_of_string s).

(** * Properties *)

(** ** Sorting *)

Lemma insertSorted_Permutation {A} (precedes : A -> A -> bool) x l :
  Permutation (insertSorted precedes x l) (x :: l).
Proof.
  induction l as [|y l IH]; simpl; [done|].
  destruct (precedes x y); [done|]. rewrite IH. apply perm_swap.
Qed.

Lemma stableSort_Permutation {A} (precedes : A -> A -> bool) l :
  Permutation (stableSort precedes l) l.
Proof.
  unfold stableSort. induction l as [|x l IH]; simpl; [done|].
  by rewrite insertSorted_Permutation, IH.
Qed.

Lemma insertSorted_Sorted {A} (precedes : A -> A -> bool) x l :
  (forall a b, precedes a b = false -> precedes b a = true) ->
  Sorted (fun a b => precedes a b = true) l ->
  Sorted (fun a b => precedes a b = true) (insertSorted precedes x l).
Proof.
  intros Htotal. induction 1 as [|y l Hl IH Hhd]; simpl.
  - repeat constructor.
  - destruct (precedes x y) eqn:Hxy.
    + constructor; [by constructor | by constructor].
    + constructor; [done|]. destruct Hhd as [|z l Hyz]; simpl.
      * constructor. by apply Htotal.
      * destruct (precedes x z); constructor; [by apply Htotal | done].
Qed.

Lemma stableSort_Sorted {A} (precedes : A -> A -> bool) l :
  (forall a b, precedes a b = false -> precedes b a = true) ->
  Sorted (fun a b => precedes a b = true) (stableSort precedes l).
Proof.
  intros Htotal. unfold stableSort. induction l as [|x l IH]; simpl.
  - constructor.
  - by apply insertSorted_Sorted.
Qed.

(** The sort keeps the order of the elements that compare as equal: a
    list that is sorted already is left as it is. *)
Lemma stableSort_sorted_id {A} (precedes : A -> A -> bool) l :
  (forall a b c, precedes a b = true -> precedes b c = true ->
                 precedes a c = true) ->
  Sorted (fun a b => precedes a b = true) l -> stableSort precedes l = l.
Proof.
  intros Htrans Hs.
  apply Sorted_StronglySorted in Hs; [|by intros a b c; apply Htrans].
  unfold stableSort. induction Hs as [|x l Hl IH Hx]; simpl; [done|].
  rewrite IH. destruct l as [|y l]; simpl; [done|].
  apply Forall_cons in Hx as [-> _]. done.
Qed.

Lemma sort_newer_first_Permutation l : db.sort_newer_first l ≡ₚ l.
Proof. apply stableSort_Permutation. Qed.

Lemma Sorted_weaken {A} (R R' : A -> A -> Prop) l :
  (forall a b, R a b -> R' a b) -> Sorted R l -> Sorted R' l.
Proof.
  intros HR. induction 1 as [|x l Hl IH Hx]; constructor; [done|].
  destruct Hx; constructor. by apply HR.
Qed.

Lemma Sorted_sort_newer_first l : Sorted db.newer_first (db.sort_newer_first l).
Proof.
  unfold db.sort_newer_first.
  eapply Sorted_weaken; [|apply stableSort_Sorted].
  - intros a b Hab. by apply bool_decide_eq_true in Hab.
  - intros a b Hab. apply bool_decide_eq_false in Hab.
    apply bool_decide_eq_true. unfold db.newer_first in *. lia.
Qed.

(** ** The platform functions on known values *)

Example iso_epoch : toISOString 0 = Some "1970-01-01T00:00:00.000Z".
Proof. reflexivity. Qed.

Example iso_2023 : toISOString 1700000000000 = Some "2023-11-14T22:13:20.000Z".
Proof. reflexivity. Qed.

Example iso_before_epoch : toISOString (-1) = Some "1969-12-31T23:59:59.999Z".
Proof. reflexivity. Qed.

Example iso_leap_day : toISOString 951782400000 = Some "2000-02-29T00:00:00.000Z".
Proof. reflexivity. Qed.

Example iso_latest : toISOString 8640000000000000 = Some "+275760-09-13T00:00:00.000Z".
Proof. reflexivity. Qed.

Example iso_earliest :
  toISOString (-8640000000000000) = Some "-271821-04-20T00:00:00.000Z".
Proof. reflexivity. Qed.

Example iso_invalid : toISOString 8640000000000001 = None.
Proof. reflexivity. Qed.

Example zero_is_falsy : truthy (VNumber 0%float) = false.
Proof. reflexivity. Qed.

Example nan_is_falsy : truthy (VNumber nan) = false.
Proof. reflexivity. Qed.

Example half_is_truthy : truthy (VNumber 0.5%float) = true.
Proof. reflexivity. Qed.

Lemma toISOString_valid t : validTime t = true -> is_Some (toISOString t).
Proof.
  intros Hv. unfold toISOString. rewrite Hv.
  destruct (civil (t / 86400000)) as [[y m] d]. eauto.
Qed.

Lemma toISOString_Some t s : toISOString t = Some s -> validTime t = true.
Proof. unfold toISOString. destruct (validTime t); [done | discriminate]. Qed.

(** ** Row serializer *)

Section Serializer.
Context `{NumberFormat}.
Import GoogleService.

Lemma baseData_length entry base : baseData entry = Some base -> length base = 5%nat.
Proof.
  unfold baseData. destruct (toISOString (createdAt entry)); simpl; [|discriminate].
  intros [= <-]. reflexivity.
Qed.

Lemma baseData_is_Some entry :
  validTime (createdAt entry) = true -> is_Some (baseData entry).
Proof.
  intros Hv. destruct (toISOString_valid _ Hv) as [iso Hiso].
  unfold baseData. rewrite Hiso. simpl. eauto.
Qed.

Lemma entryRow_length campaign entry r :
  entryRow campaign entry = Some r ->
  length r = (5 + length (fields campaign))%nat.
Proof.
  unfold entryRow. destruct (baseData entry) as [base|] eqn:Hb; simpl; [|discriminate].
  intros [= <-]. rewrite List.length_app, List.length_map.
  by rewrite (baseData_length _ _ Hb).
Qed.

(** The cell of the [i]-th field is the sixth cell onwards. *)
Lemma entryRow_field campaign entry r (i : nat) field :
  entryRow campaign entry = Some r ->
  fields campaign !! i = Some field ->
  r !! (5 + i)%nat = Some (fieldCell entry field).
Proof.
  unfold entryRow. destruct (baseData entry) as [base|] eqn:Hb; simpl; [|discriminate].
  intros [= <-] Hf. pose proof (baseData_length _ _ Hb) as Hl.
  rewrite lookup_app_r by lia. rewrite Hl.
  match goal with
  | |- context [(?n - 5)%nat] => replace (n - 5)%nat with i by lia
  end.
  change (List.map (fieldCell entry) (fields campaign))
    with (fieldCell entry <$> fields campaign).
  by rewrite list_lookup_fmap, Hf.
Qed.

Lemma fieldCell_image entry field s :
  field_type field = image ->
  data entry !! field_id field = Some (VString s) ->
  fieldCell entry field = VString (if strlen s <=? 40000 then s else placeholder).
Proof.
  intros Ht Hd. unfold fieldCell, prop. rewrite Hd, Ht. simpl.
  rewrite Z.ltb_antisym. by destruct (strlen s <=? 40000).
Qed.

Lemma entryRow_is_Some campaign entry :
  validTime (createdAt entry) = true -> is_Some (entryRow campaign entry).
Proof.
  intros Hv. destruct (baseData_is_Some _ Hv) as [base Hb].
  unfold entryRow. rewrite Hb. simpl. eauto.
Qed.

Lemma entryRows_is_Some campaign entries :
  Forall (fun e => validTime (createdAt e) = true) entries ->
  is_Some (entryRows campaign entries).
Proof.
  intros Hall. unfold entryRows. apply mapM_is_Some.
  eapply Forall_impl; [exact Hall|]. intros e He. by apply entryRow_is_Some.
Qed.

End Serializer.

(** ** The log only grows *)

Lemma remote_log {A} e (act : Oracle -> World -> option (A * gmap string (list (list value)))) o w :
  log (snd (remote e act o w)) = (log w ++ [e])%list.
Proof.
  unfold remote. destruct (replies o (length (log w)));
    [destruct (act o w) as [[a s]|]|..]; reflexivity.
Qed.

Lemma dbcall_log {A} e (op : plan -> DB -> TxRun A) o w :
  log (snd (dbcall e op o w)) = (log w ++ [e])%list.
Proof.
  unfold dbcall. destruct (settled _); reflexivity.
Qed.

Section SerializerClaims.
Context `{NumberFormat}.
Import GoogleService.

(** What [syncEntries] adds to the log: nothing for no entries or when
    a row cannot be computed, else one append of all the rows. *)
Lemma syncEntries_emitted spreadsheetId campaign entries o w :
  emitted (syncEntries spreadsheetId campaign entries) o w =
    match entries, entryRows campaign entries with
    | _ :: _, Some rows => [ValuesAppend spreadsheetId rows]
    | _, _ => []
    end.
Proof.
  unfold emitted, syncEntries.
  destruct entries as [|e es]; cbn [length Nat.eqb].
  - apply skipn_all.
  - destruct (entryRows campaign (e :: es)) as [rows|].
    + unfold values_append. by rewrite remote_log, drop_app_length.
    + apply skipn_all.
Qed.

(** C6: an image-typed field whose value is a string is emitted verbatim
    when its length is at most 40,000 and replaced by the fixed
    placeholder when its length is greater. *)
Theorem image_size_guard (campaign : Campaign) (entry : Entry) (i : nat)
    (field : FieldDefinition) (s : string) (r : list value) :
  fields campaign !! i = Some field ->
  field_type field = image ->
  data entry !! field_id field = Some (VString s) ->
  entryRow campaign entry = Some r ->
  fieldCell entry field = VString (if strlen s <=? 40000 then s else placeholder)
  /\ r !! (5 + i)%nat = Some (fieldCell entry field).
Proof.
  intros Hf Ht Hd Hr. split; [by apply fieldCell_image | by eapply entryRow_field].
Qed.

(** The ids that [crypto.randomUUID()] gives, of 36 characters, name no
    member of [Object.prototype]. *)
Lemma inherited_uuid k : String.length k = 36%nat -> inherited k = VUndefined.
Proof.
  intros Hlen. unfold inherited. cbn [existsb].
  repeat match goal with
         | |- context [String.eqb k ?s] =>
             destruct (String.eqb_spec k s) as [->|_]; [discriminate Hlen|]
         end.
  reflexivity.
Qed.

(** C7: the header is the five fixed columns followed by the field
    names in field order; when the rows of an entry set are computed,
    there is one row per entry, each of [5 + fields.length] cells, and
    every call of [syncEntries] on that campaign and entry set sends
    these same rows; the rows are computed whenever the creation times
    are valid time values. The cell of a field is empty when the value
    read under the field id is [undefined] or [null]: when the entry
    holds [null] or [undefined] there, and when it holds nothing there
    and the id names no member of [Object.prototype], as is the case of
    the ids of 36 characters that the editor gives its fields. *)
Theorem serializer_shape (campaign : Campaign) (entries : list Entry) :
  getHeaders (fields campaign)
    = (["ID"; "Created At"; "Latitude"; "Longitude"; "Accuracy"]
         ++ List.map field_name (fields campaign))%list
  /\ length (getHeaders (fields campaign)) = (5 + length (fields campaign))%nat
  /\ (forall rows,
        entryRows campaign entries = Some rows ->
        Forall2
          (fun entry (r : list value) =>
             length r = (5 + length (fields campaign))%nat
             /\ forall (i : nat) field,
                  fields campaign !! i = Some field ->
                  (nullish (prop (data entry) (field_id field)) = true ->
                   r !! (5 + i)%nat = Some (VString ""))
                  /\ (data entry !! field_id field = Some VNull
                      \/ data entry !! field_id field = Some VUndefined ->
                      r !! (5 + i)%nat = Some (VString ""))
                  /\ (data entry !! field_id field = None ->
                      inherited (field_id field) = VUndefined ->
                      r !! (5 + i)%nat = Some (VString ""))
                  /\ (data entry !! field_id field = None ->
                      String.length (field_id field) = 36%nat ->
                      r !! (5 + i)%nat = Some (VString "")))
          entries rows
        /\ forall spreadsheetId o w,
             emitted (syncEntries spreadsheetId campaign entries) o w
               = match entries with
                 | [] => []
                 | _ :: _ => [ValuesAppend spreadsheetId rows]
                 end)
  /\ (Forall (fun e => validTime (createdAt e) = true) entries ->
      is_Some (entryRows campaign entries)).
Proof.
  split; [reflexivity|]. split.
  { unfold getHeaders. rewrite List.length_app, List.length_map. reflexivity. }
  split; [|apply entryRows_is_Some].
  intros rows Hrows. split.
  - unfold entryRows in Hrows. apply mapM_Some in Hrows.
    eapply Forall2_impl; [exact Hrows|]. intros entry r Hr. simpl in Hr. split.
    + by eapply entryRow_length.
    + intros i field Hf. rewrite (entryRow_field _ _ _ _ _ Hr Hf).
      unfold fieldCell, prop.
      split; [by intros ->|]. split; [by intros [-> | ->]|].
      split; [by intros -> ->|].
      intros -> Hlen. by rewrite (inherited_uuid _ Hlen).
  - intros sid o w. rewrite syncEntries_emitted.
    destruct entries; [done|]. by rewrite Hrows.
Qed.

End SerializerClaims.

(** ** Transactions *)

Lemma set_synced_idem e : set_synced (set_synced e) = set_synced e.
Proof. reflexivity. Qed.

Lemma markAll_lookup entryIds : forall m k,
  keyed_entries m ->
  markAll entryIds m !! k
    = if decide (k ∈ entryIds) then set_synced <$> m !! k else m !! k.
Proof.
  induction entryIds as [|k0 rest IH]; intros m k Hm; cbn [markAll].
  - case_decide as Hin; [by apply elem_of_nil in Hin | done].
  - destruct (m !! k0) as [e|] eqn:Hk0.
    + assert (id e = k0) as -> by (by apply Hm).
      rewrite IH.
      2:{ intros k' e' Hl. destruct (decide (k0 = k')) as [->|Hne].
          - rewrite lookup_insert_eq in Hl. injection Hl as <-.
            exact (Hm _ _ Hk0).
          - rewrite lookup_insert_ne in Hl by done. by apply Hm. }
      destruct (decide (k0 = k)) as [->|Hne].
      * rewrite lookup_insert_eq, Hk0.
        rewrite (decide_True (P := k ∈ k :: rest)) by apply list_elem_of_here.
        by destruct (decide (k ∈ rest)).
      * rewrite lookup_insert_ne by done.
        case_decide as Hin; case_decide as Hin'; try done.
        -- exfalso. apply Hin'. by apply list_elem_of_further.
        -- apply elem_of_cons in Hin' as [->|?]; done.
    + rewrite IH by done.
      destruct (decide (k0 = k)) as [->|Hne].
      * rewrite Hk0. by repeat case_decide.
      * case_decide as Hin; case_decide as Hin'; try done.
        -- exfalso. apply Hin'. by apply list_elem_of_further.
        -- apply elem_of_cons in Hin' as [->|?]; done.
Qed.

Lemma isolated_step c w n v :
  Forall (fun v => v = c) v -> isolated c (mkTx w n (v ++ [c])).
Proof. intros Hv. apply Forall_app. split; [done | by repeat constructor]. Qed.

Lemma request_isolated {A} h (f : DB -> A * DB) p c st :
  isolated c st -> isolated c (snd (request h f p c st)).
Proof.
  intros Hst. unfold request. destruct (p (issued st)); [|destruct (f (work st))];
    by apply isolated_step.
Qed.

(** A request that is not faulted acts on the working copy. *)
Lemma request_ok {A} h (f : DB -> A * DB) p c st :
  p (issued st) = false ->
  request h f p c st
    = (inl (fst (f (work st))),
       mkTx (snd (f (work st))) (S (issued st)) (views st ++ [c])).
Proof. intros Hp. unfold request. rewrite Hp. by destruct (f (work st)). Qed.

Lemma request_inl {A} h (f : DB -> A * DB) p c st a st' :
  request h f p c st = (inl a, st') ->
  a = fst (f (work st)) /\ work st' = snd (f (work st)).
Proof.
  unfold request. destruct (p (issued st)); [discriminate|].
  destruct (f (work st)). by intros [= <- <-].
Qed.

Section MarkLoop.
Import db.

Lemma markLoop_isolated entryIds p c : forall st,
  isolated c st -> isolated c (snd (markLoop entryIds p c st)).
Proof.
  induction entryIds as [|k rest IH]; intros st Hst; simpl; [done|].
  unfold tx_bind at 1.
  pose proof (request_isolated Rejects (get_entry k) p c st Hst) as H1.
  destruct (request Rejects (get_entry k) p c st) as [[entry|f] st1]; [|done].
  unfold tx_bind at 1. destruct entry as [e|].
  - pose proof (request_isolated Hangs (put_entry (set_synced e)) p c st1 H1) as H2.
    destruct (request Hangs (put_entry (set_synced e)) p c st1) as [[[]|f] st2];
      [by apply IH | done].
  - simpl. by apply IH.
Qed.

(** When the loop gets through, the working copy is the fully marked
    store. *)
Lemma markLoop_inl entryIds p c : forall st u st',
  markLoop entryIds p c st = (inl u, st') ->
  work st' = mkDB (campaigns (work st)) (markAll entryIds (entries (work st))).
Proof.
  induction entryIds as [|k rest IH]; intros st u st'; simpl.
  - intros [= <- <-]. by destruct (work st).
  - unfold tx_bind at 1.
    destruct (request Rejects (get_entry k) p c st) as [[entry|f] st1] eqn:Hget;
      [|discriminate].
    apply request_inl in Hget as [-> Hw1]. simpl in Hw1.
    unfold tx_bind at 1. simpl. destruct (entries (work st) !! k) as [e|].
    + destruct (request Hangs (put_entry (set_synced e)) p c st1)
        as [[[]|f] st2] eqn:Hput; [|discriminate].
      apply request_inl in Hput as [_ Hw2]. intros Hrest.
      rewrite (IH _ _ _ Hrest), Hw2, Hw1. reflexivity.
    + simpl. intros Hrest. rewrite (IH _ _ _ Hrest), Hw1. reflexivity.
Qed.

(** Without fault the loop gets through. *)
Lemma markLoop_no_fault entryIds p c : forall st,
  (forall n, p n = false) ->
  exists st', markLoop entryIds p c st = (inl tt, st').
Proof.
  induction entryIds as [|k rest IH]; intros st Hp; simpl; [by eexists|].
  unfold tx_bind at 1. rewrite request_ok by done. simpl.
  unfold tx_bind at 1. destruct (entries (work st) !! k) as [e|].
  - rewrite request_ok by done. simpl. by apply IH.
  - simpl. by apply IH.
Qed.

(** The three ways [markSynced] ends. *)
Lemma markSynced_cases entryIds p d :
  (settled (markSynced entryIds p d) = Resolved tt
   /\ after (markSynced entryIds p d)
        = mkDB (campaigns d) (markAll entryIds (entries d)))
  \/ (settled (markSynced entryIds p d) <> Resolved tt
      /\ after (markSynced entryIds p d) = d).
Proof.
  unfold markSynced, on_complete.
  destruct (markLoop entryIds p d (mkTx d 0 [])) as [[[]|[]] st] eqn:Hrun.
  - apply markLoop_inl in Hrun. simpl in Hrun.
    destruct (p (issued st)); simpl; [by right | left; by rewrite Hrun].
  - by right.
  - by right.
Qed.

Lemma markSynced_no_fault entryIds p d :
  (forall n, p n = false) ->
  settled (markSynced entryIds p d) = Resolved tt
  /\ after (markSynced entryIds p d)
       = mkDB (campaigns d) (markAll entryIds (entries d)).
Proof.
  intros Hp. unfold markSynced, on_complete.
  destruct (markLoop_no_fault entryIds p d (mkTx d 0 []) Hp) as [st Hrun].
  rewrite Hrun, Hp. apply markLoop_inl in Hrun. by rewrite Hrun.
Qed.

Lemma markSynced_observed entryIds p d :
  Forall (fun v => v = d) (observed (markSynced entryIds p d)).
Proof.
  unfold markSynced, on_complete.
  pose proof (markLoop_isolated entryIds p d (mkTx d 0 [])) as Hiso.
  destruct (markLoop entryIds p d (mkTx d 0 [])) as [[[]|[]] st];
    [destruct (p (issued st))|..]; simpl; apply Hiso; constructor.
Qed.

End MarkLoop.

Lemma markAll_keyed entryIds m :
  keyed_entries m -> keyed_entries (markAll entryIds m).
Proof.
  intros Hm k e. rewrite markAll_lookup by done.
  case_decide; [|by apply Hm].
  destruct (m !! k) as [e0|] eqn:Hk; simpl; [|discriminate].
  intros [= <-]. exact (Hm _ _ Hk).
Qed.

Lemma markAll_idem entryIds m :
  keyed_entries m -> markAll entryIds (markAll entryIds m) = markAll entryIds m.
Proof.
  intros Hm. apply map_eq. intros k.
  rewrite (markAll_lookup entryIds (markAll entryIds m)) by by apply markAll_keyed.
  rewrite markAll_lookup by done.
  case_decide; [|done]. by destruct (m !! k).
Qed.

(** ** Cascading delete *)

Lemma deleteAll_lookup keys : forall (m : gmap string Entry) k,
  deleteAll keys m !! k = if decide (k ∈ keys) then None else m !! k.
Proof.
  induction keys as [|k0 rest IH]; intros m k; cbn [deleteAll fold_left].
  - case_decide as Hin; [by apply elem_of_nil in Hin | done].
  - change (fold_left (fun m k => delete k m) rest (delete k0 m))
      with (deleteAll rest (delete k0 m)).
    rewrite IH. destruct (decide (k0 = k)) as [->|Hne].
    + rewrite lookup_delete_eq.
      rewrite (decide_True (P := k ∈ k :: rest)) by apply list_elem_of_here.
      by destruct (decide (k ∈ rest)).
    + rewrite lookup_delete_ne by done.
      case_decide as Hin; case_decide as Hin'; try done.
      * exfalso. apply Hin'. by apply list_elem_of_further.
      * apply elem_of_cons in Hin' as [->|?]; done.
Qed.

Lemma elem_of_records {V} (m : gmap string V) k v :
  (k, v) ∈ records m <-> m !! k = Some v.
Proof.
  unfold records. rewrite merge_sort_Permutation. apply elem_of_map_to_list.
Qed.

Lemma elem_of_index cid (m : gmap string Entry) k e :
  (k, e) ∈ index_campaignId cid m <-> m !! k = Some e /\ campaignId e = cid.
Proof.
  unfold index_campaignId. rewrite list_elem_of_In, List.filter_In.
  rewrite <- list_elem_of_In, elem_of_records. simpl.
  rewrite String.eqb_eq. tauto.
Qed.

Lemma elem_of_index_keys cid (m : gmap string Entry) k :
  k ∈ List.map fst (index_campaignId cid m)
  <-> exists e, m !! k = Some e /\ campaignId e = cid.
Proof.
  rewrite list_elem_of_In, List.in_map_iff. split.
  - intros [[k' e] [<- Hin]]. exists e.
    by apply elem_of_index, list_elem_of_In.
  - intros [e He]. exists (k, e). split; [done|].
    by apply list_elem_of_In, elem_of_index.
Qed.

Lemma index_empty cid (m : gmap string Entry) :
  (forall k e, m !! k = Some e -> campaignId e <> cid) ->
  index_campaignId cid m = [].
Proof.
  intros Hno. destruct (index_campaignId cid m) as [|[k e] l] eqn:Hidx; [done|].
  assert ((k, e) ∈ index_campaignId cid m) as Hin
    by (rewrite Hidx; apply list_elem_of_here).
  apply elem_of_index in Hin as [Hl Hc]. by destruct (Hno _ _ Hl).
Qed.

Lemma cascade_entries id d k :
  entries (cascade id d) !! k
    = match entries d !! k with
      | Some e => if String.eqb (campaignId e) id then None else Some e
      | None => None
      end.
Proof.
  unfold cascade. simpl. rewrite deleteAll_lookup.
  case_decide as Hin.
  - apply elem_of_index_keys in Hin as [e [-> <-]]. by rewrite String.eqb_refl.
  - destruct (entries d !! k) as [e|] eqn:Hk; [|done].
    destruct (String.eqb_spec (campaignId e) id) as [Heq|]; [|done].
    exfalso. apply Hin, elem_of_index_keys. eauto.
Qed.

Section Cascade.
Import db.

Local Abbreviation deleteEach keys :=
  (forEach keys (fun key => request Rejects (delete_entry key))).

Lemma deleteEach_isolated keys p c : forall st,
  isolated c st -> isolated c (snd (deleteEach keys p c st)).
Proof.
  induction keys as [|k rest IH]; intros st Hst; cbn [forEach]; [done|].
  unfold tx_bind at 1.
  pose proof (request_isolated Rejects (delete_entry k) p c st Hst) as H1.
  destruct (request Rejects (delete_entry k) p c st) as [[[]|f] st1];
    [by apply IH | done].
Qed.

Lemma deleteEach_inl keys p c : forall st u st',
  deleteEach keys p c st = (inl u, st') ->
  work st' = mkDB (campaigns (work st)) (deleteAll keys (entries (work st))).
Proof.
  induction keys as [|k rest IH]; intros st u st'; cbn [forEach].
  - intros [= <- <-]. by destruct (work st).
  - unfold tx_bind at 1.
    destruct (request Rejects (delete_entry k) p c st) as [[[]|f] st1] eqn:Hreq;
      [|discriminate].
    apply request_inl in Hreq as [_ Hw1]. intros Hrest.
    apply IH in Hrest. rewrite Hrest, Hw1. reflexivity.
Qed.

Lemma deleteEach_no_fault keys p c : forall st,
  (forall n, p n = false) -> exists st', deleteEach keys p c st = (inl tt, st').
Proof.
  induction keys as [|k rest IH]; intros st Hp; cbn [forEach]; [by eexists|].
  unfold tx_bind at 1. rewrite request_ok by done. by apply IH.
Qed.

Lemma deleteCampaign_cases id p d :
  (settled (deleteCampaign id p d) = Resolved tt
   /\ after (deleteCampaign id p d) = cascade id d)
  \/ (settled (deleteCampaign id p d) <> Resolved tt
      /\ after (deleteCampaign id p d) = d).
Proof.
  unfold deleteCampaign, on_complete, tx_bind.
  destruct (request Rejects (delete_campaign id) p d (mkTx d 0 []))
    as [[[]|f] st1] eqn:H1; [|destruct f; by right].
  apply request_inl in H1 as [_ Hw1]. simpl in Hw1.
  destruct (request Rejects (index_getAllKeys id) p d st1)
    as [[keys|f] st2] eqn:H2; [|destruct f; by right].
  apply request_inl in H2 as [-> Hw2]. simpl in Hw2.
  destruct (deleteEach _ p d st2) as [[[]|f] st3] eqn:H3; [|destruct f; by right].
  apply deleteEach_inl in H3.
  destruct (p (issued st3)); [by right|]. left. split; [done|]. simpl.
  rewrite H3, Hw2, Hw1. reflexivity.
Qed.

Lemma deleteCampaign_no_fault id p d :
  (forall n, p n = false) -> settled (deleteCampaign id p d) = Resolved tt.
Proof.
  intros Hp. unfold deleteCampaign, on_complete, tx_bind.
  rewrite request_ok by done. rewrite request_ok by done. cbn [fst snd].
  match goal with
  | |- context [deleteEach ?ks p d ?st] =>
      destruct (deleteEach_no_fault ks p d st Hp) as [st3 ->]
  end.
  by rewrite Hp.
Qed.

Lemma deleteCampaign_observed id p d :
  Forall (fun v => v = d) (observed (deleteCampaign id p d)).
Proof.
  unfold deleteCampaign, on_complete, tx_bind.
  assert (isolated d (mkTx d 0 [])) as H0 by constructor.
  pose proof (request_isolated Rejects (delete_campaign id) p d _ H0) as H1.
  destruct (request Rejects (delete_campaign id) p d (mkTx d 0 []))
    as [[[]|f] st1]; [|destruct f; exact H1].
  cbn [snd] in H1.
  pose proof (request_isolated Rejects (index_getAllKeys id) p d st1 H1) as H2.
  destruct (request Rejects (index_getAllKeys id) p d st1)
    as [[keys|f] st2]; [|destruct f; exact H2].
  cbn [snd] in H2.
  pose proof (deleteEach_isolated keys p d st2 H2) as H3.
  destruct (deleteEach keys p d st2) as [[[]|f] st3]; [|destruct f; exact H3].
  destruct (p (issued st3)); exact H3.
Qed.

(** *** Reads *)

Lemma getCampaign_settled id q d :
  settled (getCampaign id q d)
    = if q 0%nat then Rejected else Resolved (campaigns d !! id).
Proof. unfold getCampaign, on_request, request. simpl. by destruct (q 0%nat). Qed.

Lemma getCampaigns_settled q d :
  settled (getCampaigns q d)
    = if q 0%nat then Rejected
      else Resolved (List.map snd (records (campaigns d))).
Proof. unfold getCampaigns, on_request, request. simpl. by destruct (q 0%nat). Qed.

Lemma getEntries_settled cid q d :
  settled (getEntries cid q d)
    = if q 0%nat then Rejected
      else Resolved (sort_newer_first
                       (List.map snd (index_campaignId cid (entries d)))).
Proof.
  unfold getEntries, on_request, tx_bind, request. simpl. by destruct (q 0%nat).
Qed.

Lemma getEntries_after cid q d : after (getEntries cid q d) = d.
Proof.
  unfold getEntries, on_request, tx_bind, request. simpl.
  destruct (q 0%nat); simpl; [done|]. by destruct (q 1%nat).
Qed.

Lemma getUnsyncedEntries_settled cid q d :
  settled (getUnsyncedEntries cid q d)
    = if q 0%nat then Rejected
      else Resolved (List.filter (fun e => negb (synced e))
                       (sort_newer_first
                          (List.map snd (index_campaignId cid (entries d))))).
Proof.
  unfold getUnsyncedEntries, map_promise. simpl. rewrite getEntries_settled.
  by destruct (q 0%nat).
Qed.

End Cascade.

Lemma sample_keyed : keyed Sample.database.
Proof. apply (bool_decide_unpack _). vm_compute. reflexivity. Qed.

Section StoreClaims.
Import db.

(** C1: [deleteCampaign] is all or nothing. While it runs, readers
    outside the transaction read the prior database. When it resolves,
    the campaign and every entry of the campaign are gone, every read
    that answers shows neither, and the other records are as before.
    When it does not resolve (a request or the commit failed), the
    database is the prior one. Without fault it resolves. *)
Theorem deleteCampaign_atomic (id : string) (p : plan) (d : DB) :
  keyed d ->
  Forall (fun v => v = d) (observed (deleteCampaign id p d))
  /\ ((forall n, p n = false) -> settled (deleteCampaign id p d) = Resolved tt)
  /\ ((settled (deleteCampaign id p d) <> Resolved tt
       /\ after (deleteCampaign id p d) = d)
      \/ (settled (deleteCampaign id p d) = Resolved tt
          /\ campaigns (after (deleteCampaign id p d)) !! id = None
          /\ (forall k e, entries (after (deleteCampaign id p d)) !! k = Some e ->
                          campaignId e <> id)
          /\ (forall q, settled (getCampaign id q (after (deleteCampaign id p d)))
                        = if q 0%nat then Rejected else Resolved None)
          /\ (forall q l c,
                settled (getCampaigns q (after (deleteCampaign id p d))) = Resolved l ->
                c ∈ l -> campaign_id c <> id)
          /\ (forall q, settled (getEntries id q (after (deleteCampaign id p d)))
                        = if q 0%nat then Rejected else Resolved [])
          /\ (forall q, settled (getUnsyncedEntries id q (after (deleteCampaign id p d)))
                        = if q 0%nat then Rejected else Resolved [])
          /\ (forall k, k <> id ->
                campaigns (after (deleteCampaign id p d)) !! k = campaigns d !! k)
          /\ (forall k e, entries d !! k = Some e -> campaignId e <> id ->
                entries (after (deleteCampaign id p d)) !! k = Some e))).
Proof.
  intros [Hkc Hke]. split; [apply deleteCampaign_observed|].
  split; [apply deleteCampaign_no_fault|].
  destruct (deleteCampaign_cases id p d) as [[Hs Ha]|Hfail]; [right | by left].
  rewrite Ha. split; [done|].
  assert (forall k e, entries (cascade id d) !! k = Some e -> campaignId e <> id)
    as Hgone.
  { intros k e. rewrite cascade_entries.
    destruct (entries d !! k) as [e0|]; [|discriminate].
    destruct (String.eqb_spec (campaignId e0) id); [discriminate|].
    by intros [= <-]. }
  split; [apply lookup_delete_eq|]. split; [exact Hgone|].
  split. { intros q. rewrite getCampaign_settled. simpl. by rewrite lookup_delete_eq. }
  split.
  { intros q l c. rewrite getCampaigns_settled.
    destruct (q 0%nat); [discriminate|]. intros [= <-] Hin.
    apply list_elem_of_In, List.in_map_iff in Hin as [[k c'] [Heq Hin]].
    simpl in Heq. subst c'. apply list_elem_of_In, elem_of_records in Hin.
    simpl in Hin. intros Hid.
    destruct (decide (k = id)) as [->|Hne].
    - by rewrite lookup_delete_eq in Hin.
    - rewrite lookup_delete_ne in Hin by done. apply Hkc in Hin. congruence. }
  split.
  { intros q. rewrite getEntries_settled.
    rewrite (index_empty id (entries (cascade id d)) Hgone). by destruct (q 0%nat). }
  split.
  { intros q. rewrite getUnsyncedEntries_settled.
    rewrite (index_empty id (entries (cascade id d)) Hgone). by destruct (q 0%nat). }
  split. { intros k Hne. simpl. by apply lookup_delete_ne. }
  intros k e Hk Hne. rewrite cascade_entries, Hk.
  by destruct (String.eqb_spec (campaignId e) id).
Qed.

(** C4: without fault, [markSynced] resolves, whether or not the ids
    exist; a second call leaves the store as the first left it; every
    listed id that is in the store ends up synced, and an id that is not
    in the store is not created. *)
Theorem markSynced_idempotent (S : list string) (d : DB) :
  keyed d ->
  settled (markSynced S no_fault d) = Resolved tt
  /\ settled (markSynced S no_fault (after (markSynced S no_fault d))) = Resolved tt
  /\ after (markSynced S no_fault (after (markSynced S no_fault d)))
       = after (markSynced S no_fault d)
  /\ (forall k e, k ∈ S -> entries d !! k = Some e ->
        entries (after (markSynced S no_fault d)) !! k = Some (set_synced e))
  /\ (forall k e, k ∈ S ->
        entries (after (markSynced S no_fault d)) !! k = Some e -> synced e = true)
  /\ (forall k, entries d !! k = None ->
        entries (after (markSynced S no_fault d)) !! k = None).
Proof.
  intros [Hkc Hke].
  destruct (markSynced_no_fault S no_fault d) as [Hs1 Ha1]; [done|].
  destruct (markSynced_no_fault S no_fault (after (markSynced S no_fault d)))
    as [Hs2 Ha2]; [done|].
  split; [done|]. split; [done|]. split.
  { rewrite Ha2, Ha1. simpl. by rewrite markAll_idem. }
  rewrite Ha1. simpl. split; [|split].
  - intros k e Hin Hk. rewrite markAll_lookup by done.
    rewrite decide_True by done. by rewrite Hk.
  - intros k e Hin. rewrite markAll_lookup by done.
    rewrite decide_True by done.
    destruct (entries d !! k); simpl; [|discriminate]. by intros [= <-].
  - intros k Hk. rewrite markAll_lookup by done. rewrite Hk. by case_decide.
Qed.

(** C5: [markSynced] is one transaction. While it runs, readers outside
    it read the prior store. Afterwards either it resolved and every
    listed id that was in the store is synced, or it did not resolve (a
    request or the commit failed) and the store is the prior one: no
    flag was flipped. *)
Theorem markSynced_atomic (entryIds : list string) (p : plan) (d : DB) :
  keyed d ->
  Forall (fun v => v = d) (observed (markSynced entryIds p d))
  /\ ((settled (markSynced entryIds p d) = Resolved tt
       /\ forall k e, k ∈ entryIds -> entries d !! k = Some e ->
            entries (after (markSynced entryIds p d)) !! k = Some (set_synced e))
      \/ (settled (markSynced entryIds p d) <> Resolved tt
          /\ after (markSynced entryIds p d) = d)).
Proof.
  intros [Hkc Hke]. split; [apply markSynced_observed|].
  destruct (markSynced_cases entryIds p d) as [[Hs Ha]|Hfail]; [left | by right].
  split; [done|]. intros k e Hin Hk. rewrite Ha. simpl.
  rewrite markAll_lookup by done. rewrite decide_True by done. by rewrite Hk.
Qed.

(** C10: whatever the fault plan, [markSynced] leaves the campaigns and
    every entry whose id is not listed as they were, creates and removes
    no entry, and changes at most the [synced] field of a listed entry,
    to [true]. *)
Theorem markSynced_frame (entryIds : list string) (p : plan) (d : DB) :
  keyed d ->
  campaigns (after (markSynced entryIds p d)) = campaigns d
  /\ (forall k, k ∉ entryIds ->
        entries (after (markSynced entryIds p d)) !! k = entries d !! k)
  /\ (forall k, entries (after (markSynced entryIds p d)) !! k = None
                <-> entries d !! k = None)
  /\ (forall k e e',
        entries d !! k = Some e ->
        entries (after (markSynced entryIds p d)) !! k = Some e' ->
        id e' = id e /\ campaignId e' = campaignId e /\ data e' = data e
        /\ createdAt e' = createdAt e /\ updatedAt e' = updatedAt e
        /\ (e' = e \/ (k ∈ entryIds /\ synced e' = true))).
Proof.
  intros [Hkc Hke].
  destruct (markSynced_cases entryIds p d) as [[_ Ha]|[_ Ha]]; rewrite Ha.
  - simpl. split; [done|]. split; [|split].
    + intros k Hk. rewrite markAll_lookup by done. by rewrite decide_False.
    + intros k. rewrite markAll_lookup by done.
      case_decide; [|done]. by destruct (entries d !! k).
    + intros k e e' Hk. rewrite markAll_lookup by done. rewrite Hk.
      case_decide; simpl; intros [= <-]; repeat split; auto.
  - split; [done|]. split; [done|]. split; [done|].
    intros k e e' Hk Hk'. rewrite Hk in Hk'. injection Hk' as <-.
    repeat split; auto.
Qed.

End StoreClaims.

(** ** Reasoning about handlers *)

Lemma emitted_spec {A} (m : IO A) o w :
  grows m -> log (snd (m o w)) = (log w ++ emitted m o w)%list.
Proof.
  intros Hg. destruct (Hg o w) as [l Hl]. unfold emitted.
  by rewrite Hl, drop_app_length.
Qed.

Lemma emitted_of {A} (m : IO A) o w l :
  log (snd (m o w)) = (log w ++ l)%list -> emitted m o w = l.
Proof. intros Hl. unfold emitted. by rewrite Hl, drop_app_length. Qed.

Lemma grows_ret {A} (a : A) : grows (ret a).
Proof. intros o w. exists []. simpl. by rewrite app_nil_r. Qed.

Lemma grows_throw {A} : grows (@throw A).
Proof. intros o w. exists []. simpl. by rewrite app_nil_r. Qed.

Lemma grows_get_ui : grows get_ui.
Proof. intros o w. exists []. simpl. by rewrite app_nil_r. Qed.

Lemma grows_set_ui f : grows (set_ui f).
Proof. intros o w. exists []. simpl. by rewrite app_nil_r. Qed.

Lemma grows_alert message : grows (alert message).
Proof. intros o w. by exists [Alert message]. Qed.

Lemma grows_remote {A} e
    (act : Oracle -> World -> option (A * gmap string (list (list value)))) :
  grows (remote e act).
Proof. intros o w. exists [e]. apply remote_log. Qed.

Lemma grows_dbcall {A} e (op : plan -> DB -> TxRun A) : grows (dbcall e op).
Proof. intros o w. exists [e]. apply dbcall_log. Qed.

Lemma grows_bind {A B} (m : IO A) (k : A -> IO B) :
  grows m -> (forall a, grows (k a)) -> grows (bind m k).
Proof.
  intros Hm Hk o w. unfold bind. destruct (Hm o w) as [l Hl].
  destruct (m o w) as [[a| |] w1]; simpl in *; [|by exists l..].
  destruct (Hk a o w1) as [l' Hl']. exists (l ++ l')%list.
  by rewrite Hl', Hl, app_assoc.
Qed.

Lemma grows_try_catch {A} (body handler : IO A) :
  grows body -> grows handler -> grows (try_catch body handler).
Proof.
  intros Hb Hh o w. unfold try_catch. destruct (Hb o w) as [l Hl].
  destruct (body o w) as [[a| |] w1]; simpl in *; [by exists l| |by exists l].
  destruct (Hh o w1) as [l' Hl']. exists (l ++ l')%list.
  by rewrite Hl', Hl, app_assoc.
Qed.

Lemma grows_finally {A} (body : IO A) fin :
  (forall w, log (fin w) = log w) -> grows body -> grows (finally body fin).
Proof.
  intros Hf Hb o w. unfold finally. destruct (Hb o w) as [l Hl].
  destruct (body o w) as [[a| |] w1]; simpl in *; exists l; by rewrite ?Hf.
Qed.

Create HintDb io discriminated.
#[local] Hint Resolve grows_ret grows_throw grows_get_ui grows_set_ui grows_alert
  grows_remote grows_dbcall grows_bind grows_try_catch grows_finally : io.

Lemma emitted_ret {A} (a : A) o w : emitted (ret a) o w = [].
Proof. apply emitted_of. simpl. by rewrite app_nil_r. Qed.

Lemma emitted_throw {A} o w : emitted (@throw A) o w = [].
Proof. apply emitted_of. simpl. by rewrite app_nil_r. Qed.

Lemma emitted_set_ui f o w : emitted (set_ui f) o w = [].
Proof. apply emitted_of. simpl. by rewrite app_nil_r. Qed.

Lemma emitted_alert message o w : emitted (alert message) o w = [Alert message].
Proof. by apply emitted_of. Qed.

Lemma emitted_remote {A} e
    (act : Oracle -> World -> option (A * gmap string (list (list value)))) o w :
  emitted (remote e act) o w = [e].
Proof. apply emitted_of, remote_log. Qed.

Lemma emitted_dbcall {A} e (op : plan -> DB -> TxRun A) o w :
  emitted (dbcall e op) o w = [e].
Proof. apply emitted_of, dbcall_log. Qed.

(** What a sequence adds: what its first part adds, then, when that
    returned, what the rest adds. *)
Lemma emitted_bind {A B} (m : IO A) (k : A -> IO B) o w :
  grows m -> (forall a, grows (k a)) ->
  emitted (bind m k) o w
    = (emitted m o w
       ++ match fst (m o w) with
          | Ok a => emitted (k a) o (snd (m o w))
          | _ => []
          end)%list.
Proof.
  intros Hm Hk. apply emitted_of. unfold bind.
  pose proof (emitted_spec m o w Hm) as Hl.
  destruct (m o w) as [[a| |] w1]; simpl in *; rewrite ?app_nil_r; try done.
  by rewrite (emitted_spec (k a) o w1 (Hk a)), Hl, app_assoc.
Qed.

Lemma emitted_bind_cases {A B} (m : IO A) (k : A -> IO B) o w :
  grows m -> (forall a, grows (k a)) ->
  (exists a w1, m o w = (Ok a, w1)
     /\ emitted (bind m k) o w = (emitted m o w ++ emitted (k a) o w1)%list)
  \/ ((forall a, fst (m o w) <> Ok a)
      /\ emitted (bind m k) o w = emitted m o w).
Proof.
  intros Hm Hk. rewrite emitted_bind by done.
  destruct (m o w) as [[a| |] w1]; simpl.
  - left. by exists a, w1.
  - right. by rewrite app_nil_r.
  - right. by rewrite app_nil_r.
Qed.

Lemma bind_assoc {A B C} (m : IO A) (k : A -> IO B) (k' : B -> IO C) o w :
  bind (bind m k) k' o w = bind m (fun a => bind (k a) k') o w.
Proof. unfold bind. by destruct (m o w) as [[a| |] w1]. Qed.

Lemma emitted_ext {A} (m m' : IO A) o w :
  m o w = m' o w -> emitted m o w = emitted m' o w.
Proof. intros Heq. unfold emitted. by rewrite Heq. Qed.

Lemma emitted_try_catch {A} (body handler : IO A) o w :
  grows body -> grows handler ->
  emitted (try_catch body handler) o w
    = (emitted body o w
       ++ match fst (body o w) with
          | Throw => emitted handler o (snd (body o w))
          | _ => []
          end)%list.
Proof.
  intros Hb Hh. apply emitted_of. unfold try_catch.
  pose proof (emitted_spec body o w Hb) as Hl.
  destruct (body o w) as [[a| |] w1]; simpl in *; rewrite ?app_nil_r; try done.
  by rewrite (emitted_spec handler o w1 Hh), Hl, app_assoc.
Qed.

Lemma emitted_finally {A} (body : IO A) fin o w :
  (forall w, log (fin w) = log w) ->
  emitted (finally body fin) o w = emitted body o w.
Proof.
  intros Hf. unfold emitted, finally.
  destruct (body o w) as [[a| |] w1]; simpl; by rewrite ?Hf.
Qed.

(** ** Header *)

Section Header.
Import GoogleService.

Lemma header_missing_first (r : list value) :
  header_missing (Some [firstn 26 r]) = true <-> r = [].
Proof.
  simpl. rewrite Nat.eqb_eq. destruct r; simpl; [done|]. split; discriminate.
Qed.

Lemma values_get_Ok spreadsheetId o w a :
  fst (values_get spreadsheetId o w) = Ok a ->
  exists sh, sheets w !! spreadsheetId = Some sh
             /\ a = match sh with [] => None | r :: _ => Some [firstn 26 r] end.
Proof.
  unfold values_get, remote.
  destruct (replies o (length (log w)));
    [destruct (sheets w !! spreadsheetId)|..]; simpl; intros [=]; eauto.
Qed.

(** With a non-empty first row the step only reads. *)
Lemma ensureSheetStructure_kept spreadsheetId campaign o w h rest :
  sheets w !! spreadsheetId = Some (h :: rest) -> h <> [] ->
  sheets (snd (ensureSheetStructure spreadsheetId campaign o w)) = sheets w
  /\ emitted (ensureSheetStructure spreadsheetId campaign) o w
       = [ValuesGet spreadsheetId].
Proof.
  intros Hs Hh.
  assert (header_missing (Some [firstn 26 h]) = false) as Hmiss.
  { destruct (header_missing (Some [firstn 26 h])) eqn:Hm; [|done].
    by apply header_missing_first in Hm. }
  unfold emitted, ensureSheetStructure, bind, values_get, remote.
  rewrite Hs.
  destruct (replies o (length (log w))); rewrite ?Hmiss;
    cbn [fst snd ret sheets log emit with_sheets];
    by rewrite drop_app_length.
Qed.

Lemma ensureSheetStructure_grows spreadsheetId campaign :
  grows (ensureSheetStructure spreadsheetId campaign).
Proof.
  unfold ensureSheetStructure. apply grows_bind; [apply grows_remote|].
  intros a. destruct (header_missing a); auto with io. apply grows_remote.
Qed.

End Header.

Section HeaderClaims.
Import GoogleService.

(** C9: on a sheet whose first row is not empty, running
    [ensureSheetStructure] any number of times, for any campaigns and
    whatever the collaborator answers, leaves every sheet as it was and
    issues no update; and an update is issued only on a sheet whose
    first row is absent or empty, with the header of the campaign. *)
Theorem header_never_overwritten (spreadsheetId : string)
    (campaigns : list Campaign) (o : Oracle) (w : World)
    (h : list value) (rest : list (list value)) :
  sheets w !! spreadsheetId = Some (h :: rest) -> h <> [] ->
  sheets (ensureEach spreadsheetId campaigns o w) = sheets w
  /\ List.filter is_update (log (ensureEach spreadsheetId campaigns o w))
       = List.filter is_update (log w)
  /\ forall campaign o' w' e,
       e ∈ emitted (ensureSheetStructure spreadsheetId campaign) o' w' ->
       is_update e = true ->
       e = ValuesUpdate spreadsheetId
             [List.map VString (getHeaders (fields campaign))]
       /\ (sheets w' !! spreadsheetId = Some []
           \/ exists rest', sheets w' !! spreadsheetId = Some ([] :: rest')).
Proof.
  intros Hs Hh. split; [|split].
  - revert w Hs. unfold ensureEach.
    induction campaigns as [|c cs IH]; intros w Hs; simpl; [done|].
    destruct (ensureSheetStructure_kept spreadsheetId c o w h rest Hs Hh)
      as [Hkeep _].
    rewrite IH by by rewrite Hkeep. exact Hkeep.
  - revert w Hs. unfold ensureEach.
    induction campaigns as [|c cs IH]; intros w Hs; simpl; [done|].
    destruct (ensureSheetStructure_kept spreadsheetId c o w h rest Hs Hh)
      as [Hkeep Hem].
    rewrite IH by by rewrite Hkeep.
    rewrite (emitted_spec _ o w (ensureSheetStructure_grows spreadsheetId c)).
    rewrite Hem, List.filter_app. simpl. by rewrite app_nil_r.
  - intros campaign o' w' e. unfold ensureSheetStructure.
    rewrite emitted_bind;
      [|apply grows_remote
       |intros a; destruct (header_missing a);
        [apply grows_remote | apply grows_ret]].
    unfold values_get at 1. rewrite emitted_remote.
    destruct (fst (values_get spreadsheetId o' w')) as [a| |] eqn:Hget;
      cbn [app];
      try (intros ->%list_elem_of_singleton; discriminate).
    destruct (header_missing a) eqn:Hmiss.
    + unfold values_update. rewrite emitted_remote. cbn [app].
      intros [->|[->|[]%elem_of_nil]%elem_of_cons]%elem_of_cons; [discriminate|].
      intros _. split; [done|].
      apply values_get_Ok in Hget as [sh [Hsh ->]]. rewrite Hsh.
      destruct sh as [|r rest']; [by left|]. right. exists rest'.
      apply header_missing_first in Hmiss. by subst r.
    + rewrite emitted_ret. cbn [app].
      intros ->%list_elem_of_singleton. discriminate.
Qed.

End HeaderClaims.

(** ** The sync run *)

Ltac io_grows :=
  repeat first
    [ apply grows_ret | apply grows_throw | apply grows_get_ui
    | apply grows_set_ui | apply grows_alert | apply grows_remote
    | apply grows_dbcall | apply grows_bind | apply grows_try_catch
    | (apply grows_finally; [reflexivity|])
    | match goal with
      | |- grows (if ?c then _ else _) => destruct c
      | |- grows (match ?x with _ => _ end) => destruct x
      | |- grows _ => fail 1
      | |- forall _, _ => intro
      end ].

Section SyncRun.
Context `{NumberFormat}.
Import GoogleService App.

Lemma syncEntries_grows spreadsheetId campaign entries :
  grows (syncEntries spreadsheetId campaign entries).
Proof. unfold syncEntries, values_append. io_grows. Qed.

Lemma loadEntries_grows campaign : grows (loadEntries campaign).
Proof. unfold loadEntries. io_grows. Qed.

Lemma emitted_get_ui {A} (k : View -> IO A) o w :
  emitted (bind get_ui k) o w = emitted (k (ui w)) o w.
Proof. reflexivity. Qed.

Lemma emitted_after_set_ui {A} f (k : unit -> IO A) o w :
  emitted (bind (set_ui f) k) o w = emitted (k tt) o (with_ui f w).
Proof. reflexivity. Qed.

(** A first part that makes no relevant call drops out of the trace. *)
Lemma sync_trace_bind {A B} (m : IO A) (k : A -> IO B) o w :
  grows m -> (forall a, grows (k a)) ->
  sync_trace (emitted m o w) = [] ->
  sync_trace (emitted (bind m k) o w)
    = match fst (m o w) with
      | Ok a => sync_trace (emitted (k a) o (snd (m o w)))
      | _ => []
      end.
Proof.
  intros Hm Hk Hq. rewrite emitted_bind by done.
  unfold sync_trace in *. rewrite List.filter_app, Hq.
  by destruct (fst (m o w)).
Qed.

Lemma appendAndMark_grows spreadsheetId campaign localCampaign unsynced :
  grows (appendAndMark spreadsheetId campaign localCampaign unsynced).
Proof.
  unfold appendAndMark. io_grows;
    auto using syncEntries_grows, loadEntries_grows.
Qed.

Lemma loadEntries_emitted campaign o w :
  emitted (loadEntries campaign) o w = [DbGetEntries (campaign_id campaign)].
Proof.
  unfold loadEntries. rewrite emitted_bind by io_grows.
  rewrite emitted_dbcall.
  destruct (fst (dbcall _ _ o w)); rewrite ?emitted_set_ui; reflexivity.
Qed.

Lemma appendAndMark_trace spreadsheetId campaign localCampaign unsynced o w :
  match unsynced with
  | [] =>
      sync_trace (emitted (appendAndMark spreadsheetId campaign localCampaign unsynced) o w)
        = [Alert "Sync successful!"]
  | _ :: _ =>
      sync_trace (emitted (appendAndMark spreadsheetId campaign localCampaign unsynced) o w) = []
      \/ exists rows n,
           entryRows localCampaign unsynced = Some rows
           /\ (1 <= n <= 3)%nat
           /\ sync_trace (emitted (appendAndMark spreadsheetId campaign localCampaign unsynced) o w)
                = firstn n (expected spreadsheetId rows unsynced)
  end.
Proof.
  unfold appendAndMark. destruct unsynced as [|e es]; cbn [length Nat.ltb Nat.leb].
  - rewrite emitted_bind by io_grows.
    rewrite emitted_ret. cbn [ret fst snd app]. by rewrite emitted_alert.
  - set (unsynced := e :: es).
    rewrite (emitted_ext _ _ o w (bind_assoc _ _ _ o w)).
    destruct (emitted_bind_cases (syncEntries spreadsheetId localCampaign unsynced)
                (fun _ => bind (bind (dbcall (DbMarkSynced (List.map id unsynced))
                                        (db.markSynced (List.map id unsynced)))
                                     (fun _ => loadEntries campaign))
                               (fun _ => alert "Sync successful!")) o w)
      as [([] & w1 & Hsync & ->)|[_ ->]];
      [apply syncEntries_grows
      |intros _; io_grows; apply loadEntries_grows | |];
      rewrite syncEntries_emitted; subst unsynced;
      (destruct (entryRows localCampaign (e :: es)) as [rows|] eqn:Hrows;
       [right; exists rows|]).
    + rewrite Hrows.
      rewrite (emitted_ext _ _ o w1 (bind_assoc _ _ _ o w1)).
      destruct (emitted_bind_cases
                  (dbcall (DbMarkSynced (List.map id (e :: es)))
                          (db.markSynced (List.map id (e :: es))))
                  (fun _ => bind (loadEntries campaign)
                                 (fun _ => alert "Sync successful!")) o w1)
        as [([] & w2 & Hmark & ->)|[_ ->]];
        [apply grows_dbcall | intros _; io_grows; apply loadEntries_grows | |];
        rewrite emitted_dbcall.
      * destruct (emitted_bind_cases (loadEntries campaign)
                    (fun _ => alert "Sync successful!") o w2)
          as [([] & w3 & Hload & ->)|[_ ->]];
          [apply loadEntries_grows | intros _; apply grows_alert | |];
          rewrite loadEntries_emitted.
        -- rewrite emitted_alert. exists 3%nat.
           split; [done|]. split; [lia|]. reflexivity.
        -- exists 2%nat. split; [done|]. split; [lia|]. reflexivity.
      * exists 2%nat. split; [done|]. split; [lia|]. reflexivity.
    + unfold syncEntries in Hsync. cbn [length Nat.eqb] in Hsync.
      rewrite Hrows in Hsync. discriminate.
    + rewrite Hrows. exists 1%nat. split; [done|]. split; [lia|]. reflexivity.
    + rewrite Hrows. by left.
Qed.

(** *** Parts of a run that make no relevant call *)

Lemma quiet_ret {A} (a : A) : quiet (ret a).
Proof. intros o w. by rewrite emitted_ret. Qed.

Lemma quiet_set_ui f : quiet (set_ui f).
Proof. intros o w. by rewrite emitted_set_ui. Qed.

Lemma quiet_remote {A} e
    (act : Oracle -> World -> option (A * gmap string (list (list value)))) :
  relevant e = false -> quiet (remote e act).
Proof.
  intros He o w. rewrite emitted_remote. unfold sync_trace. simpl. by rewrite He.
Qed.

Lemma quiet_dbcall {A} e (op : plan -> DB -> TxRun A) :
  relevant e = false -> quiet (dbcall e op).
Proof.
  intros He o w. rewrite emitted_dbcall. unfold sync_trace. simpl. by rewrite He.
Qed.

Lemma quiet_bind {A B} (m : IO A) (k : A -> IO B) :
  grows m -> (forall a, grows (k a)) ->
  quiet m -> (forall a, quiet (k a)) -> quiet (bind m k).
Proof.
  intros Hm Hk Hqm Hqk o w.
  rewrite sync_trace_bind; [|done|done|apply Hqm].
  destruct (fst (m o w)); [apply Hqk|done..].
Qed.

(** To show a property of the trace of a sequence whose first part is
    quiet, show it of the empty trace and of the trace of the rest. *)
Lemma trace_after_quiet {A B} (P : list event -> Prop)
    (m : IO A) (k : A -> IO B) o w :
  grows m -> (forall a, grows (k a)) -> quiet m ->
  P [] ->
  (forall a w1, P (sync_trace (emitted (k a) o w1))) ->
  P (sync_trace (emitted (bind m k) o w)).
Proof.
  intros Hm Hk Hq Hnil Hrest.
  rewrite sync_trace_bind; [|done|done|apply Hq].
  destruct (fst (m o w)); [apply Hrest|done..].
Qed.

Lemma ensureSheetStructure_quiet spreadsheetId campaign :
  quiet (ensureSheetStructure spreadsheetId campaign).
Proof.
  unfold ensureSheetStructure. apply quiet_bind.
  - apply grows_remote.
  - intros a. destruct (header_missing a); [apply grows_remote | apply grows_ret].
  - by apply quiet_remote.
  - intros a. destruct (header_missing a); [by apply quiet_remote | apply quiet_ret].
Qed.

Lemma ensureSink_grows localCampaign : grows (ensureSink localCampaign).
Proof. unfold ensureSink, createSpreadsheet. io_grows. Qed.

Lemma ensureSink_quiet localCampaign : quiet (ensureSink localCampaign).
Proof.
  unfold ensureSink, createSpreadsheet.
  destruct (given (spreadsheetId localCampaign)); [apply quiet_ret|].
  apply quiet_bind; [io_grows | io_grows | by apply quiet_remote |].
  intros sid. apply quiet_bind; [io_grows | io_grows | by apply quiet_dbcall |].
  intros _. apply quiet_bind; [io_grows | io_grows | apply quiet_set_ui |].
  intros _. apply quiet_ret.
Qed.

Ltac sync_grows :=
  io_grows;
  auto using ensureSink_grows, ensureSheetStructure_grows, appendAndMark_grows,
    syncEntries_grows, loadEntries_grows.

Lemma syncBody_grows authConfig campaign localCampaign entries :
  grows (syncBody authConfig campaign localCampaign entries).
Proof. unfold syncBody, initGoogleClient, signInAndGetToken. sync_grows. Qed.

(** [handleSync] is its guard around the body. *)
Lemma handleSync_unfold authConfig o w :
  handleSync authConfig o w
    = (if String.eqb (clientId authConfig) "" || String.eqb (apiKey authConfig) ""
       then alert "Please configure Google API Credentials in settings first."
       else
         set_ui (setSyncing true);;
         finally
           (try_catch
              (syncBody authConfig (props_campaign (ui w))
                        (state_localCampaign (ui w)) (state_entries (ui w)))
              (alert "Sync failed"))
           (with_ui (setSyncing false))) o w.
Proof. reflexivity. Qed.

Lemma handleSync_trace authConfig o w :
  sync_trace (emitted (handleSync authConfig) o w) = []
  \/ exists w1,
       sync_trace (emitted (handleSync authConfig) o w)
       = sync_trace (emitted (syncBody authConfig (props_campaign (ui w))
                                (state_localCampaign (ui w))
                                (state_entries (ui w))) o w1)
       /\ w1 = with_ui (setSyncing true) w
       /\ (String.eqb (clientId authConfig) "" || String.eqb (apiKey authConfig) "")
          = false.
Proof.
  rewrite (emitted_ext _ _ o w (handleSync_unfold authConfig o w)).
  destruct (String.eqb (clientId authConfig) "" || String.eqb (apiKey authConfig) "").
  - left. by rewrite emitted_alert.
  - right. exists (with_ui (setSyncing true) w).
    split; [|done].
    rewrite emitted_after_set_ui, emitted_finally by reflexivity.
    rewrite emitted_try_catch by (auto using syncBody_grows, grows_alert).
    unfold sync_trace. rewrite List.filter_app.
    destruct (fst (syncBody _ _ _ _ o _));
      rewrite ?emitted_alert; simpl; by rewrite app_nil_r.
Qed.

Lemma sync_outcome_nil localCampaign unsynced :
  sync_outcome localCampaign unsynced [].
Proof. unfold sync_outcome. destruct unsynced; by left. Qed.

Lemma syncBody_outcome authConfig campaign localCampaign entries o w :
  sync_outcome localCampaign (unsyncedOf entries)
    (sync_trace (emitted (syncBody authConfig campaign localCampaign entries) o w)).
Proof.
  unfold syncBody.
  apply (trace_after_quiet (sync_outcome localCampaign (unsyncedOf entries)));
    [apply grows_remote
    |intros _; unfold signInAndGetToken; sync_grows
    |by apply quiet_remote
    |apply sync_outcome_nil|].
  intros _ w1.
  apply (trace_after_quiet (sync_outcome localCampaign (unsyncedOf entries)));
    [apply grows_remote
    |intros _; sync_grows
    |by apply quiet_remote
    |apply sync_outcome_nil|].
  intros _ w2.
  apply (trace_after_quiet (sync_outcome localCampaign (unsyncedOf entries)));
    [apply ensureSink_grows
    |intros sid; sync_grows
    |apply ensureSink_quiet
    |apply sync_outcome_nil|].
  intros sid w3.
  apply (trace_after_quiet (sync_outcome localCampaign (unsyncedOf entries)));
    [apply ensureSheetStructure_grows
    |intros _; apply appendAndMark_grows
    |apply ensureSheetStructure_quiet
    |apply sync_outcome_nil|].
  intros _ w4.
  pose proof (appendAndMark_trace sid campaign localCampaign
                (unsyncedOf entries) o w4) as Ht.
  unfold sync_outcome. destruct (unsyncedOf entries) as [|e es].
  - by right.
  - destruct Ht as [Ht|(rows & n & Hrows & Hn & Ht)]; [by left|].
    right. by exists sid, rows, n.
Qed.

(** *** A run in which every collaborator answers and no transaction
    is faulted *)

Lemma remote_calm {A} e
    (act : Oracle -> World -> option (A * gmap string (list (list value))))
    o w a s :
  calm o -> act o w = Some (a, s) ->
  remote e act o w = (Ok a, with_sheets s (emit e w)).
Proof. intros [Hr _] Hact. unfold remote. by rewrite Hr, Hact. Qed.

Lemma initGoogleClient_calm a b o w :
  calm o ->
  fst (initGoogleClient a b o w) = Ok tt
  /\ sheets (snd (initGoogleClient a b o w)) = sheets w.
Proof.
  intros Hc. unfold initGoogleClient.
  by rewrite (remote_calm _ _ o w tt (sheets w) Hc eq_refl).
Qed.

Lemma signInAndGetToken_calm o w :
  calm o ->
  fst (signInAndGetToken o w) = Ok tt
  /\ sheets (snd (signInAndGetToken o w)) = sheets w.
Proof.
  intros Hc. unfold signInAndGetToken.
  by rewrite (remote_calm _ _ o w tt (sheets w) Hc eq_refl).
Qed.

Lemma saveCampaign_calm c o w :
  calm o ->
  dbcall (DbSaveCampaign c) (db.saveCampaign c) o w
    = (Ok tt, with_store (after (db.saveCampaign c (plans o (length (log w))) (store w)))
                         (emit (DbSaveCampaign c) w)).
Proof.
  intros [_ Hp]. unfold dbcall, db.saveCampaign, on_request, request.
  cbn [issued work]. rewrite Hp. reflexivity.
Qed.

Lemma ensureSink_calm localCampaign o w :
  calm o ->
  (forall sid, given (spreadsheetId localCampaign) = Some sid ->
               is_Some (sheets w !! sid)) ->
  exists sid, fst (ensureSink localCampaign o w) = Ok sid
              /\ is_Some (sheets (snd (ensureSink localCampaign o w)) !! sid).
Proof.
  intros Hc Hsheet. unfold ensureSink.
  destruct (given (spreadsheetId localCampaign)) as [sid|].
  - exists sid. split; [done|]. by apply Hsheet.
  - exists (newSheetId o (length (log w))). unfold createSpreadsheet, bind.
    rewrite (remote_calm _ _ o w _ _ Hc eq_refl).
    rewrite saveCampaign_calm by done. simpl. split; [done|].
    rewrite lookup_insert_eq. eauto.
Qed.

Lemma ensureSheetStructure_calm spreadsheetId campaign o w :
  calm o -> is_Some (sheets w !! spreadsheetId) ->
  fst (ensureSheetStructure spreadsheetId campaign o w) = Ok tt
  /\ is_Some (sheets (snd (ensureSheetStructure spreadsheetId campaign o w))
               !! spreadsheetId).
Proof.
  intros Hc [sh Hsh]. unfold ensureSheetStructure, bind, values_get.
  erewrite (remote_calm _ _ o w) by (done || by rewrite Hsh).
  destruct (header_missing _).
  - unfold values_update.
    erewrite remote_calm by (done || (simpl; by rewrite Hsh)).
    simpl. split; [done|]. rewrite lookup_insert_eq. eauto.
  - simpl. split; [done|]. rewrite Hsh. eauto.
Qed.

Lemma syncEntries_calm spreadsheetId campaign entries rows o w :
  calm o -> is_Some (sheets w !! spreadsheetId) ->
  entryRows campaign entries = Some rows ->
  fst (syncEntries spreadsheetId campaign entries o w) = Ok tt.
Proof.
  intros Hc [sh Hsh] Hrows. unfold syncEntries.
  destruct (length entries =? 0)%nat; [done|]. rewrite Hrows.
  unfold values_append.
  by erewrite remote_calm by (done || by rewrite Hsh).
Qed.

Lemma markSynced_calm entryIds o w :
  calm o ->
  fst (dbcall (DbMarkSynced entryIds) (db.markSynced entryIds) o w) = Ok tt.
Proof.
  intros [_ Hp]. unfold dbcall.
  destruct (markSynced_no_fault entryIds (plans o (length (log w))) (store w))
    as [-> _]; [apply Hp | done].
Qed.

Lemma loadEntries_calm campaign o w :
  calm o -> fst (loadEntries campaign o w) = Ok tt.
Proof.
  intros [_ Hp]. unfold loadEntries, bind, dbcall.
  rewrite getEntries_settled, Hp. reflexivity.
Qed.

Lemma appendAndMark_calm spreadsheetId campaign localCampaign unsynced o w :
  calm o -> is_Some (sheets w !! spreadsheetId) ->
  Forall (fun e => validTime (createdAt e) = true) unsynced ->
  exists rows,
    entryRows localCampaign unsynced = Some rows
    /\ sync_trace (emitted (appendAndMark spreadsheetId campaign localCampaign unsynced) o w)
       = match unsynced with
         | [] => [Alert "Sync successful!"]
         | _ :: _ => expected spreadsheetId rows unsynced
         end.
Proof.
  intros Hc Hsheet Hvalid.
  destruct (entryRows_is_Some localCampaign unsynced Hvalid) as [rows Hrows].
  exists rows. split; [done|].
  pose proof (appendAndMark_trace spreadsheetId campaign localCampaign unsynced o w)
    as Ht.
  destruct unsynced as [|e es]; [done|].
  pose proof (syncEntries_calm spreadsheetId localCampaign (e :: es) rows o w
                Hc Hsheet Hrows) as Hsync.
  clear Ht. unfold appendAndMark. cbn [length Nat.ltb Nat.leb].
  rewrite (emitted_ext _ _ o w (bind_assoc _ _ _ o w)).
  destruct (emitted_bind_cases (syncEntries spreadsheetId localCampaign (e :: es))
              (fun _ => bind (bind (dbcall (DbMarkSynced (List.map id (e :: es)))
                                      (db.markSynced (List.map id (e :: es))))
                                   (fun _ => loadEntries campaign))
                             (fun _ => alert "Sync successful!")) o w)
    as [([] & w1 & _ & ->)|[Hno _]];
    [apply syncEntries_grows | intros _; sync_grows | | by destruct (Hno tt)].
  rewrite syncEntries_emitted, Hrows.
  rewrite (emitted_ext _ _ o w1 (bind_assoc _ _ _ o w1)).
  destruct (emitted_bind_cases
              (dbcall (DbMarkSynced (List.map id (e :: es)))
                      (db.markSynced (List.map id (e :: es))))
              (fun _ => bind (loadEntries campaign)
                             (fun _ => alert "Sync successful!")) o w1)
    as [([] & w2 & _ & ->)|[Hno _]];
    [apply grows_dbcall | intros _; sync_grows |
    | destruct (Hno tt); by apply markSynced_calm].
  rewrite emitted_dbcall.
  destruct (emitted_bind_cases (loadEntries campaign)
              (fun _ => alert "Sync successful!") o w2)
    as [([] & w3 & _ & ->)|[Hno _]];
    [apply loadEntries_grows | intros _; apply grows_alert |
    | destruct (Hno tt); by apply loadEntries_calm].
  rewrite loadEntries_emitted, emitted_alert. reflexivity.
Qed.

Lemma syncBody_calm authConfig campaign localCampaign entries o w :
  calm o ->
  (forall sid, given (spreadsheetId localCampaign) = Some sid ->
               is_Some (sheets w !! sid)) ->
  Forall (fun e => validTime (createdAt e) = true) (unsyncedOf entries) ->
  exists sid rows,
    entryRows localCampaign (unsyncedOf entries) = Some rows
    /\ sync_trace (emitted (syncBody authConfig campaign localCampaign entries) o w)
       = match unsyncedOf entries with
         | [] => [Alert "Sync successful!"]
         | _ :: _ => expected sid rows (unsyncedOf entries)
         end.
Proof.
  intros Hc Hsheet Hvalid. unfold syncBody.
  rewrite sync_trace_bind;
    [|apply grows_remote | intros _; unfold signInAndGetToken; sync_grows
     |by apply quiet_remote].
  destruct (initGoogleClient_calm (clientId authConfig) (apiKey authConfig) o w Hc)
    as [-> Hs1].
  set (w1 := snd (initGoogleClient _ _ o w)) in *.
  rewrite sync_trace_bind;
    [|apply grows_remote | intros _; sync_grows | by apply quiet_remote].
  destruct (signInAndGetToken_calm o w1 Hc) as [-> Hs2].
  set (w2 := snd (signInAndGetToken o w1)) in *.
  rewrite sync_trace_bind;
    [|apply ensureSink_grows | intros sid; sync_grows | apply ensureSink_quiet].
  destruct (ensureSink_calm localCampaign o w2 Hc) as (sid & -> & Hs3).
  { intros sid' Hg. rewrite Hs2, Hs1. by apply Hsheet. }
  set (w3 := snd (ensureSink localCampaign o w2)) in *.
  rewrite sync_trace_bind;
    [|apply ensureSheetStructure_grows | intros _; apply appendAndMark_grows
     |apply ensureSheetStructure_quiet].
  destruct (ensureSheetStructure_calm sid localCampaign o w3 Hc Hs3) as [-> Hs4].
  set (w4 := snd (ensureSheetStructure sid localCampaign o w3)) in *.
  destruct (appendAndMark_calm sid campaign localCampaign (unsyncedOf entries)
              o w4 Hc Hs4 Hvalid) as (rows & Hrows & Ht).
  by exists sid, rows.
Qed.

(** When the component holds what [getEntries] returns, the entries a
    run finds unsynced are those [getUnsyncedEntries] returns. *)
Lemma unsynced_of_loaded cid p d loaded :
  settled (db.getEntries cid p d) = Resolved loaded ->
  settled (db.getUnsyncedEntries cid p d) = Resolved (unsyncedOf loaded).
Proof.
  rewrite getEntries_settled, getUnsyncedEntries_settled.
  destruct (p 0%nat); [discriminate|]. by intros [= <-].
Qed.

Lemma entryRows_ids campaign entries rows :
  entryRows campaign entries = Some rows ->
  Forall2 (fun e (r : list value) => r !! 0%nat = Some (VString (id e)))
          entries rows.
Proof.
  unfold entryRows. intros Hrows%mapM_Some.
  eapply Forall2_impl; [exact Hrows|]. intros e r. simpl.
  unfold entryRow, baseData.
  destruct (toISOString (createdAt e)); simpl; [|discriminate].
  by intros [= <-].
Qed.

End SyncRun.

(** ** The synced watermark *)

Section Respects.
Context (R : DB -> DB -> Prop) `{!Reflexive R} `{!Transitive R}.

Lemma respects_ret {A} (a : A) : respects R (ret a).
Proof. intros o w. simpl. reflexivity. Qed.

Lemma respects_throw {A} : respects R (@throw A).
Proof. intros o w. simpl. reflexivity. Qed.

Lemma respects_get_ui : respects R get_ui.
Proof. intros o w. simpl. reflexivity. Qed.

Lemma respects_set_ui f : respects R (set_ui f).
Proof. intros o w. simpl. reflexivity. Qed.

Lemma respects_alert message : respects R (alert message).
Proof. intros o w. simpl. reflexivity. Qed.

Lemma respects_remote {A} e
    (act : Oracle -> World -> option (A * gmap string (list (list value)))) :
  respects R (remote e act).
Proof.
  intros o w. unfold remote.
  destruct (replies o (length (log w))); [destruct (act o w) as [[a s]|]|..];
    simpl; reflexivity.
Qed.

Lemma respects_dbcall {A} e (op : plan -> DB -> TxRun A) :
  (forall p d, R d (after (op p d))) -> respects R (dbcall e op).
Proof.
  intros Hop o w. unfold dbcall. destruct (settled _); simpl; apply Hop.
Qed.

Lemma respects_bind {A B} (m : IO A) (k : A -> IO B) :
  respects R m -> (forall a, respects R (k a)) -> respects R (bind m k).
Proof.
  intros Hm Hk o w. unfold bind. pose proof (Hm o w) as H1.
  destruct (m o w) as [[a| |] w1]; simpl in *; try done.
  etransitivity; [exact H1 | apply Hk].
Qed.

Lemma respects_try_catch {A} (body handler : IO A) :
  respects R body -> respects R handler -> respects R (try_catch body handler).
Proof.
  intros Hb Hh o w. unfold try_catch. pose proof (Hb o w) as H1.
  destruct (body o w) as [[a| |] w1]; simpl in *; try done.
  etransitivity; [exact H1 | apply Hh].
Qed.

Lemma respects_finally {A} (body : IO A) fin :
  (forall w, store (fin w) = store w) ->
  respects R body -> respects R (finally body fin).
Proof.
  intros Hf Hb o w. unfold finally. pose proof (Hb o w) as H1.
  destruct (body o w) as [[a| |] w1]; simpl in *; by rewrite ?Hf.
Qed.

End Respects.

Ltac io_respects :=
  repeat first
    [ apply respects_ret | apply respects_throw | apply respects_get_ui
    | apply respects_set_ui | apply respects_alert | apply respects_remote
    | apply respects_bind | apply respects_try_catch
    | (apply respects_finally; [reflexivity|])
    | match goal with
      | |- respects _ (if ?c then _ else _) => destruct c
      | |- respects _ (match ?x with _ => _ end) => destruct x
      | |- respects _ _ => fail 1
      | |- forall _, _ => intro
      end ].

Global Instance carries_refl : Reflexive carries.
Proof. intros d Hk. by split. Qed.

Global Instance carries_trans : Transitive carries.
Proof.
  intros d1 d2 d3 H12 H23 Hk1. destruct (H12 Hk1) as [Hk2 Hc12].
  destruct (H23 Hk2) as [Hk3 Hc23]. split; [done|]. eauto.
Qed.

Lemma set_synced_id e : synced e = true -> set_synced e = e.
Proof. destruct e. simpl. by intros ->. Qed.

Lemma markSynced_carries entryIds p d :
  carries d (after (db.markSynced entryIds p d)).
Proof.
  intros [Hkc Hke].
  destruct (markSynced_cases entryIds p d) as [[_ ->]|[_ ->]]; [|by split].
  split.
  - split; [done|]. by apply markAll_keyed.
  - intros k e Hk Hs. simpl. rewrite markAll_lookup by done. rewrite Hk.
    case_decide; [|done]. simpl. by rewrite set_synced_id.
Qed.

Lemma saveCampaign_carries c p d : carries d (after (db.saveCampaign c p d)).
Proof.
  intros [Hkc Hke]. unfold db.saveCampaign, on_request, request. simpl.
  destruct (p 0%nat); simpl; [by split|].
  destruct (p 1%nat); simpl; [by split|].
  split; [|done]. split; [|done].
  intros k c'. simpl. destruct (decide (campaign_id c = k)) as [<-|Hne].
  - rewrite lookup_insert_eq. by intros [= <-].
  - rewrite lookup_insert_ne by done. apply Hkc.
Qed.

Lemma getEntries_carries cid p d : carries d (after (db.getEntries cid p d)).
Proof. rewrite getEntries_after. reflexivity. Qed.

Section Watermark.
Context `{NumberFormat}.
Import GoogleService App.

Lemma handleSync_carries authConfig : respects carries (handleSync authConfig).
Proof.
  unfold handleSync, initGoogleClient, signInAndGetToken, createSpreadsheet,
    ensureSheetStructure, syncEntries, values_get, values_update, values_append,
    loadEntries.
  io_respects; try apply _;
    apply respects_dbcall; try apply _;
    auto using markSynced_carries, saveCampaign_carries, getEntries_carries.
Qed.

End Watermark.

Lemma dbcall_store {A} e (op : plan -> DB -> TxRun A) o w :
  store (snd (dbcall e op o w)) = after (op (plans o (length (log w))) (store w)).
Proof. unfold dbcall. by destruct (settled _). Qed.

Lemma saveEntry_after entry p d :
  after (db.saveEntry entry p d) = d
  \/ after (db.saveEntry entry p d)
     = mkDB (campaigns d) (<[id entry := entry]> (entries d)).
Proof.
  unfold db.saveEntry, on_request, request. simpl.
  destruct (p 0%nat); simpl; [by left|].
  destruct (p 1%nat); simpl; [by left | by right].
Qed.

Lemma loadEntries_store campaign : respects eq (App.loadEntries campaign).
Proof.
  unfold App.loadEntries. apply respects_bind; try apply _.
  - apply respects_dbcall; try apply _. intros p d. by rewrite getEntries_after.
  - intros a. apply respects_set_ui; apply _.
Qed.

Section WatermarkClaims.
Context `{NumberFormat}.
Import App.

Lemma handleSaveEntry_store uuid now later o w :
  store (snd (handleSaveEntry uuid now later o w)) = store w
  \/ exists e,
       id e = savedId uuid w /\ synced e = false
       /\ store (snd (handleSaveEntry uuid now later o w))
          = mkDB (campaigns (store w)) (<[id e := e]> (entries (store w))).
Proof.
  remember (store (snd (handleSaveEntry uuid now later o w))) as d' eqn:Hd'.
  unfold handleSaveEntry in Hd'. unfold bind at 1 in Hd'. cbn [get_ui] in Hd'.
  destruct (missingRequired _ _); [by left|].
  match type of Hd' with
  | context [dbcall (DbSaveEntry ?e) (db.saveEntry ?e)] => set (newEntry := e) in *
  end.
  assert (forall w1,
            store (snd ((loadEntries (props_campaign (ui w));;
                         set_ui (setFormData ∅);;
                         set_ui (setEditingEntryId None);;
                         set_ui (setView list_view)) o w1)) = store w1) as Hrest.
  { intros w1. symmetry.
    apply (respects_bind eq); [apply loadEntries_store|].
    intros _. io_respects; apply _. }
  unfold bind at 1 in Hd'.
  pose proof (dbcall_store (DbSaveEntry newEntry) (db.saveEntry newEntry) o w) as Hst.
  destruct (dbcall (DbSaveEntry newEntry) (db.saveEntry newEntry) o w)
    as [[[]| |] w1]; cbn [snd] in *; rewrite ?Hrest, Hst in Hd'; subst d';
    (destruct (saveEntry_after newEntry (plans o (length (log w))) (store w))
       as [->| ->];
     [by left | right; exists newEntry; repeat split; reflexivity]).
Qed.

(** C3, as the code has it: [handleSync] and [markSynced] leave every
    synced entry as it is, whatever fails; [handleSaveEntry] changes at
    most the entry it saves, and stores it with [synced = false], so the
    creation of an entry under a fresh id keeps every flag while the
    save of an edit resets the flag of the edited entry. *)
Theorem watermark_kept_except_edit (op : operation) (o : Oracle) (w : World) :
  keyed (store w) ->
  match op with
  | SaveEntry uuid now later =>
      (forall k e',
         entries (store (perform op o w)) !! k = Some e' ->
         entries (store w) !! k = Some e'
         \/ (k = savedId uuid w /\ synced e' = false))
      /\ (given (state_editingEntryId (ui w)) = None ->
          entries (store w) !! uuid = None ->
          watermark_kept (store w) (store (perform op o w)))
  | Sync _ | MarkSynced _ =>
      (forall k e, entries (store w) !! k = Some e -> synced e = true ->
                   entries (store (perform op o w)) !! k = Some e)
      /\ watermark_kept (store w) (store (perform op o w))
  end.
Proof.
  intros Hk.
  assert (forall d', (forall k e, entries (store w) !! k = Some e -> synced e = true ->
                                  entries d' !! k = Some e) ->
                     watermark_kept (store w) d') as Hweaken.
  { intros d' Hc k e e' Hl Hs Hl'. rewrite (Hc _ _ Hl Hs) in Hl'. congruence. }
  destruct op as [uuid now later|authConfig|entryIds]; simpl.
  - assert (forall k e',
              entries (store (snd (handleSaveEntry uuid now later o w))) !! k = Some e' ->
              entries (store w) !! k = Some e'
              \/ (k = savedId uuid w /\ synced e' = false)) as Hsave.
    { intros k e'.
      destruct (handleSaveEntry_store uuid now later o w)
        as [->|(e & Hid & Hs & ->)]; [by left|]. simpl.
      destruct (decide (id e = k)) as [<-|Hne].
      - rewrite lookup_insert_eq. intros [= <-]. by right.
      - rewrite lookup_insert_ne by done. by left. }
    split; [exact Hsave|].
    intros Hnew Hfresh k e e' Hl Hs Hl'.
    destruct (Hsave _ _ Hl') as [Hsame|[-> _]]; [congruence|].
    unfold savedId in Hl. rewrite Hnew in Hl. simpl in Hl. congruence.
  - destruct (handleSync_carries authConfig o w Hk) as [_ Hc]. split; auto.
  - rewrite dbcall_store.
    destruct (markSynced_carries entryIds (plans o (length (log w))) (store w) Hk)
      as [_ Hc]. split; auto.
Qed.

End WatermarkClaims.

(** ** The claims on the sample data *)

Section SerializerOnSamples.
Import GoogleService.

Lemma baseData_cells entry base :
  baseData entry = Some base ->
  exists iso,
    toISOString (createdAt entry) = Some iso
    /\ base = [ VString (id entry); VString iso;
                or_else (prop (data entry) "__loc_lat") (VString "");
                or_else (prop (data entry) "__loc_lng") (VString "");
                or_else (prop (data entry) "__loc_acc") (VString "") ].
Proof.
  unfold baseData. destruct (toISOString (createdAt entry)) as [iso|];
    simpl; [|discriminate].
  intros [= <-]. by exists iso.
Qed.

(** A reserved key that is absent gives an empty cell, and one that holds
    a truthy value gives that value. *)
Lemma or_else_cell (d : gmap string value) k :
  (d !! k = None -> inherited k = VUndefined ->
   or_else (prop d k) (VString "") = VString "")
  /\ (forall v, d !! k = Some v -> truthy v = true ->
                or_else (prop d k) (VString "") = v).
Proof.
  unfold or_else, prop. split.
  - intros -> Hk. simpl. by rewrite Hk.
  - intros v -> Hv. simpl. by rewrite Hv.
Qed.

(** C8: an entry captured on the equator has [__loc_lat] present with the
    value [0], and [syncEntries] renders its latitude cell as the empty
    string: [0 || ''] is [''].  The cells for the id, the creation time
    and the other two reserved keys carry their values. *)
Example latitude_zero_is_dropped :
  data Sample.E3 !! "__loc_lat" = Some (VNumber 0%float)
  /\ baseData Sample.E3
     = Some [ VString "e3"; VString "2023-11-14T22:13:20.000Z"; VString "";
              VNumber 10.5%float; VNumber 4%float ].
Proof. split; vm_compute; reflexivity. Qed.

Lemma strlen_blob n : strlen (Sample.blob n) = Z.of_N n.
Proof.
  unfold strlen, Sample.blob. induction n as [|n IH] using N.peano_ind; [done|].
  rewrite N.iter_succ. cbn [String.length].
  rewrite Nat2Z.inj_succ, IH. lia.
Qed.

Example image_of_40000_is_sent :
  fieldCell (H := Sample.plain) Sample.small_photo Sample.photo
  = VString (Sample.blob 40000).
Proof.
  rewrite (fieldCell_image _ _ (Sample.blob 40000)) by reflexivity.
  by rewrite strlen_blob.
Qed.

Example image_of_40001_is_replaced :
  fieldCell (H := Sample.plain) Sample.large_photo Sample.photo
  = VString placeholder.
Proof.
  rewrite (fieldCell_image _ _ (Sample.blob 40001)) by reflexivity.
  by rewrite strlen_blob.
Qed.

Lemma image_size_guard_witness :
  fieldCell (H := Sample.plain) Sample.large_photo Sample.photo
  = VString (if strlen (Sample.blob 40001) <=? 40000
             then Sample.blob 40001 else placeholder)
  /\ [ VString "p2"; VString "2023-11-14T22:13:20.000Z"; VString "";
       VString ""; VString "";
       fieldCell (H := Sample.plain) Sample.large_photo Sample.note;
       fieldCell (H := Sample.plain) Sample.large_photo Sample.photo ] !! (5 + 1)%nat
     = Some (fieldCell (H := Sample.plain) Sample.large_photo Sample.photo).
Proof.
  apply (image_size_guard (H := Sample.plain) Sample.album Sample.large_photo 1
           Sample.photo (Sample.blob 40001));
    reflexivity.
Defined.

Lemma serializer_shape_witness :
  Forall (fun e => validTime (createdAt e) = true) [Sample.E1; Sample.E2]
  /\ is_Some (entryRows (H := Sample.plain) Sample.survey [Sample.E1; Sample.E2]).
Proof.
  assert (Forall (fun e => validTime (createdAt e) = true) [Sample.E1; Sample.E2])
    as Hvalid by (repeat constructor).
  split; [exact Hvalid|].
  exact (proj2 (proj2 (proj2 (serializer_shape (H := Sample.plain) Sample.survey
                                [Sample.E1; Sample.E2]))) Hvalid).
Defined.

(** C7 as stated fails: the entry [bare] holds no value for the field
    of id [toString], and [entry.data[field.id]] reads the method that
    every object inherits; the cell is the text of that function, not
    the empty string. *)
Lemma inherited_member_fills_cell :
  data Cases.bare !! field_id Cases.method = None
  /\ fields Cases.methods = [Cases.method]
  /\ entryRows (H := Sample.plain) Cases.methods [Cases.bare]
     = Some [ [ VString "b1"; VString "2023-11-14T22:13:20.000Z"; VString "";
                VString ""; VString "";
                VString (toString (H := Sample.plain) (VFunction "toString")) ] ]
  /\ toString (H := Sample.plain) (VFunction "toString") <> "".
Proof. vm_compute. repeat split; discriminate. Qed.

(** The rows of the two sample entries. *)
Example rows_of_the_sample :
  entryRows (H := Sample.plain) Sample.survey [Sample.E1; Sample.E2]
  = Some [ [ VString "e1"; VString "2023-11-14T22:13:20.000Z"; VString "";
             VString ""; VString ""; VString "hello" ];
           [ VString "e2"; VString "2023-11-14T22:13:20.001Z"; VString "";
             VString ""; VString ""; VString "world" ] ].
Proof. vm_compute. reflexivity. Qed.

End SerializerOnSamples.

Section StoreOnSamples.
Import db.

Lemma deleteCampaign_atomic_witness :
  keyed Sample.database
  /\ settled (deleteCampaign "c1" no_fault Sample.database) = Resolved tt.
Proof.
  assert (keyed Sample.database) as Hk
    by (apply (bool_decide_unpack _); vm_compute; reflexivity).
  split; [exact Hk|].
  exact (proj1 (proj2 (deleteCampaign_atomic "c1" no_fault Sample.database Hk))
               (fun _ => eq_refl)).
Defined.

Lemma markSynced_idempotent_witness :
  keyed Sample.database
  /\ after (markSynced ["e1"; "ghost"] no_fault
              (after (markSynced ["e1"; "ghost"] no_fault Sample.database)))
     = after (markSynced ["e1"; "ghost"] no_fault Sample.database).
Proof.
  assert (keyed Sample.database) as Hk
    by (apply (bool_decide_unpack _); vm_compute; reflexivity).
  split; [exact Hk|].
  exact (proj1 (proj2 (proj2 (markSynced_idempotent ["e1"; "ghost"]
                                Sample.database Hk)))).
Defined.

Lemma markSynced_atomic_witness :
  keyed Sample.database
  /\ Forall (fun v => v = Sample.database)
            (observed (markSynced ["e1"; "e2"] Sample.third_fails Sample.database)).
Proof.
  assert (keyed Sample.database) as Hk
    by (apply (bool_decide_unpack _); vm_compute; reflexivity).
  split; [exact Hk|].
  exact (proj1 (markSynced_atomic ["e1"; "e2"] Sample.third_fails
                  Sample.database Hk)).
Defined.

(** A fault in the middle of the cascade: the campaign was already
    deleted in the working copy, and the database is the prior one. *)
Example mid_cascade_fault_rolls_back :
  settled (deleteCampaign "c1" Sample.third_fails Sample.database) = Rejected
  /\ after (deleteCampaign "c1" Sample.third_fails Sample.database)
     = Sample.database.
Proof. split; vm_compute; reflexivity. Qed.

(** The cascade without fault empties the sample database. *)
Example cascade_of_the_sample :
  after (deleteCampaign "c1" no_fault Sample.database) = mkDB ∅ ∅.
Proof. vm_compute. reflexivity. Qed.

(** A fault in the middle of the batch: the first entry was already put in
    the working copy, and the store is the prior one. *)
Example mid_batch_fault_rolls_back :
  settled (markSynced ["e1"; "e2"] Sample.third_fails Sample.database) = Rejected
  /\ after (markSynced ["e1"; "e2"] Sample.third_fails Sample.database)
     = Sample.database.
Proof. split; vm_compute; reflexivity. Qed.

Lemma markSynced_frame_witness :
  keyed Sample.database
  /\ campaigns (after (markSynced ["e1"] no_fault Sample.database))
     = campaigns Sample.database.
Proof.
  assert (keyed Sample.database) as Hk
    by (apply (bool_decide_unpack _); vm_compute; reflexivity).
  split; [exact Hk|].
  exact (proj1 (markSynced_frame ["e1"] no_fault Sample.database Hk)).
Defined.

End StoreOnSamples.

Section HandlersOnSamples.
Import GoogleService App.

Lemma header_never_overwritten_witness :
  sheets Sample.headed_world !! "sheet0"
    = Some [[VString "Site"; VString "When"]]
  /\ sheets (ensureEach "sheet0" [Sample.survey; Sample.album] Sample.calm
               Sample.headed_world)
     = sheets Sample.headed_world.
Proof.
  assert (sheets Sample.headed_world !! "sheet0"
            = Some [[VString "Site"; VString "When"]]) as Hs
    by (vm_compute; reflexivity).
  split; [exact Hs|].
  refine (proj1 (header_never_overwritten "sheet0" [Sample.survey; Sample.album]
                   Sample.calm Sample.headed_world
                   [VString "Site"; VString "When"] [] Hs _)).
  discriminate.
Defined.

(** The scenario of the two entries, one of them synced: the run appends
    the row of [E1] alone, marks [E1], and reports success. *)
Example sync_of_the_sample :
  sync_trace (emitted (handleSync (H := Sample.plain) Sample.credentials)
                Sample.calm Sample.world)
  = [ ValuesAppend "sheet1"
        [[ VString "e1"; VString "2023-11-14T22:13:20.000Z"; VString "";
           VString ""; VString ""; VString "hello" ]];
      DbMarkSynced ["e1"];
      Alert "Sync successful!" ].
Proof. vm_compute. reflexivity. Qed.

(** C3 as stated fails: saving the edit of the synced entry [E2] stores
    it with [synced = false]. *)
Lemma edit_resets_synced :
  ~ (forall (op : operation) (o : Oracle) (w : World),
       keyed (store w) ->
       watermark_kept (store w) (store (perform (H := Sample.plain) op o w))).
Proof.
  intros Hall.
  assert (keyed (store Sample.editing_world)) as Hk
    by (apply (bool_decide_unpack _); vm_compute; reflexivity).
  assert (synced Sample.E2_edited = true) as Hbad.
  { apply (Hall (SaveEntry "u1" 1700000000600 1700000000700) Sample.calm
             Sample.editing_world Hk "e2" Sample.E2 Sample.E2_edited);
      vm_compute; reflexivity. }
  discriminate Hbad.
Qed.

Lemma watermark_kept_except_edit_witness :
  keyed (store Sample.world)
  /\ watermark_kept (store Sample.world)
       (store (perform (H := Sample.plain) (Sync Sample.credentials)
                 Sample.calm Sample.world)).
Proof.
  assert (keyed (store Sample.world)) as Hk
    by (apply (bool_decide_unpack _); vm_compute; reflexivity).
  split; [exact Hk|].
  exact (proj2 (watermark_kept_except_edit (H := Sample.plain)
                  (Sync Sample.credentials) Sample.calm Sample.world Hk)).
Defined.

End HandlersOnSamples.

(** * Further properties *)

(** ** The store, method by method *)

Global Instance newer_first_total : Total db.newer_first.
Proof. intros a b. unfold db.newer_first. lia. Qed.

Lemma filter_nil_Forall {A} (f : A -> bool) (l : list A) :
  Forall (fun x => f x = false) l -> List.filter f l = [].
Proof.
  induction 1 as [|x l Hx _ IH]; simpl; [done|]. by rewrite Hx.
Qed.

Lemma elem_of_listing cid (m : gmap string Entry) e :
  e ∈ db.sort_newer_first (List.map snd (index_campaignId cid m))
  <-> exists k, m !! k = Some e /\ campaignId e = cid.
Proof.
  rewrite sort_newer_first_Permutation, list_elem_of_In, List.in_map_iff. split.
  - intros [[k e'] [Heq Hin]]. simpl in Heq. subst e'. exists k.
    by apply elem_of_index, list_elem_of_In.
  - intros [k Hk]. exists (k, e). split; [done|].
    by apply list_elem_of_In, elem_of_index.
Qed.

Lemma NoDup_index_keys cid (m : gmap string Entry) :
  NoDup (List.map fst (index_campaignId cid m)).
Proof.
  unfold index_campaignId.
  assert (forall l : list (string * Entry),
            NoDup (List.map fst l) ->
            NoDup (List.map fst (List.filter
                     (fun kv => String.eqb (campaignId (snd kv)) cid) l))) as Hf.
  { induction l as [|[k e] l IH]; simpl; [done|].
    intros [Hk Hl]%NoDup_cons. destruct (String.eqb (campaignId e) cid); simpl; [|auto].
    apply NoDup_cons. split; [|auto].
    intros Hin. apply Hk. apply list_elem_of_In, List.in_map_iff in Hin
      as [[k' e'] [Heq Hin]]. simpl in Heq. subst k'.
    apply List.filter_In in Hin as [Hin _].
    apply list_elem_of_In, List.in_map_iff. by exists (k, e'). }
  apply Hf. unfold records.
  change (List.map fst (merge_sort key_le (map_to_list m)))
    with (fst <$> merge_sort key_le (map_to_list m)).
  rewrite merge_sort_Permutation. apply NoDup_fst_map_to_list.
Qed.

Section StoreMethods.
Import db.

(** X1: [getEntries] changes nothing; it rejects when its request fails;
    otherwise it resolves to the stored entries of the campaign, each
    once, newest first. *)
Theorem getEntries_lists_campaign (cid : string) (q : plan) (d : DB) :
  after (getEntries cid q d) = d
  /\ (q 0%nat = true -> settled (getEntries cid q d) = Rejected)
  /\ (q 0%nat = false ->
      exists l,
        settled (getEntries cid q d) = Resolved l
        /\ (forall e, e ∈ l <-> exists k, entries d !! k = Some e /\ campaignId e = cid)
        /\ Sorted newer_first l
        /\ (keyed d -> NoDup (List.map id l))).
Proof.
  split; [apply getEntries_after|]. rewrite getEntries_settled.
  split; [by intros ->|]. intros ->. eexists. split; [done|].
  split; [apply elem_of_listing|]. split; [apply Sorted_sort_newer_first|].
  intros [_ Hke].
  change (List.map id (sort_newer_first
            (List.map snd (index_campaignId cid (entries d)))))
    with (id <$> sort_newer_first
            (List.map snd (index_campaignId cid (entries d)))).
  rewrite sort_newer_first_Permutation.
  pose proof (NoDup_index_keys cid (entries d)) as Hnd.
  assert (List.map id (List.map snd (index_campaignId cid (entries d)))
          = List.map fst (index_campaignId cid (entries d))) as Heq.
  { rewrite List.map_map. apply List.map_ext_in. intros [k e] Hin. simpl.
    apply list_elem_of_In, elem_of_index in Hin as [Hl _]. exact (Hke _ _ Hl). }
  change (id <$> List.map snd (index_campaignId cid (entries d)))
    with (List.map id (List.map snd (index_campaignId cid (entries d)))).
  by rewrite Heq.
Qed.

Lemma saveEntry_no_fault entry d :
  settled (saveEntry entry no_fault d) = Resolved tt
  /\ after (saveEntry entry no_fault d)
     = mkDB (campaigns d) (<[id entry := entry]> (entries d)).
Proof. unfold saveEntry, on_request, request. simpl. done. Qed.

(** X2: a saved entry is read back. Without fault [saveEntry] resolves,
    stores the entry under its id in place of any entry of that id, and
    leaves the campaigns and the other entries alone; the listing of a
    campaign afterwards is the listing before without the entries of that
    id, plus the saved entry when it belongs to the campaign. *)
Theorem saveEntry_then_getEntries (entry : Entry) (cid : string) (d : DB)
    (before later : list Entry) :
  keyed d ->
  settled (getEntries cid no_fault d) = Resolved before ->
  settled (getEntries cid no_fault (after (saveEntry entry no_fault d)))
    = Resolved later ->
  settled (saveEntry entry no_fault d) = Resolved tt
  /\ keyed (after (saveEntry entry no_fault d))
  /\ campaigns (after (saveEntry entry no_fault d)) = campaigns d
  /\ entries (after (saveEntry entry no_fault d)) !! id entry = Some entry
  /\ (forall k, k <> id entry ->
        entries (after (saveEntry entry no_fault d)) !! k = entries d !! k)
  /\ (forall x, x ∈ later
                <-> (x = entry /\ campaignId entry = cid)
                    \/ (x ∈ before /\ id x <> id entry)).
Proof.
  intros [Hkc Hke]. destruct (saveEntry_no_fault entry d) as [Hs Ha].
  rewrite Ha, !getEntries_settled. simpl. intros [= <-] [= <-].
  split; [done|]. split.
  { split; [done|]. intros k e. simpl.
    destruct (decide (id entry = k)) as [<-|Hne].
    - rewrite lookup_insert_eq. by intros [= <-].
    - rewrite lookup_insert_ne by done. apply Hke. }
  split; [done|]. split; [apply lookup_insert_eq|].
  split; [intros k Hne; by apply lookup_insert_ne|].
  intros x. rewrite !elem_of_listing. split.
  - intros [k [Hl Hc]]. destruct (decide (id entry = k)) as [<-|Hne].
    + rewrite lookup_insert_eq in Hl. injection Hl as <-. by left.
    + rewrite lookup_insert_ne in Hl by done. right.
      split; [by exists k|]. rewrite (Hke _ _ Hl). congruence.
  - intros [[-> Hc]|[[k [Hl Hc]] Hne]].
    + exists (id entry). by rewrite lookup_insert_eq.
    + exists k. rewrite lookup_insert_ne; [done|].
      rewrite <- (Hke _ _ Hl). congruence.
Qed.

Lemma deleteEntry_no_fault k d :
  settled (deleteEntry k no_fault d) = Resolved tt
  /\ after (deleteEntry k no_fault d) = mkDB (campaigns d) (delete k (entries d)).
Proof. unfold deleteEntry, on_request, request. simpl. done. Qed.

(** X3: without fault [deleteEntry] resolves whether or not the id is
    stored; it removes that entry and nothing else, and leaves a store
    that has no such entry as it is. *)
Theorem deleteEntry_removes_one (k : string) (cid : string) (d : DB)
    (before later : list Entry) :
  keyed d ->
  settled (getEntries cid no_fault d) = Resolved before ->
  settled (getEntries cid no_fault (after (deleteEntry k no_fault d)))
    = Resolved later ->
  settled (deleteEntry k no_fault d) = Resolved tt
  /\ keyed (after (deleteEntry k no_fault d))
  /\ campaigns (after (deleteEntry k no_fault d)) = campaigns d
  /\ entries (after (deleteEntry k no_fault d)) !! k = None
  /\ (forall k', k' <> k ->
        entries (after (deleteEntry k no_fault d)) !! k' = entries d !! k')
  /\ (entries d !! k = None -> after (deleteEntry k no_fault d) = d)
  /\ (forall x, x ∈ later <-> x ∈ before /\ id x <> k).
Proof.
  intros [Hkc Hke]. destruct (deleteEntry_no_fault k d) as [Hs Ha].
  rewrite Ha, !getEntries_settled. simpl. intros [= <-] [= <-].
  split; [done|]. split.
  { split; [done|]. intros k' e. simpl.
    destruct (decide (k = k')) as [<-|Hne].
    - by rewrite lookup_delete_eq.
    - rewrite lookup_delete_ne by done. apply Hke. }
  split; [done|]. split; [apply lookup_delete_eq|].
  split; [intros k' Hne; by apply lookup_delete_ne|].
  split.
  { intros Hnone. destruct d as [cs es]. simpl in *. f_equal.
    apply map_eq. intros k'. destruct (decide (k = k')) as [<-|Hne].
    - by rewrite lookup_delete_eq.
    - by rewrite lookup_delete_ne. }
  intros x. rewrite !elem_of_listing. split.
  - intros [k' [Hl Hc]]. destruct (decide (k = k')) as [<-|Hne].
    + by rewrite lookup_delete_eq in Hl.
    + rewrite lookup_delete_ne in Hl by done.
      split; [by exists k'|]. rewrite (Hke _ _ Hl). congruence.
  - intros [[k' [Hl Hc]] Hne]. exists k'. rewrite lookup_delete_ne; [done|].
    rewrite <- (Hke _ _ Hl). congruence.
Qed.

(** X4: marking what [getUnsyncedEntries] returned leaves nothing
    unsynced. When [markSynced] of the ids of the unsynced entries of a
    campaign resolves, [getUnsyncedEntries] of that campaign resolves to
    the empty list, and the listing of the campaign holds the entries of
    before with their flag set. *)
Theorem markSynced_clears_unsynced (cid : string) (p : plan) (d : DB)
    (unsynced : list Entry) :
  keyed d ->
  settled (getUnsyncedEntries cid no_fault d) = Resolved unsynced ->
  settled (markSynced (List.map id unsynced) p d) = Resolved tt ->
  (forall q,
     settled (getUnsyncedEntries cid q
                (after (markSynced (List.map id unsynced) p d)))
     = if q 0%nat then Rejected else Resolved [])
  /\ (forall before later,
        settled (getEntries cid no_fault d) = Resolved before ->
        settled (getEntries cid no_fault
                   (after (markSynced (List.map id unsynced) p d)))
          = Resolved later ->
        forall x, x ∈ later <-> exists y, y ∈ before /\ x = set_synced y).
Proof.
  intros [Hkc Hke] Hu Hres. rewrite getUnsyncedEntries_settled in Hu.
  simpl in Hu. injection Hu as <-.
  set (listing := sort_newer_first
                    (List.map snd (index_campaignId cid (entries d)))) in *.
  set (ids := List.map id (List.filter (fun e => negb (synced e)) listing)) in *.
  destruct (markSynced_cases ids p d) as [[_ Ha]|[Hno _]]; [|done].
  assert (forall k e, entries d !! k = Some e -> campaignId e = cid ->
                      synced e = false -> k ∈ ids) as Hlisted.
  { intros k e Hl Hc Hs. rewrite <- (Hke _ _ Hl). unfold ids.
    apply list_elem_of_In, List.in_map, List.filter_In. split.
    - apply list_elem_of_In, elem_of_listing. eauto.
    - by rewrite Hs. }
  assert (forall k y, entries d !! k = Some y -> campaignId y = cid ->
                      entries (after (markSynced ids p d)) !! k = Some (set_synced y))
    as Hmarked.
  { intros k y Hl Hc. rewrite Ha. simpl. rewrite markAll_lookup by done.
    rewrite Hl. case_decide as Hin; [done|]. simpl.
    destruct (synced y) eqn:Hs; [by rewrite set_synced_id|].
    destruct Hin. eauto. }
  assert (forall k x, entries (after (markSynced ids p d)) !! k = Some x ->
                      exists y, entries d !! k = Some y
                                /\ campaignId y = campaignId x
                                /\ (x = y \/ x = set_synced y)) as Hfrom.
  { intros k x. rewrite Ha. simpl. rewrite markAll_lookup by done.
    destruct (entries d !! k) as [y|] eqn:Hl; [|by case_decide].
    case_decide; simpl; intros [= <-]; exists y; auto. }
  split.
  - intros q. rewrite getUnsyncedEntries_settled.
    destruct (q 0%nat); [done|]. f_equal. apply filter_nil_Forall.
    apply Forall_forall. intros x [k [Hl Hc]]%elem_of_listing.
    destruct (Hfrom _ _ Hl) as (y & Hy & Hcy & Hxy).
    rewrite (Hmarked _ _ Hy) in Hl by congruence. by injection Hl as <-.
  - intros before later. rewrite !getEntries_settled. simpl. intros [= <-] [= <-] x.
    rewrite elem_of_listing. split.
    + intros [k [Hl Hc]]. destruct (Hfrom _ _ Hl) as (y & Hy & Hcy & Hxy).
      exists y. split; [apply elem_of_listing; exists k; split; congruence|].
      rewrite (Hmarked _ _ Hy) in Hl by congruence. congruence.
    + intros [y [[k [Hy Hc]]%elem_of_listing ->]]. exists k.
      split; [by apply Hmarked|]. by destruct y.
Qed.

Lemma saveCampaign_no_fault c d :
  settled (saveCampaign c no_fault d) = Resolved tt
  /\ after (saveCampaign c no_fault d)
     = mkDB (<[campaign_id c := c]> (campaigns d)) (entries d).
Proof. unfold saveCampaign, on_request, request. simpl. done. Qed.

(** X5: a saved campaign is read back. Without fault [saveCampaign]
    resolves and [getCampaign] of its id then resolves to it; the other
    campaigns and every entry are as before; and [getCampaign] of an id
    that is not stored resolves to nothing rather than failing. *)
Theorem saveCampaign_then_getCampaign (c : Campaign) (d : DB) :
  keyed d ->
  settled (saveCampaign c no_fault d) = Resolved tt
  /\ keyed (after (saveCampaign c no_fault d))
  /\ settled (getCampaign (campaign_id c) no_fault (after (saveCampaign c no_fault d)))
     = Resolved (Some c)
  /\ (forall k, k <> campaign_id c ->
        settled (getCampaign k no_fault (after (saveCampaign c no_fault d)))
        = settled (getCampaign k no_fault d))
  /\ entries (after (saveCampaign c no_fault d)) = entries d
  /\ (forall k, campaigns d !! k = None ->
        settled (getCampaign k no_fault d) = Resolved None).
Proof.
  intros [Hkc Hke]. destruct (saveCampaign_no_fault c d) as [Hs Ha].
  rewrite Ha. split; [done|]. split.
  { split; [|done]. intros k c'. simpl.
    destruct (decide (campaign_id c = k)) as [<-|Hne].
    - rewrite lookup_insert_eq. by intros [= <-].
    - rewrite lookup_insert_ne by done. apply Hkc. }
  split.
  { rewrite getCampaign_settled. simpl. by rewrite lookup_insert_eq. }
  split.
  { intros k Hne. rewrite !getCampaign_settled. simpl.
    by rewrite lookup_insert_ne. }
  split; [done|]. intros k Hk. rewrite getCampaign_settled. simpl. by rewrite Hk.
Qed.

End StoreMethods.

(** ** The sheet calls *)

Section SheetCalls.
Context `{NumberFormat}.
Import GoogleService.

Lemma getHeaders_not_nil fields : List.map VString (getHeaders fields) <> [].
Proof. unfold getHeaders. simpl. discriminate. Qed.

(** X6: on a sheet whose first row is absent or empty, when the two calls
    are answered, [ensureSheetStructure] writes the header of the campaign
    as the first row and touches nothing else; after that, a run for any
    campaign under any oracle leaves the sheets as they are. *)
Theorem ensureSheetStructure_writes_once (spreadsheetId : string)
    (campaign campaign' : Campaign) (o o' : Oracle) (w : World)
    (sh : list (list value)) :
  calm o ->
  sheets w !! spreadsheetId = Some sh ->
  hd [] sh = [] ->
  fst (ensureSheetStructure spreadsheetId campaign o w) = Ok tt
  /\ sheets (snd (ensureSheetStructure spreadsheetId campaign o w)) !! spreadsheetId
     = Some (List.map VString (getHeaders (fields campaign)) :: tl sh)
  /\ (forall k, k <> spreadsheetId ->
        sheets (snd (ensureSheetStructure spreadsheetId campaign o w)) !! k
        = sheets w !! k)
  /\ emitted (ensureSheetStructure spreadsheetId campaign) o w
     = [ValuesGet spreadsheetId;
        ValuesUpdate spreadsheetId [List.map VString (getHeaders (fields campaign))]]
  /\ sheets (snd (ensureSheetStructure spreadsheetId campaign' o'
                    (snd (ensureSheetStructure spreadsheetId campaign o w))))
     = sheets (snd (ensureSheetStructure spreadsheetId campaign o w)).
Proof.
  intros Hc Hsh Hhd.
  assert (ensureSheetStructure spreadsheetId campaign o w
          = (Ok tt,
             with_sheets
               (<[spreadsheetId :=
                    List.map VString (getHeaders (fields campaign)) :: tl sh]>
                  (sheets w))
               (emit (ValuesUpdate spreadsheetId
                        [List.map VString (getHeaders (fields campaign))])
                     (emit (ValuesGet spreadsheetId) w)))) as Hrun.
  { unfold ensureSheetStructure, bind, values_get.
    erewrite (remote_calm _ _ o w) by (done || by rewrite Hsh).
    assert (header_missing match sh with
                           | [] => None
                           | r :: _ => Some [firstn 26 r]
                           end = true) as ->.
    { destruct sh as [|r rest]; [done|]. simpl in Hhd. by subst r. }
    unfold values_update.
    erewrite remote_calm by (done || (simpl; by rewrite Hsh)).
    do 3 f_equal. destruct sh as [|r rest]; [done|]. simpl in Hhd. subst r.
    simpl. by rewrite ?skipn_nil, ?app_nil_r. }
  rewrite Hrun. cbn [fst snd].
  split; [done|]. split; [apply lookup_insert_eq|].
  split; [intros k Hne; by apply lookup_insert_ne|].
  split.
  { apply emitted_of. rewrite Hrun. simpl. by rewrite <- app_assoc. }
  eapply (ensureSheetStructure_kept spreadsheetId campaign' o').
  - simpl. apply lookup_insert_eq.
  - apply getHeaders_not_nil.
Qed.

Lemma entryRows_None campaign entries :
  entryRows campaign entries = None
  <-> Exists (fun e => validTime (createdAt e) = false) entries.
Proof.
  split.
  - intros Hnone.
    apply (Exists_impl (not ∘ (fun e => validTime (createdAt e) = true))).
    + apply not_Forall_Exists; [intros e; apply _|].
      intros Hall. destruct (entryRows_is_Some campaign entries Hall) as [rows Hrows].
      congruence.
    + intros e He. simpl in He. by destruct (validTime (createdAt e)).
  - intros Hex. destruct (entryRows campaign entries) as [rows|] eqn:Hrows; [|done].
    unfold entryRows in Hrows. apply mapM_Some in Hrows.
    apply Exists_exists in Hex as [e [Hin He]].
    apply list_elem_of_lookup in Hin as [i Hi].
    destruct (Forall2_lookup_l _ _ _ _ _ Hrows Hi) as [r [_ Hr]].
    unfold entryRow, baseData in Hr.
    destruct (toISOString (createdAt e)) as [iso|] eqn:Hiso; [|discriminate].
    apply toISOString_Some in Hiso. congruence.
Qed.

(** X8: one entry whose creation time is not a valid time value makes
    [syncEntries] throw before it sends anything: no call is made and the
    world is as before. *)
Theorem syncEntries_invalid_date (spreadsheetId : string) (campaign : Campaign)
    (entries : list Entry) (o : Oracle) (w : World) :
  Exists (fun e => validTime (createdAt e) = false) entries ->
  syncEntries spreadsheetId campaign entries o w = (Throw, w).
Proof.
  intros Hex. unfold syncEntries.
  destruct entries as [|e es]; [by apply Exists_nil in Hex|].
  cbn [length Nat.eqb]. apply (entryRows_None campaign) in Hex. by rewrite Hex.
Qed.

(** X9: the five leading cells of a row. The first is the id of the
    entry and the second the ISO string of its creation time; the cell of
    a reserved key is empty when the key is absent, and when the key is
    present it is its value as it is stored (a number stays a number) if
    the value is truthy and the empty string if it is falsy. *)
Theorem leading_cells (campaign : Campaign) (entry : Entry) (r : list value) :
  entryRow campaign entry = Some r ->
  r !! 0%nat = Some (VString (id entry))
  /\ (exists iso, toISOString (createdAt entry) = Some iso
                  /\ r !! 1%nat = Some (VString iso))
  /\ forall (i : nat) key,
       (i, key) ∈ [(2%nat, "__loc_lat"); (3%nat, "__loc_lng"); (4%nat, "__loc_acc")] ->
       (data entry !! key = None -> r !! i = Some (VString ""))
       /\ (forall v, data entry !! key = Some v ->
                     r !! i = Some (if truthy v then v else VString "")).
Proof.
  unfold entryRow, baseData.
  destruct (toISOString (createdAt entry)) as [iso|]; simpl; [|discriminate].
  intros [= <-]. split; [done|]. split; [by exists iso|].
  intros i key Hin. unfold or_else, prop.
  repeat (apply elem_of_cons in Hin as [[= -> ->]|Hin]);
    [..|by apply elem_of_nil in Hin];
    (split; [by intros ->|intros v ->; simpl; by destruct (truthy v)]).
Qed.

(** X10: only image fields are guarded. A string value of a field of any
    type but image and location is sent as it is, whatever its length. *)
Theorem other_fields_are_not_guarded (campaign : Campaign) (entry : Entry)
    (i : nat) (field : FieldDefinition) (s : string) (r : list value) :
  fields campaign !! i = Some field ->
  field_type field <> image -> field_type field <> location ->
  data entry !! field_id field = Some (VString s) ->
  entryRow campaign entry = Some r ->
  r !! (5 + i)%nat = Some (VString s).
Proof.
  intros Hf Hi Hl Hd Hr. rewrite (entryRow_field _ _ _ _ _ Hr Hf).
  unfold fieldCell, prop. rewrite Hd. simpl.
  by destruct (field_type field).
Qed.

Lemma join_objects (points : list (list (string * value))) :
  toString (VArray (List.map VObject points))
  = join "," (List.map (fun _ => "[object Object]") points).
Proof.
  simpl. f_equal. induction points as [|p ps IH]; simpl; [done|]. by rewrite IH.
Qed.

(** X11: the points of a polygon do not reach the sheet. The cell of a
    polygon field holding an array of point objects is [[object Object]]
    once per point, separated by commas (the empty string for no point). *)
Theorem polygon_cell_has_no_coordinates (campaign : Campaign) (entry : Entry)
    (i : nat) (field : FieldDefinition) (points : list (list (string * value)))
    (r : list value) :
  fields campaign !! i = Some field ->
  field_type field = polygon ->
  data entry !! field_id field = Some (VArray (List.map VObject points)) ->
  entryRow campaign entry = Some r ->
  r !! (5 + i)%nat
  = Some (VString (join "," (List.map (fun _ => "[object Object]") points))).
Proof.
  intros Hf Ht Hd Hr. rewrite (entryRow_field _ _ _ _ _ Hr Hf).
  unfold fieldCell, prop. rewrite Hd, Ht. unfold default, Datatypes.id.
  cbn [from_option nullish]. by rewrite join_objects.
Qed.

(** X12: the cell of a location field. For an object it is the latitude
    and the longitude as [String] prints them, separated by a comma,
    whatever else the object holds; a member that is missing prints as
    [undefined]; and a value that is not an object (a string, a number, an
    array) gives [undefined,undefined]. *)
Theorem location_cell (entry : Entry) (field : FieldDefinition) (v : value) :
  field_type field = location ->
  data entry !! field_id field = Some v ->
  nullish v = false ->
  fieldCell entry field
  = VString (toString (member v "latitude") ++ "," ++ toString (member v "longitude"))
  /\ (forall props lat lng,
        v = VObject props ->
        assoc "latitude" props = VNumber lat ->
        assoc "longitude" props = VNumber lng ->
        fieldCell entry field
        = VString (numberToString lat ++ "," ++ numberToString lng))
  /\ ((forall props, v <> VObject props) ->
      fieldCell entry field = VString "undefined,undefined").
Proof.
  intros Ht Hd Hn.
  assert (fieldCell entry field
          = VString (toString (member v "latitude") ++ ","
                     ++ toString (member v "longitude"))) as Hcell.
  { unfold fieldCell, prop. rewrite Hd, Ht. unfold default, Datatypes.id.
    cbn [from_option]. by rewrite Hn. }
  split; [done|]. split.
  - intros props lat lng -> Hlat Hlng. rewrite Hcell. simpl. by rewrite Hlat, Hlng.
  - intros Hno. rewrite Hcell. destruct v; try done. by destruct (Hno props).
Qed.

End SheetCalls.

(** ** Reasoning about worlds *)

Lemma bind_Ok {A B} (m : IO A) (k : A -> IO B) o w a :
  fst (m o w) = Ok a -> bind m k o w = k a o (snd (m o w)).
Proof. unfold bind. destruct (m o w) as [r w1]. simpl. by intros ->. Qed.

Section Steps.
Context (R : World -> World -> Prop) `{!Reflexive R} `{!Transitive R}.

Lemma steps_ret {A} (a : A) : steps R (ret a).
Proof. intros o w. simpl. reflexivity. Qed.

Lemma steps_throw {A} : steps R (@throw A).
Proof. intros o w. simpl. reflexivity. Qed.

Lemma steps_get_ui : steps R get_ui.
Proof. intros o w. simpl. reflexivity. Qed.

Lemma steps_set_ui f : (forall w, R w (with_ui f w)) -> steps R (set_ui f).
Proof. intros Hf o w. apply Hf. Qed.

Lemma steps_alert message : (forall e w, R w (emit e w)) -> steps R (alert message).
Proof. intros He o w. apply He. Qed.

Lemma steps_remote {A} e
    (act : Oracle -> World -> option (A * gmap string (list (list value)))) :
  (forall e w, R w (emit e w)) ->
  (forall o w a s, act o w = Some (a, s) -> R w (with_sheets s (emit e w))) ->
  steps R (remote e act).
Proof.
  intros He Hs o w. unfold remote.
  destruct (replies o (length (log w)));
    [destruct (act o w) as [[a s]|] eqn:Hact|..]; simpl; eauto.
Qed.

Lemma steps_dbcall {A} e (op : plan -> DB -> TxRun A) :
  (forall p w, R w (with_store (after (op p (store w))) (emit e w))) ->
  steps R (dbcall e op).
Proof.
  intros Hop o w. unfold dbcall. destruct (settled _); simpl; apply Hop.
Qed.

Lemma steps_bind {A B} (m : IO A) (k : A -> IO B) :
  steps R m -> (forall a, steps R (k a)) -> steps R (bind m k).
Proof.
  intros Hm Hk o w. unfold bind. pose proof (Hm o w) as H1.
  destruct (m o w) as [[a| |] w1]; simpl in *; try done.
  etransitivity; [exact H1 | apply Hk].
Qed.

Lemma steps_try_catch {A} (body handler : IO A) :
  steps R body -> steps R handler -> steps R (try_catch body handler).
Proof.
  intros Hb Hh o w. unfold try_catch. pose proof (Hb o w) as H1.
  destruct (body o w) as [[a| |] w1]; simpl in *; try done.
  etransitivity; [exact H1 | apply Hh].
Qed.

End Steps.

Section Silent.
Context (f : event -> bool).

Lemma silent_ret {A} (a : A) : silent f (ret a).
Proof. intros o w. by rewrite emitted_ret. Qed.

Lemma silent_throw {A} : silent f (@throw A).
Proof. intros o w. by rewrite emitted_throw. Qed.

Lemma silent_set_ui g : silent f (set_ui g).
Proof. intros o w. by rewrite emitted_set_ui. Qed.

Lemma silent_remote {A} e
    (act : Oracle -> World -> option (A * gmap string (list (list value)))) :
  f e = false -> silent f (remote e act).
Proof. intros He o w. rewrite emitted_remote. simpl. by rewrite He. Qed.

Lemma silent_dbcall {A} e (op : plan -> DB -> TxRun A) :
  f e = false -> silent f (dbcall e op).
Proof. intros He o w. rewrite emitted_dbcall. simpl. by rewrite He. Qed.

Lemma silent_alert message : f (Alert message) = false -> silent f (alert message).
Proof. intros He o w. rewrite emitted_alert. simpl. by rewrite He. Qed.

Lemma silent_bind {A B} (m : IO A) (k : A -> IO B) :
  grows m -> (forall a, grows (k a)) ->
  silent f m -> (forall a, silent f (k a)) -> silent f (bind m k).
Proof.
  intros Hm Hk Hsm Hsk o w. rewrite emitted_bind by done.
  rewrite List.filter_app, Hsm. destruct (fst (m o w)); [apply Hsk|done..].
Qed.

Lemma silent_try_catch {A} (body handler : IO A) :
  grows body -> grows handler ->
  silent f body -> silent f handler -> silent f (try_catch body handler).
Proof.
  intros Hb Hh Hsb Hsh o w. rewrite emitted_try_catch by done.
  rewrite List.filter_app, Hsb. destruct (fst (body o w)); [done|apply Hsh|done].
Qed.

Lemma silent_finally {A} (body : IO A) fin :
  (forall w, log (fin w) = log w) -> silent f body -> silent f (finally body fin).
Proof. intros Hf Hs o w. rewrite emitted_finally by done. apply Hs. Qed.

End Silent.

Ltac io_silent :=
  repeat first
    [ apply silent_ret | apply silent_throw | apply silent_set_ui
    | (apply silent_remote; reflexivity) | (apply silent_dbcall; reflexivity)
    | (apply silent_alert; reflexivity)
    | (apply silent_bind; [io_grows | io_grows | |])
    | (apply silent_try_catch; [io_grows | io_grows | |])
    | (apply silent_finally; [reflexivity|])
    | match goal with
      | |- silent _ (if ?c then _ else _) => destruct c
      | |- silent _ (match ?x with _ => _ end) => destruct x
      | |- silent _ _ => fail 1
      | |- forall _, _ => intro
      end ].

Lemma steps_finally {A} (R : World -> World -> Prop) `{!Transitive R}
    (body : IO A) fin :
  (forall w, R w (fin w)) -> steps R body -> steps R (finally body fin).
Proof.
  intros Hf Hb o w. unfold finally. pose proof (Hb o w) as H1.
  destruct (body o w) as [[a| |] w1]; simpl in *; try done;
    (etransitivity; [exact H1 | apply Hf]).
Qed.

Global Instance same_on_refl {B} (f : World -> B) : Reflexive (same_on f).
Proof. by intros w. Qed.

Global Instance same_on_trans {B} (f : World -> B) : Transitive (same_on f).
Proof. unfold same_on. intros w1 w2 w3 H12 H23. congruence. Qed.

Ltac io_steps :=
  repeat first
    [ apply steps_ret | apply steps_throw | apply steps_get_ui
    | apply steps_bind | apply steps_try_catch
    | match goal with
      | |- steps _ (if ?c then _ else _) => destruct c
      | |- steps _ (match ?x with _ => _ end) => destruct x
      | |- steps _ _ => fail 1
      | |- forall _, _ => intro
      end ].

Ltac steps_leaf :=
  match goal with
  | |- steps ?R (remote _ _) => apply (steps_remote R)
  | |- steps ?R (dbcall _ _) => apply (steps_dbcall R)
  | |- steps ?R (set_ui _) => apply (steps_set_ui R)
  | |- steps ?R (alert _) => apply (steps_alert R)
  end.

Lemma reports_alert : reports (alert "Sync successful!").
Proof.
  intros o w. rewrite emitted_alert. split; [done|].
  intros Hno. by destruct (Hno tt).
Qed.

Lemma reports_bind {A B} (m : IO A) (k : A -> IO B) :
  grows m -> (forall a, grows (k a)) ->
  silent is_alert m -> (forall a, reports (k a)) -> reports (bind m k).
Proof.
  intros Hm Hk Hs Hr o w.
  destruct (emitted_bind_cases m k o w Hm Hk) as [(a & w1 & Hrun & ->)|[Hno ->]].
  - rewrite (bind_Ok m k o w a) by by rewrite Hrun.
    rewrite Hrun. cbn [snd]. destruct (Hr a o w1) as [Hok Hfail]. split.
    + intros b Hb. destruct (Hok b Hb) as [Hlast Hfilter].
      rewrite last_app, Hlast, List.filter_app, (Hs o w), Hfilter. done.
    + intros Hnb. rewrite List.filter_app, (Hs o w), (Hfail Hnb). done.
  - split.
    + intros b Hb. unfold bind in Hb.
      destruct (m o w) as [[a| |] w1]; simpl in *;
        [by destruct (Hno a)|discriminate..].
    + intros _. apply Hs.
Qed.

(** ** The sync handler as a whole *)

Section SyncHandler.
Context `{NumberFormat}.
Import GoogleService App.

Ltac sync_grows :=
  io_grows;
  auto using ensureSink_grows, ensureSheetStructure_grows, appendAndMark_grows,
    syncEntries_grows, loadEntries_grows.

Lemma ensureSheetStructure_silent f spreadsheetId campaign :
  f (ValuesGet spreadsheetId) = false ->
  (forall values, f (ValuesUpdate spreadsheetId values) = false) ->
  silent f (ensureSheetStructure spreadsheetId campaign).
Proof.
  intros Hg Hu. unfold ensureSheetStructure, values_get, values_update.
  apply silent_bind; [io_grows..| |].
  - by apply silent_remote.
  - intros values. destruct (header_missing values);
      [by apply silent_remote | apply silent_ret].
Qed.

Lemma syncBody_reports authConfig campaign localCampaign entries :
  reports (syncBody authConfig campaign localCampaign entries).
Proof.
  unfold syncBody.
  apply reports_bind; [unfold initGoogleClient; sync_grows | intros; sync_grows
                      | unfold initGoogleClient; io_silent |].
  intros _.
  apply reports_bind; [unfold signInAndGetToken; sync_grows | intros; sync_grows
                      | unfold signInAndGetToken; io_silent |].
  intros _.
  apply reports_bind; [sync_grows | intros; sync_grows
                      | unfold ensureSink, createSpreadsheet; io_silent |].
  intros spreadsheetId.
  apply reports_bind; [sync_grows | intros; sync_grows
                      | by apply ensureSheetStructure_silent |].
  intros _. unfold appendAndMark.
  apply reports_bind; [sync_grows | intros; sync_grows | | intros; apply reports_alert].
  unfold syncEntries, values_append, loadEntries. io_silent.
Qed.

Lemma syncBody_keeps_syncing authConfig campaign localCampaign entries :
  steps (same_on (fun w => state_syncing (ui w)))
        (syncBody authConfig campaign localCampaign entries).
Proof.
  unfold syncBody, appendAndMark, ensureSink, initGoogleClient, signInAndGetToken,
    createSpreadsheet, ensureSheetStructure, syncEntries, values_get,
    values_update, values_append, loadEntries.
  io_steps; try apply _; steps_leaf; unfold same_on; by intros.
Qed.

(** X13: no failure of the [try] block escapes [handleSync] (the error
    value is not modelled: the [catch] is taken to build its message
    without throwing, as it does for every error that is an object). When
    the handler returns it has alerted exactly once, as its last call:
    the request for credentials when one is missing, and then nothing
    else changed; otherwise the report of success or of failure, and the
    component is no longer syncing. When it does not return it has
    alerted nothing and the component is left syncing. *)
Theorem handleSync_always_reports (authConfig : GoogleAuthConfig)
    (o : Oracle) (w : World) :
  let w' := snd (handleSync authConfig o w) in
  let calls := emitted (handleSync authConfig) o w in
  fst (handleSync authConfig o w) <> Throw
  /\ (fst (handleSync authConfig o w) = Ok tt ->
      exists message,
        last calls = Some (Alert message)
        /\ List.filter is_alert calls = [Alert message]
        /\ if missingCredentials authConfig
           then message = "Please configure Google API Credentials in settings first."
                /\ w' = emit (Alert message) w
           else (message = "Sync successful!" \/ message = "Sync failed")
                /\ state_syncing (ui w') = false)
  /\ (fst (handleSync authConfig o w) = Hang ->
      missingCredentials authConfig = false
      /\ List.filter is_alert calls = []
      /\ state_syncing (ui w') = true).
Proof.
  intros w' calls. subst w' calls.
  rewrite (emitted_ext _ _ o w (handleSync_unfold authConfig o w)).
  rewrite handleSync_unfold. unfold missingCredentials.
  destruct (String.eqb (clientId authConfig) "" || String.eqb (apiKey authConfig) "").
  { rewrite emitted_alert. split; [done|]. split; [|done].
    intros _. eexists. repeat split. }
  rewrite emitted_after_set_ui, emitted_finally by reflexivity.
  rewrite emitted_try_catch by (auto using syncBody_grows, grows_alert).
  set (body := syncBody authConfig (props_campaign (ui w))
                 (state_localCampaign (ui w)) (state_entries (ui w))).
  set (w1 := with_ui (setSyncing true) w).
  destruct (syncBody_reports authConfig (props_campaign (ui w))
              (state_localCampaign (ui w)) (state_entries (ui w)) o w1)
    as [Hok Hfail].
  pose proof (syncBody_keeps_syncing authConfig (props_campaign (ui w))
                (state_localCampaign (ui w)) (state_entries (ui w)) o w1) as Hsync.
  fold body in Hok, Hfail, Hsync. unfold same_on in Hsync.
  change (bind (set_ui (setSyncing true))
            (fun _ => finally (try_catch body (alert "Sync failed"))
                         (with_ui (setSyncing false))) o w)
    with (finally (try_catch body (alert "Sync failed"))
            (with_ui (setSyncing false)) o w1).
  unfold finally, try_catch.
  destruct (body o w1) as [[[]| |] w2] eqn:Hrun; cbn [fst snd] in *.
  - destruct (Hok tt eq_refl) as [Hlast Hfilter].
    split; [done|]. split; [|done]. intros _.
    exists "Sync successful!". rewrite app_nil_r. repeat split; auto.
  - split; [done|]. split; [|done]. intros _.
    exists "Sync failed". rewrite emitted_alert, last_app, List.filter_app.
    rewrite Hfail by done. repeat split; auto.
  - split; [done|]. split; [done|]. intros _.
    rewrite app_nil_r. rewrite Hfail by done. repeat split. by rewrite Hsync.
Qed.

Global Instance sync_frame_refl localCampaign ids :
  Reflexive (sync_frame localCampaign ids).
Proof.
  intros d Hk. split; [done|]. split; [done|]. split; [|split; [done|by left]].
  intros k e e' -> [= <-]. by left.
Qed.

Global Instance sync_frame_trans localCampaign ids :
  Transitive (sync_frame localCampaign ids).
Proof.
  intros d1 d2 d3 H12 H23 Hk1.
  destruct (H12 Hk1) as (Hk2 & Hn12 & He12 & Ho12 & Hc12).
  destruct (H23 Hk2) as (Hk3 & Hn23 & He23 & Ho23 & Hc23).
  split; [done|]. split; [|split; [|split]].
  - intros k. by rewrite Hn23.
  - intros k e e'' H1 H3.
    destruct (entries d2 !! k) as [e'|] eqn:H2;
      [|apply Hn12 in H2; congruence].
    destruct (He12 k e e' H1 H2) as [->|[-> Hin]];
      destruct (He23 k _ e'' H2 H3) as [->|[-> Hin']]; auto.
  - intros k Hne. by rewrite Ho23, Ho12.
  - destruct Hc23 as [->|(sid & Hg & ->)]; [done|]. right. eauto.
Qed.

Lemma markSynced_sync_frame localCampaign ids p d :
  sync_frame localCampaign ids d (after (db.markSynced ids p d)).
Proof.
  destruct (markSynced_cases ids p d) as [[_ ->]|[_ ->]]; [|reflexivity].
  intros [Hkc Hke]. split; [split; [done|by apply markAll_keyed]|].
  cbn [campaigns entries]. split; [|split; [|split; [done|by left]]].
  - intros k. rewrite markAll_lookup by done.
    case_decide; [|done]. by destruct (entries d !! k).
  - intros k e e' Hk. rewrite markAll_lookup, Hk by done.
    case_decide; simpl; intros [= <-]; auto.
Qed.

Lemma saveCampaign_sync_frame localCampaign ids sid p d :
  given (spreadsheetId localCampaign) = None ->
  sync_frame localCampaign ids d
    (after (db.saveCampaign (with_spreadsheetId localCampaign sid) p d)).
Proof.
  intros Hg. unfold db.saveCampaign, on_request, request. simpl.
  destruct (p 0%nat); simpl; [reflexivity|].
  destruct (p 1%nat); simpl; [reflexivity|].
  intros [Hkc Hke]. split; [split; [|done]|].
  - intros k c'. simpl.
    destruct (decide (campaign_id localCampaign = k)) as [<-|Hne].
    + rewrite lookup_insert_eq. by intros [= <-].
    + rewrite lookup_insert_ne by done. apply Hkc.
  - cbn [campaigns entries]. split; [done|]. split; [|split].
    + intros k e e' -> [= <-]. by left.
    + intros k Hne. by rewrite lookup_insert_ne.
    + right. exists sid. by rewrite lookup_insert_eq.
Qed.

Lemma syncBody_sync_frame authConfig campaign localCampaign entries :
  respects (sync_frame localCampaign (List.map id (unsyncedOf entries)))
           (syncBody authConfig campaign localCampaign entries).
Proof.
  unfold syncBody, appendAndMark, ensureSink.
  destruct (given (spreadsheetId localCampaign)) eqn:Hg;
    unfold initGoogleClient, signInAndGetToken, createSpreadsheet,
      ensureSheetStructure, syncEntries, values_get, values_update,
      values_append, loadEntries;
    io_respects; try apply _;
    apply respects_dbcall; try apply _; intros;
    first [ apply markSynced_sync_frame
          | by apply saveCampaign_sync_frame
          | rewrite getEntries_after; reflexivity ].
Qed.

Lemma handleSync_sync_frame authConfig o w :
  sync_frame (state_localCampaign (ui w))
    (List.map id (unsyncedOf (state_entries (ui w))))
    (store w) (store (snd (handleSync authConfig o w))).
Proof.
  rewrite handleSync_unfold.
  assert (respects
            (sync_frame (state_localCampaign (ui w))
               (List.map id (unsyncedOf (state_entries (ui w)))))
            (if String.eqb (clientId authConfig) "" || String.eqb (apiKey authConfig) ""
             then alert "Please configure Google API Credentials in settings first."
             else
               set_ui (setSyncing true);;
               finally
                 (try_catch
                    (syncBody authConfig (props_campaign (ui w))
                       (state_localCampaign (ui w)) (state_entries (ui w)))
                    (alert "Sync failed"))
                 (with_ui (setSyncing false)))) as Hr.
  { destruct (_ || _); [apply respects_alert; apply _|].
    apply respects_bind; [apply _ | apply respects_set_ui; apply _ |].
    intros _. apply respects_finally; [reflexivity|].
    apply respects_try_catch;
      [apply _ | apply syncBody_sync_frame | apply respects_alert; apply _]. }
  exact (Hr o w).
Qed.

(** X14: what a sync run may do to the store, whatever the collaborators
    do. It neither creates nor removes an entry; a stored entry is left as
    it is or gets its flag set, the latter only if the component showed
    it as unsynced; the records of other campaigns are untouched; the
    campaign's record is untouched or, if the campaign had no spreadsheet
    id, replaced by the component's campaign with a spreadsheet id. *)
Theorem handleSync_frame (authConfig : GoogleAuthConfig) (o : Oracle) (w : World) :
  keyed (store w) ->
  let d := store w in
  let d' := store (snd (handleSync authConfig o w)) in
  let localCampaign := state_localCampaign (ui w) in
  keyed d'
  /\ (forall k, entries d' !! k = None <-> entries d !! k = None)
  /\ (forall k e e',
        entries d !! k = Some e -> entries d' !! k = Some e' ->
        e' = e
        \/ (e' = set_synced e
            /\ k ∈ List.map id (unsyncedOf (state_entries (ui w)))))
  /\ (forall k, k <> campaign_id localCampaign ->
        campaigns d' !! k = campaigns d !! k)
  /\ (campaigns d' !! campaign_id localCampaign
        = campaigns d !! campaign_id localCampaign
      \/ exists sid,
           given (spreadsheetId localCampaign) = None
           /\ campaigns d' !! campaign_id localCampaign
              = Some (with_spreadsheetId localCampaign sid)).
Proof.
  intros Hk. exact (handleSync_sync_frame authConfig o w Hk).
Qed.

Lemma remote_answers {A} e
    (act : Oracle -> World -> option (A * gmap string (list (list value))))
    o w a s :
  replies o (length (log w)) = Answers -> act o w = Some (a, s) ->
  remote e act o w = (Ok a, with_sheets s (emit e w)).
Proof. intros Hr Hact. unfold remote. by rewrite Hr, Hact. Qed.

Global Instance sheet_kept_refl sid : Reflexive (sheet_kept sid).
Proof. intros w Hw. exact Hw. Qed.

Global Instance sheet_kept_trans sid : Transitive (sheet_kept sid).
Proof. unfold sheet_kept. intros w1 w2 w3 H12 H23. auto. Qed.

Lemma is_Some_insert (m : gmap string (list (list value))) k k' v :
  is_Some (m !! k) -> is_Some (<[k' := v]> m !! k).
Proof.
  intros Hk. destruct (decide (k' = k)) as [->|Hne].
  - rewrite lookup_insert_eq. eauto.
  - by rewrite lookup_insert_ne.
Qed.

(** The part of the body after the spreadsheet id is known. *)
Lemma rest_steps R `{!Reflexive R} `{!Transitive R}
    spreadsheetId campaign localCampaign unsynced :
  (forall e w, R w (emit e w)) ->
  (forall e w sid sh (sh' : list (list value)),
      sheets w !! sid = Some sh ->
      R w (with_sheets (<[sid := sh']> (sheets w)) (emit e w))) ->
  (forall e p ids w,
      R w (with_store (after (db.markSynced ids p (store w))) (emit e w))) ->
  (forall e w, R w (with_store (store w) (emit e w))) ->
  (forall l w, R w (with_ui (setEntries l) w)) ->
  steps R (bind (ensureSheetStructure spreadsheetId localCampaign)
             (fun _ => appendAndMark spreadsheetId campaign localCampaign unsynced)).
Proof.
  intros Hemit Hins Hmark Hread Hset.
  unfold appendAndMark, ensureSheetStructure, syncEntries, values_get,
    values_update, values_append, loadEntries.
  io_steps; try apply _; steps_leaf; try done.
  - intros o w r s. destruct (sheets w !! spreadsheetId); [|done].
    intros [= <- <-]. exact (Hemit _ w).
  - intros o w r s. destruct (sheets w !! spreadsheetId) eqn:Hsh; [|done].
    intros [= <- <-]. by eapply Hins.
  - intros o w r s. destruct (sheets w !! spreadsheetId) eqn:Hsh; [|done].
    intros [= <- <-]. by eapply Hins.
  - intros p w. rewrite getEntries_after. apply Hread.
Qed.

Lemma handleSync_no_create authConfig o w sid :
  given (spreadsheetId (state_localCampaign (ui w))) = Some sid ->
  List.filter is_create (emitted (handleSync authConfig) o w) = [].
Proof.
  intros Hg. rewrite (emitted_ext _ _ o w (handleSync_unfold authConfig o w)).
  destruct (_ || _); [by rewrite emitted_alert|].
  rewrite emitted_after_set_ui, emitted_finally by reflexivity.
  revert o. generalize (with_ui (setSyncing true) w). intros w1 o.
  assert (silent is_create
            (try_catch
               (syncBody authConfig (props_campaign (ui w))
                  (state_localCampaign (ui w)) (state_entries (ui w)))
               (alert "Sync failed"))) as Hs; [|apply Hs].
  apply silent_try_catch;
    [apply syncBody_grows | apply grows_alert | | by apply silent_alert].
  unfold syncBody, ensureSink. rewrite Hg.
  unfold appendAndMark, initGoogleClient, signInAndGetToken, syncEntries,
    values_append, loadEntries.
  apply silent_bind; [sync_grows | intros; sync_grows | by apply silent_remote |].
  intros _.
  apply silent_bind; [sync_grows | intros; sync_grows | by apply silent_remote |].
  intros _.
  apply silent_bind; [sync_grows | intros; sync_grows | apply silent_ret |].
  intros spreadsheetId.
  apply silent_bind; [sync_grows | intros; sync_grows
                     | by apply ensureSheetStructure_silent |].
  intros _. io_silent.
Qed.

Lemma saveCampaign_resolves c p d :
  (forall k, p k = false) ->
  settled (db.saveCampaign c p d) = Resolved tt
  /\ after (db.saveCampaign c p d)
     = mkDB (<[campaign_id c := c]> (campaigns d)) (entries d).
Proof.
  intros Hp. unfold db.saveCampaign, on_request, request. simpl.
  by rewrite !Hp.
Qed.

Lemma length_emit e w : length (log (emit e w)) = S (length (log w)).
Proof. simpl. rewrite length_app. simpl. lia. Qed.

Lemma handleSync_creates authConfig o w :
  let localCampaign := state_localCampaign (ui w) in
  let sid := newSheetId o (S (S (length (log w)))) in
  missingCredentials authConfig = false ->
  given (spreadsheetId localCampaign) = None ->
  reaches_save o w ->
  let w' := snd (handleSync authConfig o w) in
  campaigns (store w') !! campaign_id localCampaign
    = Some (with_spreadsheetId localCampaign sid)
  /\ state_localCampaign (ui w') = with_spreadsheetId localCampaign sid
  /\ is_Some (sheets w' !! sid)
  /\ (forall s, is_Some (sheets w !! s) -> is_Some (sheets w' !! s))
  /\ SheetsCreate ("Data Capture: " ++ campaign_name localCampaign)
       ∈ emitted (handleSync authConfig) o w.
Proof.
  intros localCampaign sid Hcred Hg (H0 & H1 & H2 & Hp) w'.
  set (n := length (log w)) in *.
  set (R := fun w1 w2 : World =>
              same_on (fun w => (campaigns (store w) !! campaign_id localCampaign,
                                 state_localCampaign (ui w))) w1 w2
              /\ forall s, sheet_kept s w1 w2).
  assert (Reflexive R) as HRr.
  { intros x. split; [reflexivity|]. by intros s Hs. }
  assert (Transitive R) as HRt.
  { intros x y z [Hxy Hxy'] [Hyz Hyz']. split; [by etransitivity|].
    intros s Hs. by apply Hyz', Hxy'. }
  set (w1 := with_ui (setSyncing true) w).
  set (w2 := with_sheets (sheets w1)
               (emit (GapiInit (clientId authConfig) (apiKey authConfig)) w1)).
  set (w3 := with_sheets (sheets w2) (emit RequestToken w2)).
  set (w4 := with_sheets (<[sid := []]> (sheets w3))
               (emit (SheetsCreate ("Data Capture: " ++ campaign_name localCampaign)) w3)).
  set (saved := with_spreadsheetId localCampaign sid).
  set (w5 := with_store (mkDB (<[campaign_id saved := saved]> (campaigns (store w4)))
                              (entries (store w4)))
               (emit (DbSaveCampaign saved) w4)).
  set (w6 := with_ui (setLocalCampaign saved) w5).
  set (rest := bind (ensureSheetStructure sid localCampaign)
                 (fun _ => appendAndMark sid (props_campaign (ui w)) localCampaign
                             (unsyncedOf (state_entries (ui w))))).
  assert (syncBody authConfig (props_campaign (ui w)) localCampaign
            (state_entries (ui w)) o w1 = rest o w6) as Hbody.
  { unfold syncBody, ensureSink. rewrite Hg.
    unfold initGoogleClient, signInAndGetToken, createSpreadsheet.
    unfold bind at 1.
    rewrite (remote_answers _ _ o w1 tt (sheets w1)) by done.
    fold w2. unfold bind at 1.
    assert (length (log w2) = S n) as Hl2.
    { unfold n. simpl. rewrite length_app. simpl. lia. }
    rewrite (remote_answers _ _ o w2 tt (sheets w2)) by (rewrite ?Hl2; done).
    fold w3. unfold bind at 1. unfold bind at 1.
    assert (length (log w3) = S (S n)) as Hl3.
    { unfold n. simpl. rewrite !length_app. simpl. lia. }
    rewrite (remote_answers _ _ o w3 sid (<[sid := []]> (sheets w3)))
      by (rewrite ?Hl3; done).
    fold w4. unfold bind at 1.
    assert (length (log w4) = S (S (S n))) as Hl4.
    { unfold n. simpl. rewrite !length_app. simpl. lia. }
    unfold dbcall. rewrite Hl4.
    destruct (saveCampaign_resolves (with_spreadsheetId localCampaign sid)
                (plans o (S (S (S n)))) (store w4) Hp) as [-> ->].
    reflexivity. }
  assert (R w6 (snd (rest o w6))) as [Hsame Hsheet].
  { apply (rest_steps R).
    - intros e w0. split; [reflexivity | by intros s Hk].
    - intros e w0 k sh sh' Hk. split; [reflexivity|].
      intros s Hs. simpl. by apply is_Some_insert.
    - intros e p ids w0. split; [|by intros s Hk].
      unfold same_on. simpl.
      by destruct (markSynced_cases ids p (store w0)) as [[_ ->]|[_ ->]].
    - intros e w0. split; [reflexivity | by intros s Hk].
    - intros l w0. split; [reflexivity | by intros s Hk]. }
  unfold same_on in Hsame.
  assert (forall s, is_Some (sheets w !! s) -> is_Some (sheets w6 !! s)) as Hs6.
  { intros s Hs. simpl. by apply is_Some_insert. }
  assert (is_Some (sheets w6 !! sid)) as Hsid6.
  { simpl. rewrite lookup_insert_eq. eauto. }
  assert (campaigns (store w6) !! campaign_id localCampaign = Some saved) as Hc6.
  { simpl. by rewrite lookup_insert_eq. }
  pose proof (f_equal fst Hsame) as Hsc. pose proof (f_equal snd Hsame) as Hsl.
  cbn [fst snd] in Hsc, Hsl. rewrite Hc6 in Hsc.
  change (state_localCampaign (ui w6)) with saved in Hsl.
  assert (grows rest) as Hgrows by (unfold rest; sync_grows).
  destruct (Hgrows o w6) as [l Hlog].
  assert (emitted (syncBody authConfig (props_campaign (ui w)) localCampaign
                     (state_entries (ui w))) o w1
          = ([GapiInit (clientId authConfig) (apiKey authConfig); RequestToken;
              SheetsCreate ("Data Capture: " ++ campaign_name localCampaign);
              DbSaveCampaign saved] ++ l)%list) as Hem.
  { apply emitted_of. rewrite Hbody, Hlog. simpl. by rewrite <- !app_assoc. }
  split; [|split; [|split; [|split]]].
  - subst w'. rewrite handleSync_unfold. fold (missingCredentials authConfig).
    rewrite Hcred.
    change (bind (set_ui (setSyncing true)) ?k o w) with (k tt o w1).
    unfold finally, try_catch. fold localCampaign. rewrite Hbody.
    destruct (rest o w6) as [[[]| |] w7]; cbn [fst snd] in *; auto.
  - subst w'. rewrite handleSync_unfold. fold (missingCredentials authConfig).
    rewrite Hcred.
    change (bind (set_ui (setSyncing true)) ?k o w) with (k tt o w1).
    unfold finally, try_catch. fold localCampaign. rewrite Hbody.
    destruct (rest o w6) as [[[]| |] w7]; cbn [fst snd] in *; auto.
  - subst w'. rewrite handleSync_unfold. fold (missingCredentials authConfig).
    rewrite Hcred.
    change (bind (set_ui (setSyncing true)) ?k o w) with (k tt o w1).
    unfold finally, try_catch. fold localCampaign. rewrite Hbody.
    specialize (Hsheet sid Hsid6).
    destruct (rest o w6) as [[[]| |] w7]; cbn [fst snd] in *; auto.
  - intros s Hs. subst w'. rewrite handleSync_unfold.
    fold (missingCredentials authConfig). rewrite Hcred.
    change (bind (set_ui (setSyncing true)) ?k o w) with (k tt o w1).
    unfold finally, try_catch. fold localCampaign. rewrite Hbody.
    specialize (Hsheet s (Hs6 s Hs)).
    destruct (rest o w6) as [[[]| |] w7]; cbn [fst snd] in *; auto.
  - rewrite (emitted_ext _ _ o w (handleSync_unfold authConfig o w)).
    fold (missingCredentials authConfig). rewrite Hcred.
    rewrite emitted_after_set_ui, emitted_finally by reflexivity.
    rewrite emitted_try_catch by (auto using syncBody_grows, grows_alert).
    fold localCampaign w1. rewrite Hem. set_solver.
Qed.

Lemma mounted_world campaign o w :
  let w' := snd (CampaignView.mounted campaign o w) in
  store w' = store w /\ sheets w' = sheets w
  /\ state_localCampaign (ui w') = campaign
  /\ props_campaign (ui w') = campaign.
Proof.
  unfold CampaignView.mounted, loadEntries, bind, set_ui, dbcall.
  cbn [fst snd]. rewrite getEntries_after.
  by destruct (settled _).
Qed.

(** X15: the spreadsheet id lives in the component. When the component's
    campaign has no spreadsheet id and the run gets as far as saving the
    campaign, then whatever the later calls do, the store and the
    component hold the campaign with the new id, the new sheet exists,
    and a later run of the same mounted component creates no further
    spreadsheet. But the component mounted again on the campaign it was
    given, which is what the list of the application still holds since a
    sync does not reload it, has no spreadsheet id: its run asks for a
    second spreadsheet although the store holds the first id, and having
    got as far as the save it leaves the store with the second id, both
    sheets existing. *)
Theorem spreadsheet_created_per_mount (authConfig : GoogleAuthConfig)
    (o : Oracle) (w : World) :
  let campaign := props_campaign (ui w) in
  let sid := newSheetId o (S (S (length (log w)))) in
  missingCredentials authConfig = false ->
  state_localCampaign (ui w) = campaign ->
  given (spreadsheetId campaign) = None ->
  reaches_save o w ->
  sid <> "" ->
  let w' := snd (handleSync authConfig o w) in
  campaigns (store w') !! campaign_id campaign
    = Some (with_spreadsheetId campaign sid)
  /\ state_localCampaign (ui w') = with_spreadsheetId campaign sid
  /\ is_Some (sheets w' !! sid)
  /\ (forall o',
        List.filter is_create (emitted (handleSync authConfig) o' w') = [])
  /\ (forall o0 o',
        let w'' := snd (CampaignView.mounted campaign o0 w') in
        let sid' := newSheetId o' (S (S (length (log w'')))) in
        reaches_save o' w'' ->
        let w3 := snd (handleSync authConfig o' w'') in
        campaigns (store w'') !! campaign_id campaign
          = Some (with_spreadsheetId campaign sid)
        /\ SheetsCreate ("Data Capture: " ++ campaign_name campaign)
             ∈ emitted (handleSync authConfig) o' w''
        /\ campaigns (store w3) !! campaign_id campaign
           = Some (with_spreadsheetId campaign sid')
        /\ is_Some (sheets w3 !! sid)
        /\ is_Some (sheets w3 !! sid')).
Proof.
  intros campaign sid Hcred Hlc Hg Hreach Hsid w'.
  destruct (handleSync_creates authConfig o w Hcred) as (Hc & Hl & Hs & _ & _);
    [by rewrite Hlc | done |].
  rewrite Hlc in Hc, Hl. fold sid w' in Hc, Hl, Hs.
  split; [done|]. split; [done|]. split; [done|]. split.
  - intros o'. apply (handleSync_no_create authConfig o' w' sid).
    rewrite Hl. simpl. destruct (String.eqb_spec sid ""); [done|reflexivity].
  - intros o0 o' w'' sid' Hreach' w3.
    destruct (mounted_world campaign o0 w') as (Hst & Hsh & Hlc'' & _).
    fold w'' in Hst, Hsh, Hlc''.
    destruct (handleSync_creates authConfig o' w'' Hcred)
      as (Hc3 & _ & Hs3 & Hkept & Hcreate); [by rewrite Hlc'' | done |].
    rewrite Hlc'' in Hc3, Hcreate. fold sid' w3 in Hc3, Hs3.
    split; [by rewrite Hst|]. split; [done|]. split; [done|].
    split; [|done]. apply Hkept. by rewrite Hsh.
Qed.

Lemma no_unsynced_no_append authConfig o w :
  unsyncedOf (state_entries (ui w)) = [] ->
  List.filter is_sink_call (emitted (handleSync authConfig) o w) = [].
Proof.
  intros Hnil. rewrite (emitted_ext _ _ o w (handleSync_unfold authConfig o w)).
  destruct (_ || _); [by rewrite emitted_alert|].
  rewrite emitted_after_set_ui, emitted_finally by reflexivity.
  revert o. generalize (with_ui (setSyncing true) w). intros w1 o.
  assert (silent is_sink_call
            (try_catch
               (syncBody authConfig (props_campaign (ui w))
                  (state_localCampaign (ui w)) (state_entries (ui w)))
               (alert "Sync failed"))) as Hs; [|apply Hs].
  apply silent_try_catch;
    [apply syncBody_grows | apply grows_alert | | by apply silent_alert].
  unfold syncBody. rewrite Hnil.
  unfold appendAndMark, initGoogleClient, signInAndGetToken.
  cbn [length Nat.ltb Nat.leb].
  apply silent_bind; [sync_grows | intros; sync_grows | by apply silent_remote |].
  intros _.
  apply silent_bind; [sync_grows | intros; sync_grows | by apply silent_remote |].
  intros _.
  apply silent_bind; [sync_grows | intros; sync_grows
                     | unfold ensureSink, createSpreadsheet; io_silent |].
  intros spreadsheetId.
  apply silent_bind; [sync_grows | intros; sync_grows
                     | by apply ensureSheetStructure_silent |].
  intros _. io_silent.
Qed.










End SyncHandler.

(** ** The entry form *)

Lemma find_first {A} (p : A -> bool) (l : list A) (x : A) :
  List.find p l = Some x ->
  exists before rest,
    l = (before ++ x :: rest)%list
    /\ Forall (fun y => p y = false) before /\ p x = true.
Proof.
  induction l as [|y l IH]; simpl; [done|].
  destruct (p y) eqn:Hy.
  - intros [= ->]. by exists [], l.
  - intros (before & rest & -> & Hb & Hx)%IH.
    exists (y :: before), rest. repeat split; auto.
Qed.

Lemma find_is_Some {A} (p : A -> bool) (l : list A) :
  Exists (fun y => p y = true) l -> is_Some (List.find p l).
Proof.
  induction 1 as [y l Hy|y l _ IH]; simpl.
  - rewrite Hy. eauto.
  - destruct (p y); eauto.
Qed.

Lemma find_None {A} (p : A -> bool) (l : list A) :
  Forall (fun y => p y = false) l -> List.find p l = None.
Proof. induction 1 as [|y l Hy _ IH]; simpl; [done|]. by rewrite Hy. Qed.

Lemma falsy_required_test formData f :
  field_required f && negb (truthy (prop formData (field_id f))) = true
  <-> falsy_required formData f.
Proof.
  unfold falsy_required. rewrite andb_true_iff, negb_true_iff. done.
Qed.

Lemma saveEntry_resolves entry p d :
  (forall k, p k = false) ->
  settled (db.saveEntry entry p d) = Resolved tt
  /\ after (db.saveEntry entry p d)
     = mkDB (campaigns d) (<[id entry := entry]> (entries d)).
Proof.
  intros Hp. unfold db.saveEntry, on_request, request. simpl. by rewrite !Hp.
Qed.

Section SaveHandler.
Import App.

(** X17: [handleSaveEntry] refuses a form in which the value read under
    the id of a required field, [formData[f.id]], is falsy; a form that
    holds nothing under an id reads what the form object inherits. It
    alerts the name of the first such field of the campaign and does
    nothing else: no call of the store, the store and the component as
    before. *)
Theorem handleSaveEntry_refuses (uuid : string) (now later : Z)
    (o : Oracle) (w : World) :
  let formData := state_formData (ui w) in
  Exists (falsy_required formData) (fields (props_campaign (ui w))) ->
  exists before f rest,
    fields (props_campaign (ui w)) = (before ++ f :: rest)%list
    /\ Forall (fun g => ~ falsy_required formData g) before
    /\ falsy_required formData f
    /\ handleSaveEntry uuid now later o w
       = (Ok tt, emit (Alert (field_name f ++ " is required")) w).
Proof.
  intros formData Hex.
  destruct (find_is_Some
              (fun f => field_required f
                        && negb (truthy (prop formData (field_id f))))
              (fields (props_campaign (ui w)))) as [f Hf].
  { eapply Exists_impl; [exact Hex|]. intros g. apply falsy_required_test. }
  destruct (find_first _ _ _ Hf) as (before & rest & Hl & Hb & Hx).
  exists before, f, rest. split; [done|]. split; [|split].
  - eapply Forall_impl; [exact Hb|]. intros g Hg Hfr.
    apply falsy_required_test in Hfr. congruence.
  - by apply falsy_required_test.
  - unfold handleSaveEntry. unfold bind at 1. cbn [get_ui].
    unfold missingRequired. fold formData. by rewrite Hf.
Qed.

Lemma find_head {A} (p : A -> bool) (l : list A) :
  List.find p l = head (List.filter p l).
Proof.
  induction l as [|x l IH]; simpl; [done|]. by destruct (p x).
Qed.

Lemma keptCreatedAt_editing i entries0 :
  keptCreatedAt (Some i) entries0
  = match List.filter (fun e => String.eqb (id e) i) entries0 with
    | old :: _ => if createdAt old =? 0 then None else Some (createdAt old)
    | [] => None
    end.
Proof.
  unfold keptCreatedAt. simpl. rewrite find_head.
  by destruct (List.filter _ entries0).
Qed.

(** X18: [handleSaveEntry] with a complete form and a store that does not
    fault. The entry is stored under the id being edited, or the new
    uuid, in place of any entry of that id, with the form data, the
    campaign's id and [synced = false]. A new entry is created at the
    first reading of the clock and updated at the second; so is an
    edited one when no entry of its id is shown or the first one shown
    has the creation time 0; otherwise the edit keeps the creation time
    of the first entry shown under that id and the only reading of the
    clock is its [updatedAt]. Nothing else in the store changes; the
    list is reloaded from the store and the form is reset. *)
Theorem handleSaveEntry_saves (uuid : string) (now later : Z)
    (o : Oracle) (w : World) :
  let v := ui w in
  let cid := campaign_id (props_campaign v) in
  calm o ->
  Forall (fun g => ~ falsy_required (state_formData v) g)
         (fields (props_campaign v)) ->
  exists entry,
    let w' := snd (handleSaveEntry uuid now later o w) in
    fst (handleSaveEntry uuid now later o w) = Ok tt
    /\ id entry = savedId uuid w
    /\ campaignId entry = cid
    /\ data entry = state_formData v
    /\ synced entry = false
    /\ (given (state_editingEntryId v) = None ->
        createdAt entry = now /\ updatedAt entry = later)
    /\ (forall i,
          given (state_editingEntryId v) = Some i ->
          match List.filter (fun e => String.eqb (id e) i) (state_entries v) with
          | old :: _ =>
              if createdAt old =? 0
              then createdAt entry = now /\ updatedAt entry = later
              else createdAt entry = createdAt old /\ updatedAt entry = now
          | [] => createdAt entry = now /\ updatedAt entry = later
          end)
    /\ store w' = mkDB (campaigns (store w))
                       (<[id entry := entry]> (entries (store w)))
    /\ (forall e, e ∈ state_entries (ui w')
                  <-> exists k, entries (store w') !! k = Some e
                                /\ campaignId e = cid)
    /\ state_formData (ui w') = ∅
    /\ state_editingEntryId (ui w') = None
    /\ state_view (ui w') = list_view.
Proof.
  intros v cid [Hr Hp] Hall.
  assert (missingRequired (fields (props_campaign v)) (state_formData v) = None)
    as Hnone.
  { apply find_None. eapply Forall_impl; [exact Hall|]. intros g Hg.
    destruct (_ && _) eqn:Ht; [|done]. by apply falsy_required_test in Ht. }
  remember (handleSaveEntry uuid now later o w) as run eqn:Hrun.
  unfold handleSaveEntry in Hrun. unfold bind at 1 in Hrun.
  cbn [get_ui] in Hrun. fold v in Hrun. rewrite Hnone in Hrun.
  match type of Hrun with
  | context [dbcall (DbSaveEntry ?e) (db.saveEntry ?e)] => set (entry := e) in *
  end.
  exists entry. unfold bind at 1 in Hrun. unfold dbcall at 1 in Hrun.
  destruct (saveEntry_resolves entry (plans o (length (log w))) (store w))
    as [Hs Ha]; [apply Hp|]. rewrite Hs, Ha in Hrun.
  unfold loadEntries, bind, dbcall, set_ui in Hrun.
  rewrite getEntries_settled, getEntries_after, Hp in Hrun. subst run.
  cbn [fst snd ui store with_ui with_store emit state_entries state_formData
       state_editingEntryId state_view setEntries setFormData setEditingEntryId
       setView entries campaigns].
  split; [done|]. split; [done|]. split; [done|]. split; [done|].
  split; [done|]. split; [|split].
  - intros Hg. unfold entry. cbn [createdAt updatedAt]. by rewrite Hg.
  - intros i Hg. unfold entry. cbn [createdAt updatedAt].
    rewrite Hg, keptCreatedAt_editing.
    destruct (List.filter _ (state_entries v)) as [|old rest]; [done|].
    by destruct (createdAt old =? 0).
  - split; [done|]. split; [|done]. intros e. apply elem_of_listing.
Qed.

End SaveHandler.

(** ** From the form to the sheet *)

Section SaveThenSync.
Context `{NumberFormat}.
Import GoogleService App.


Lemma handleSync_calm_trace authConfig o w :
  calm o ->
  missingCredentials authConfig = false ->
  (forall sid, given (spreadsheetId (state_localCampaign (ui w))) = Some sid ->
               is_Some (sheets w !! sid)) ->
  Forall (fun e => validTime (createdAt e) = true)
         (unsyncedOf (state_entries (ui w))) ->
  exists sid rows,
    entryRows (state_localCampaign (ui w)) (unsyncedOf (state_entries (ui w)))
    = Some rows
    /\ sync_trace (emitted (handleSync authConfig) o w)
       = match unsyncedOf (state_entries (ui w)) with
         | [] => [Alert "Sync successful!"]
         | _ :: _ => expected sid rows (unsyncedOf (state_entries (ui w)))
         end.
Proof.
  intros Hc Hcred Hsheet Hvalid.
  rewrite (emitted_ext _ _ o w (handleSync_unfold authConfig o w)).
  fold (missingCredentials authConfig). rewrite Hcred.
  rewrite emitted_after_set_ui, emitted_finally by reflexivity.
  rewrite emitted_try_catch by (auto using syncBody_grows, grows_alert).
  destruct (syncBody_calm authConfig (props_campaign (ui w))
              (state_localCampaign (ui w)) (state_entries (ui w)) o
              (with_ui (setSyncing true) w) Hc Hsheet Hvalid)
    as (sid & rows & Hrows & Ht).
  exists sid, rows. split; [done|]. rewrite <- Ht.
  unfold sync_trace. rewrite List.filter_app.
  destruct (fst (syncBody _ _ _ _ o _));
    rewrite ?emitted_alert; simpl; by rewrite app_nil_r.
Qed.


End SaveThenSync.

(** ** What a sync run appends *)

Lemma bind_Ok_inv {A B} (m : IO A) (k : A -> IO B) o w b :
  fst (bind m k o w) = Ok b ->
  exists a, fst (m o w) = Ok a /\ fst (k a o (snd (m o w))) = Ok b.
Proof.
  unfold bind. destruct (m o w) as [[a| |] w1]; simpl; [eauto|done..].
Qed.

Lemma remote_Ok_inv {A} e
    (act : Oracle -> World -> option (A * gmap string (list (list value))))
    o w a :
  fst (remote e act o w) = Ok a ->
  replies o (length (log w)) = Answers
  /\ exists s, act o w = Some (a, s)
               /\ snd (remote e act o w) = with_sheets s (emit e w).
Proof.
  unfold remote. destruct (replies o (length (log w))); [|done..].
  destruct (act o w) as [[a' s]|]; [|done]. simpl. intros [= ->]. eauto.
Qed.

Section SyncClaim.
Context `{NumberFormat}.
Import GoogleService App.

Ltac sync_grows :=
  io_grows;
  auto using ensureSink_grows, ensureSheetStructure_grows, appendAndMark_grows,
    syncEntries_grows, loadEntries_grows.

Lemma syncBody_split authConfig campaign localCampaign entries0 o w :
  syncBody authConfig campaign localCampaign entries0 o w
  = bind (untilAppend authConfig localCampaign)
         (fun spreadsheetId =>
            appendAndMark spreadsheetId campaign localCampaign
                          (unsyncedOf entries0)) o w.
Proof.
  unfold syncBody, untilAppend, bind.
  destruct (initGoogleClient _ _ o w) as [[[]| |] w1]; [|done..].
  destruct (signInAndGetToken o w1) as [[[]| |] w2]; [|done..].
  destruct (ensureSink localCampaign o w2) as [[sid| |] w3]; [|done..].
  by destruct (ensureSheetStructure sid localCampaign o w3) as [[[]| |] w4].
Qed.

Lemma untilAppend_grows authConfig localCampaign :
  grows (untilAppend authConfig localCampaign).
Proof. unfold untilAppend, initGoogleClient, signInAndGetToken. sync_grows. Qed.

Lemma untilAppend_silent authConfig localCampaign :
  silent is_sink_call (untilAppend authConfig localCampaign).
Proof.
  unfold untilAppend, initGoogleClient, signInAndGetToken.
  apply silent_bind; [sync_grows | intros; sync_grows | by apply silent_remote |].
  intros _.
  apply silent_bind; [sync_grows | intros; sync_grows | by apply silent_remote |].
  intros _.
  apply silent_bind; [sync_grows | intros; sync_grows
                     | unfold ensureSink, createSpreadsheet; io_silent |].
  intros spreadsheetId.
  apply silent_bind; [sync_grows | intros; sync_grows
                     | by apply ensureSheetStructure_silent | intros; apply silent_ret].
Qed.

(** The id the part before the append returns is the sink of the run. *)
Lemma untilAppend_sink authConfig localCampaign o w sid :
  fst (untilAppend authConfig localCampaign o w) = Ok sid ->
  sid = sinkOf localCampaign o w.
Proof.
  unfold untilAppend. intros Hrun.
  apply bind_Ok_inv in Hrun as ([] & H1 & Hrun).
  apply bind_Ok_inv in Hrun as ([] & H2 & Hrun).
  apply bind_Ok_inv in Hrun as (sid' & H3 & Hrun).
  apply bind_Ok_inv in Hrun as ([] & _ & Hrun).
  simpl in Hrun. injection Hrun as <-.
  apply remote_Ok_inv in H1 as (_ & s1 & _ & Hw1).
  apply remote_Ok_inv in H2 as (_ & s2 & _ & Hw2).
  fold (initGoogleClient (clientId authConfig) (apiKey authConfig)) in Hw1, Hw2, H3.
  fold signInAndGetToken in Hw2, H3.
  set (w2 := snd (signInAndGetToken o
                    (snd (initGoogleClient (clientId authConfig)
                            (apiKey authConfig) o w)))) in *.
  assert (length (log w2) = S (S (length (log w)))) as Hlen.
  { rewrite Hw2. cbn [log with_sheets emit]. rewrite Hw1.
    cbn [log with_sheets emit]. rewrite !length_app. simpl. lia. }
  unfold ensureSink in H3. unfold sinkOf.
  destruct (given (spreadsheetId localCampaign)) as [s|].
  - simpl in H3. by injection H3.
  - apply bind_Ok_inv in H3 as (sid0 & Hc & H3).
    apply remote_Ok_inv in Hc as (_ & s & Hact & _).
    injection Hact as <- _.
    apply bind_Ok_inv in H3 as ([] & _ & H3).
    apply bind_Ok_inv in H3 as ([] & _ & H3).
    simpl in H3. injection H3 as <-. by rewrite Hlen.
Qed.

Lemma after_append_silent campaign ids :
  silent is_append
    (dbcall (DbMarkSynced ids) (db.markSynced ids);; loadEntries campaign).
Proof. unfold loadEntries. io_silent. Qed.

(** The append and the marking, whatever the collaborators do: no call
    without an unsynced entry; otherwise no call when a row cannot be
    computed, the append alone when it is not answered, and the append
    followed by the marking when it is. *)
Lemma appendAndMark_sink_calls spreadsheetId campaign localCampaign unsynced o w :
  let run := appendAndMark spreadsheetId campaign localCampaign unsynced o w in
  let calls :=
    emitted (appendAndMark spreadsheetId campaign localCampaign unsynced) o w in
  match unsynced with
  | [] => List.filter is_sink_call calls = []
  | _ :: _ =>
      List.filter is_sink_call calls = []
      \/ exists rows,
           entryRows localCampaign unsynced = Some rows
           /\ (List.filter is_sink_call calls = [ValuesAppend spreadsheetId rows]
               \/ (List.filter is_sink_call calls
                     = [ValuesAppend spreadsheetId rows;
                        DbMarkSynced (List.map id unsynced)]
                   /\ replies o (length (log w)) = Answers
                   /\ log (snd run) !! length (log w)
                      = Some (ValuesAppend spreadsheetId rows)
                   /\ exists sh,
                        sheets w !! spreadsheetId = Some sh
                        /\ sheets (snd run) !! spreadsheetId
                           = Some (sh ++ rows)%list))
  end.
Proof.
  intros run calls. destruct unsynced as [|e es].
  { subst calls. unfold appendAndMark. cbn [length Nat.ltb Nat.leb].
    rewrite emitted_bind by sync_grows. by rewrite emitted_ret, emitted_alert. }
  set (unsynced := e :: es) in *.
  set (ids := List.map id unsynced).
  set (rest := bind (bind (dbcall (DbMarkSynced ids) (db.markSynced ids))
                          (fun _ => loadEntries campaign))
                    (fun _ => alert "Sync successful!")).
  assert (forall o1 w1,
            appendAndMark spreadsheetId campaign localCampaign unsynced o1 w1
            = bind (syncEntries spreadsheetId localCampaign unsynced)
                   (fun _ => rest) o1 w1) as Hsplit.
  { intros o1 w1. unfold appendAndMark, rest, unsynced.
    cbn [length Nat.ltb Nat.leb]. by rewrite !bind_assoc. }
  assert (grows rest) as Hrest by (unfold rest; sync_grows).
  assert (forall o1 w1,
            List.filter is_sink_call (emitted rest o1 w1) = [DbMarkSynced ids]
            /\ sheets (snd (rest o1 w1)) = sheets w1) as Hafter.
  { intros o1 w1. split.
    - unfold rest. rewrite (emitted_ext _ _ o1 w1 (bind_assoc _ _ _ o1 w1)).
      rewrite emitted_bind by sync_grows. rewrite emitted_dbcall.
      rewrite List.filter_app. cbn [List.filter is_sink_call is_append is_mark orb].
      destruct (fst (dbcall _ _ o1 w1)); [|done..].
      rewrite emitted_bind by sync_grows.
      rewrite loadEntries_emitted.
      destruct (fst (loadEntries campaign o1 _)); by rewrite ?emitted_alert.
    - assert (steps (same_on sheets) rest) as Hs; [|apply Hs].
      unfold rest, loadEntries.
      io_steps; try apply _; steps_leaf; unfold same_on; by intros. }
  subst calls run.
  rewrite (emitted_ext _ _ o w (Hsplit o w)), Hsplit.
  rewrite emitted_bind by (auto using syncEntries_grows).
  assert (emitted (syncEntries spreadsheetId localCampaign unsynced) o w
          = match entryRows localCampaign unsynced with
            | Some rows => [ValuesAppend spreadsheetId rows]
            | None => []
            end) as -> by (by rewrite syncEntries_emitted).
  destruct (entryRows localCampaign unsynced) as [rows|] eqn:Hrows.
  2:{ left. unfold syncEntries, unsynced. cbn [length Nat.eqb].
      fold unsynced. by rewrite Hrows. }
  right. exists rows. split; [done|].
  assert (syncEntries spreadsheetId localCampaign unsynced o w
          = values_append spreadsheetId rows o w) as Hsync.
  { unfold syncEntries, unsynced. cbn [length Nat.eqb]. fold unsynced.
    by rewrite Hrows. }
  rewrite List.filter_app. cbn [List.filter is_sink_call is_append is_mark orb].
  unfold bind. rewrite Hsync. unfold values_append, remote.
  destruct (replies o (length (log w))) eqn:Hr; [|by left..].
  destruct (sheets w !! spreadsheetId) as [sh|] eqn:Hsh; [|by left].
  right. cbn [fst snd].
  set (w1 := with_sheets (<[spreadsheetId := (sh ++ rows)%list]> (sheets w))
               (emit (ValuesAppend spreadsheetId rows) w)).
  destruct (Hafter o w1) as [Hcalls Hsheets].
  split; [by rewrite Hcalls|]. split; [done|]. split.
  - rewrite (emitted_spec rest o w1 Hrest). cbn [log w1 with_sheets emit].
    rewrite <- app_assoc. rewrite lookup_app_r by lia.
    by rewrite Nat.sub_diag.
  - exists sh. split; [done|]. rewrite Hsheets. simpl.
    by rewrite lookup_insert_eq.
Qed.

(** The calls of a run on the sink are those of its last part. *)
Lemma handleSync_sink_calls authConfig o w :
  let campaign := props_campaign (ui w) in
  let localCampaign := state_localCampaign (ui w) in
  let unsynced := unsyncedOf (state_entries (ui w)) in
  let sink := sinkOf localCampaign o w in
  List.filter is_sink_call (emitted (handleSync authConfig) o w) = []
  \/ exists w4,
       List.filter is_sink_call (emitted (handleSync authConfig) o w)
       = List.filter is_sink_call
           (emitted (appendAndMark sink campaign localCampaign unsynced) o w4)
       /\ (exists l,
             log (snd (handleSync authConfig o w))
             = (log (snd (appendAndMark sink campaign localCampaign unsynced o w4))
                  ++ l)%list)
       /\ sheets (snd (handleSync authConfig o w))
          = sheets (snd (appendAndMark sink campaign localCampaign unsynced o w4)).
Proof.
  intros campaign localCampaign unsynced sink.
  rewrite (emitted_ext _ _ o w (handleSync_unfold authConfig o w)).
  rewrite handleSync_unfold.
  destruct (_ || _); [left; by rewrite emitted_alert|].
  rewrite emitted_after_set_ui, emitted_finally by reflexivity.
  rewrite emitted_try_catch by (auto using syncBody_grows, grows_alert).
  set (w1 := with_ui (setSyncing true) w).
  change (bind (set_ui (setSyncing true)) ?k o w) with (k tt o w1).
  fold campaign localCampaign.
  set (body := syncBody authConfig campaign localCampaign (state_entries (ui w))).
  assert (forall hs : list event,
            (hs = [] \/ hs = [Alert "Sync failed"]) ->
            List.filter is_sink_call (emitted body o w1 ++ hs)
            = List.filter is_sink_call (emitted body o w1)) as Hhandler.
  { intros hs [-> | ->]; rewrite List.filter_app; simpl; by rewrite app_nil_r. }
  rewrite Hhandler
    by (destruct (fst (body o w1)); rewrite ?emitted_alert; auto).
  pose proof (syncBody_split authConfig campaign localCampaign
                (state_entries (ui w)) o w1) as Hsplit.
  fold body unsynced in Hsplit.
  rewrite (emitted_ext _ _ o w1 Hsplit).
  rewrite emitted_bind
    by (intros; auto using untilAppend_grows, appendAndMark_grows).
  rewrite List.filter_app, (untilAppend_silent authConfig localCampaign o w1).
  cbn [app].
  destruct (fst (untilAppend authConfig localCampaign o w1)) as [sid| |] eqn:Hpre;
    [|by left..].
  right.
  pose proof (untilAppend_sink authConfig localCampaign o w1 sid Hpre) as Hsid.
  change (sinkOf localCampaign o w1) with sink in Hsid. subst sid.
  set (w4 := snd (untilAppend authConfig localCampaign o w1)) in *.
  exists w4. split; [done|].
  assert (body o w1 = appendAndMark sink campaign localCampaign unsynced o w4)
    as Hbody.
  { rewrite Hsplit.
    exact (bind_Ok (untilAppend authConfig localCampaign)
             (fun spreadsheetId =>
                appendAndMark spreadsheetId campaign localCampaign unsynced)
             o w1 sink Hpre). }
  unfold finally, try_catch. rewrite Hbody.
  destruct (appendAndMark sink campaign localCampaign unsynced o w4)
    as [[[]| |] w5]; cbn [fst snd log sheets with_ui alert emit];
    (split; [|done]);
    [exists [] | exists [Alert "Sync failed"] | exists []];
    rewrite ?app_nil_r; reflexivity.
Qed.

Lemma filter_sink_trace l :
  List.filter is_sink_call (sync_trace l) = List.filter is_sink_call l.
Proof.
  unfold sync_trace. induction l as [|e l IH]; simpl; [done|].
  destruct e; simpl; rewrite ?IH; try done.
  destruct (String.eqb message "Sync successful!"); simpl; by rewrite IH.
Qed.

Lemma unsyncedOf_spec entries0 e :
  e ∈ unsyncedOf entries0 <-> e ∈ entries0 /\ synced e = false.
Proof.
  unfold unsyncedOf.
  rewrite list_elem_of_In, List.filter_In, <- list_elem_of_In.
  rewrite negb_true_iff. tauto.
Qed.

(** C2, as the code has it. The entries a run works on are those the
    component shows with [synced = false]; they are the unsynced entries
    of the store when the component shows what the store holds.
    Whatever the collaborators do, the run makes no call on the sink
    when no entry is shown unsynced, and otherwise at most one append
    and one marking: the append goes to the spreadsheet of the
    component's campaign, or to the one the run created, with one row
    per unsynced entry in their order, each row starting with the id of
    its entry; the marking follows only an append that was answered,
    when the rows are the last rows of that sheet, and names exactly the
    ids of those entries. The append, the marking and the report of
    success come in this order, a run that fails stopping somewhere
    along the sequence; with calm collaborators, configured credentials
    and valid creation times the run makes both calls and reports
    success. *)
Theorem sync_appends_shown_unsynced (authConfig : GoogleAuthConfig)
    (o : Oracle) (w : World) :
  let shown := state_entries (ui w) in
  let unsynced := unsyncedOf shown in
  let localCampaign := state_localCampaign (ui w) in
  let sink := sinkOf localCampaign o w in
  let calls := emitted (handleSync authConfig) o w in
  let w' := snd (handleSync authConfig o w) in
  (forall e, e ∈ unsynced <-> e ∈ shown /\ synced e = false)
  /\ (coherent w ->
      forall e, e ∈ unsynced
                <-> exists k, entries (store w) !! k = Some e
                              /\ campaignId e = campaign_id (props_campaign (ui w))
                              /\ synced e = false)
  /\ (unsynced = [] -> List.filter is_sink_call calls = [])
  /\ (List.filter is_sink_call calls = []
      \/ exists rows,
           entryRows localCampaign unsynced = Some rows
           /\ Forall2 (fun e (r : list value) => r !! 0%nat = Some (VString (id e)))
                      unsynced rows
           /\ (List.filter is_sink_call calls = [ValuesAppend sink rows]
               \/ (List.filter is_sink_call calls
                     = [ValuesAppend sink rows; DbMarkSynced (List.map id unsynced)]
                   /\ exists (n : nat) sh,
                        log w' !! n = Some (ValuesAppend sink rows)
                        /\ replies o n = Answers
                        /\ sheets w' !! sink = Some (sh ++ rows)%list)))
  /\ match unsynced with
     | [] => sync_trace calls = [] \/ sync_trace calls = [Alert "Sync successful!"]
     | _ :: _ =>
         sync_trace calls = []
         \/ exists rows n,
              entryRows localCampaign unsynced = Some rows
              /\ (1 <= n <= 3)%nat
              /\ sync_trace calls
                 = firstn n
                     [ValuesAppend sink rows;
                      DbMarkSynced (List.map id unsynced);
                      Alert "Sync successful!"]
     end
  /\ (calm o ->
      missingCredentials authConfig = false ->
      (forall sid, given (spreadsheetId localCampaign) = Some sid ->
                   is_Some (sheets w !! sid)) ->
      Forall (fun e => validTime (createdAt e) = true) unsynced ->
      exists rows,
        entryRows localCampaign unsynced = Some rows
        /\ sync_trace calls
           = match unsynced with
             | [] => [Alert "Sync successful!"]
             | _ :: _ =>
                 [ValuesAppend sink rows; DbMarkSynced (List.map id unsynced);
                  Alert "Sync successful!"]
             end).
Proof.
  intros shown unsynced localCampaign sink calls w'.
  assert (List.filter is_sink_call calls = []
          \/ exists rows,
               entryRows localCampaign unsynced = Some rows
               /\ Forall2 (fun e (r : list value) =>
                             r !! 0%nat = Some (VString (id e))) unsynced rows
               /\ (List.filter is_sink_call calls = [ValuesAppend sink rows]
                   \/ (List.filter is_sink_call calls
                         = [ValuesAppend sink rows;
                            DbMarkSynced (List.map id unsynced)]
                       /\ exists (n : nat) sh,
                            log w' !! n = Some (ValuesAppend sink rows)
                            /\ replies o n = Answers
                            /\ sheets w' !! sink = Some (sh ++ rows)%list)))
    as Hcalls.
  { subst shown unsynced localCampaign sink calls w'.
    destruct (handleSync_sink_calls authConfig o w)
      as [Hnil|(w4 & Heq & [l Hlog] & Hsheets)]; [by left|].
    pose proof (appendAndMark_sink_calls
                  (sinkOf (state_localCampaign (ui w)) o w)
                  (props_campaign (ui w)) (state_localCampaign (ui w))
                  (unsyncedOf (state_entries (ui w))) o w4) as Hlast.
    cbv zeta in Hlast. rewrite <- Heq in Hlast.
    destruct (unsyncedOf (state_entries (ui w))) as [|e es] eqn:Hun;
      [by left|].
    destruct Hlast as [Hnil|(rows & Hrows & Hlast)]; [by left|].
    right. exists rows. split; [done|]. split; [by eapply entryRows_ids|].
    destruct Hlast as [Hone|(Htwo & Hr & Hpos & sh & _ & Hsh)]; [by left|].
    right. split; [done|]. exists (length (log w4)), sh.
    split; [|split; [done|by rewrite Hsheets]].
    rewrite Hlog. by apply lookup_app_l_Some. }
  subst shown unsynced localCampaign sink calls w'.
  split; [intros e; apply unsyncedOf_spec|]. split.
  { intros Hcoh e. rewrite unsyncedOf_spec, (Hcoh e).
    split.
    - intros [(k & Hk & Hc) Hs]. eauto.
    - intros (k & Hk & Hc & Hs). eauto. }
  split.
  { intros Hnil. apply no_unsynced_no_append. exact Hnil. }
  split; [exact Hcalls|]. split.
  { pose proof (filter_sink_trace (emitted (handleSync authConfig) o w)) as Hf.
    destruct (handleSync_trace authConfig o w) as [Hnil|(w1 & Ht & _ & _)].
    { rewrite Hnil. destruct (unsyncedOf _); by left. }
    pose proof (syncBody_outcome authConfig (props_campaign (ui w))
                  (state_localCampaign (ui w)) (state_entries (ui w)) o w1)
      as Hout.
    unfold sync_outcome in Hout. rewrite <- Ht in Hout.
    destruct (unsyncedOf (state_entries (ui w))) as [|e es] eqn:Hun; [done|].
    destruct Hout as [Hnil|(sid & rows & n & Hrows & Hn & Htrace)]; [by left|].
    right. exists rows, n. split; [done|]. split; [done|].
    rewrite Htrace in Hf. unfold expected in Hf, Htrace.
    assert (sid = sinkOf (state_localCampaign (ui w)) o w) as <-; [|done].
    destruct Hcalls as [Hnil|(rows' & _ & _ & [Hone|[Htwo _]])];
      destruct n as [|[|[|[|n]]]]; try (exfalso; lia); cbn in Hf; congruence. }
  intros Hc Hcred Hsheet Hvalid.
  destruct (handleSync_calm_trace authConfig o w Hc Hcred Hsheet Hvalid)
    as (sid & rows & Hrows & Ht).
  exists rows. split; [done|]. rewrite Ht.
  pose proof (filter_sink_trace (emitted (handleSync authConfig) o w)) as Hf.
  rewrite Ht in Hf.
  destruct (unsyncedOf (state_entries (ui w))) as [|e es] eqn:Hun; [done|].
  unfold expected. cbn in Hf.
  destruct Hcalls as [Hnil|(rows' & _ & _ & [Hone|[Htwo _]])];
    [congruence | congruence |].
  rewrite Htwo in Hf. by injection Hf as -> _.
Qed.

End SyncClaim.

Section SyncClaimOnSamples.
Import GoogleService App.

(** C2 as stated fails. A first run on the sample world appends the row
    of [E1] and marks it in the store, and its final reload of the list
    fails: the store holds [E1] with [synced = true], the component still
    shows it unsynced. The next run appends the row of [E1] again, and
    the sheet ends with the row twice. *)
Lemma stale_list_is_appended_again :
  synced <$> entries (store Cases.after_failed_reload) !! "e1" = Some true
  /\ sheets Cases.after_failed_reload !! "sheet1"
     = Some [ [ VString "ID"; VString "Created At"; VString "Latitude";
                VString "Longitude"; VString "Accuracy"; VString "Note" ];
              [ VString "e1"; VString "2023-11-14T22:13:20.000Z"; VString "";
                VString ""; VString ""; VString "hello" ] ]
  /\ List.filter is_sink_call
       (emitted (handleSync (H := Sample.plain) Sample.credentials)
          Sample.calm Cases.after_failed_reload)
     = [ ValuesAppend "sheet1"
           [[ VString "e1"; VString "2023-11-14T22:13:20.000Z"; VString "";
              VString ""; VString ""; VString "hello" ]];
         DbMarkSynced ["e1"] ]
  /\ sheets (snd (handleSync (H := Sample.plain) Sample.credentials
                    Sample.calm Cases.after_failed_reload)) !! "sheet1"
     = Some [ [ VString "ID"; VString "Created At"; VString "Latitude";
                VString "Longitude"; VString "Accuracy"; VString "Note" ];
              [ VString "e1"; VString "2023-11-14T22:13:20.000Z"; VString "";
                VString ""; VString ""; VString "hello" ];
              [ VString "e1"; VString "2023-11-14T22:13:20.000Z"; VString "";
                VString ""; VString ""; VString "hello" ] ].
Proof. vm_compute. repeat split; reflexivity. Qed.

Lemma sync_appends_shown_unsynced_witness :
  calm Sample.calm
  /\ exists rows,
       entryRows (H := Sample.plain) Sample.survey [Sample.E1] = Some rows
       /\ sync_trace (emitted (handleSync (H := Sample.plain) Sample.credentials)
                        Sample.calm Sample.world)
          = [ValuesAppend "sheet1" rows; DbMarkSynced ["e1"];
             Alert "Sync successful!"].
Proof.
  assert (calm Sample.calm) as Hc by (split; intros; reflexivity).
  split; [exact Hc|].
  refine (proj2 (proj2 (proj2 (proj2 (proj2
            (sync_appends_shown_unsynced (H := Sample.plain)
               Sample.credentials Sample.calm Sample.world)))))
            Hc _ _ _).
  - reflexivity.
  - intros sid. discriminate.
  - repeat constructor.
Defined.

End SyncClaimOnSamples.

(** ** The form helpers *)

Section FormHelpers.
Import App CampaignView.

Lemma captureUpdates_lookup fields formData lat lng k :
  forall updates : gmap string value,
    fold_left
      (fun updates f =>
         if is_location f && negb (truthy (prop formData (field_id f)))
         then assign updates (field_id f) (point lat lng)
         else updates)
      fields updates !! k
    = if refilled fields formData k then Some (point lat lng) else updates !! k.
Proof.
  unfold refilled. destruct (String.eqb_spec k "__proto__") as [->|Hk];
    cbn [negb]; rewrite ?andb_false_r, ?andb_true_r.
  - induction fields as [|f fields IH]; intros updates; cbn [fold_left];
      [done|].
    rewrite IH. unfold assign.
    destruct (is_location f && negb (truthy (prop formData (field_id f))));
      [|done].
    destruct (String.eqb_spec (field_id f) "__proto__"); [done|].
    by rewrite lookup_insert_ne.
  - induction fields as [|f fields IH]; intros updates;
      cbn [fold_left existsb]; [done|].
    rewrite IH. destruct (existsb _ fields); [by rewrite orb_true_r|].
    rewrite orb_false_r. unfold assign.
    destruct (String.eqb_spec (field_id f) k) as [<-|Hne].
    + rewrite andb_true_r.
      destruct (is_location f && negb (truthy (prop formData (field_id f))));
        [|done].
      destruct (String.eqb_spec (field_id f) "__proto__"); [done|].
      by rewrite lookup_insert_eq.
    + rewrite andb_false_r. cbn [andb].
      destruct (is_location f && negb (truthy (prop formData (field_id f))));
        [|done].
      destruct (String.eqb (field_id f) "__proto__"); [done|].
      by rewrite lookup_insert_ne.
Qed.

(** X19: what [captureLocation] does to the component. The press sets
    the loading flag and nothing else. The success callback clears the
    flag and writes to the form: a location field whose value was falsy
    in the form as it was at the press gets the captured point;
    otherwise the three reserved keys get the latitude, the longitude
    and the accuracy, and every other key keeps the value it has at the
    time of the callback, a location already set included; nothing else
    of the component changes. The error callback alerts, clears the flag
    and leaves the form alone. *)
Theorem captureLocation_fills (formData : gmap string value)
    (lat lng acc : float) (message : string) (c : Capture) (k : string) :
  let v := capture_view c in
  let c' := captureLocation_success formData lat lng acc c in
  captureLocation c = mkCapture v true
  /\ locationLoading c' = false
  /\ state_formData (capture_view c') !! k
     = (if refilled (fields (props_campaign v)) formData k
        then Some (point lat lng)
        else if String.eqb k "__loc_lat" then Some (VNumber lat)
        else if String.eqb k "__loc_lng" then Some (VNumber lng)
        else if String.eqb k "__loc_acc" then Some (VNumber acc)
        else state_formData v !! k)
  /\ setFormData (state_formData v) (capture_view c') = v
  /\ captureLocation_error message c
     = ("Could not get location: " ++ message, mkCapture v false).
Proof.
  split; [done|]. split; [done|]. split; [|split; [by destruct c as [[]]|done]].
  unfold captureLocation_success, captureUpdates.
  cbn [capture_view state_formData setFormData].
  rewrite lookup_union, captureUpdates_lookup.
  destruct (refilled _ _ k); [by destruct (state_formData _ !! k)|].
  destruct (String.eqb_spec k "__loc_lat") as [->|H1].
  { rewrite lookup_insert_ne, lookup_insert_ne, lookup_singleton_eq by done.
    by destruct (state_formData _ !! _). }
  destruct (String.eqb_spec k "__loc_lng") as [->|H2].
  { rewrite lookup_insert_ne, lookup_insert_eq by done.
    by destruct (state_formData _ !! _). }
  destruct (String.eqb_spec k "__loc_acc") as [->|H3].
  { rewrite lookup_insert_eq. by destruct (state_formData _ !! _). }
  rewrite !lookup_insert_ne, lookup_singleton_ne by done.
  by destruct (state_formData _ !! k).
Qed.

Lemma addToPolygon_array fieldId lat lng v items :
  state_formData v !! fieldId = Some (VArray items) ->
  addToPolygon fieldId lat lng v
  = Some (setFormData
            (<[fieldId := VArray (items ++ [point lat lng])]> (state_formData v)) v).
Proof. intros Hv. unfold addToPolygon, prop. by rewrite Hv. Qed.

Lemma addPoints_from fieldId positions : forall items v,
  state_formData v !! fieldId = Some (VArray items) ->
  addPoints fieldId positions v
  = Some (setFormData
            (<[fieldId := VArray (items ++ List.map (fun p => point (fst p) (snd p))
                                                    positions)]>
               (state_formData v)) v).
Proof.
  unfold addPoints.
  induction positions as [|[lat lng] positions IH]; intros items v Hv;
    cbn [fold_left List.map].
  - rewrite app_nil_r, insert_id by done. by destruct v.
  - cbn [mbind option_bind fst snd].
    rewrite (addToPolygon_array fieldId lat lng v items Hv).
    rewrite IH with (items := (items ++ [point lat lng])%list)
      by (cbn [state_formData setFormData]; by rewrite lookup_insert_eq).
    cbn [state_formData setFormData]. rewrite insert_insert_eq.
    by rewrite <- app_assoc.
Qed.

(** X20: a polygon is collected point by point. After [clearPolygon] is
    confirmed, the positions read by [addToPolygon] are stored under the
    field in the order read, none lost, the other keys untouched; and a
    required polygon field then passes the check of [handleSaveEntry]
    whatever the number of points, none included. *)
Theorem polygon_collects (fieldId : string) (positions : list (float * float))
    (v : View) :
  let points := List.map (fun p => point (fst p) (snd p)) positions in
  let v' := setFormData (<[fieldId := VArray points]> (state_formData v)) v in
  addPoints fieldId positions (clearPolygon true fieldId v) = Some v'
  /\ forall f, field_id f = fieldId -> ~ falsy_required (state_formData v') f.
Proof.
  split.
  - rewrite (addPoints_from fieldId positions [])
      by (cbn; by rewrite lookup_insert_eq).
    cbn [clearPolygon state_formData setFormData app].
    by rewrite insert_insert_eq.
  - intros f <- [_ Hf]. cbn [state_formData setFormData] in Hf.
    unfold prop in Hf. by rewrite lookup_insert_eq in Hf.
Qed.

(** X21: [handleDeleteEntry]. Declined, it changes nothing. Confirmed,
    with a store that does not fault on the delete, it resolves whatever
    becomes of the reload, the entry is gone from the store and nothing
    else is; the list shown is then what the store holds for the
    campaign, or, when the reload fails, the list as it was. *)
Theorem handleDeleteEntry_deletes (k : string) (p q : plan) (d : DB) (v : View) :
  handleDeleteEntry false k p q d v = (Resolved tt, d, v)
  /\ exists l,
       handleDeleteEntry true k no_fault q d v
       = (Resolved tt, mkDB (campaigns d) (delete k (entries d)),
          if q 0%nat then v else setEntries l v)
       /\ forall e, e ∈ l <-> exists k', k' <> k /\ entries d !! k' = Some e
                              /\ campaignId e = campaign_id (props_campaign v).
Proof.
  split; [done|].
  exists (db.sort_newer_first
            (List.map snd (index_campaignId (campaign_id (props_campaign v))
                             (delete k (entries d))))).
  split.
  - unfold handleDeleteEntry, loadEntries.
    destruct (deleteEntry_no_fault k d) as [-> ->].
    rewrite getEntries_settled, getEntries_after. cbn [entries].
    by destruct (q 0%nat).
  - intros e. rewrite elem_of_listing. split.
    + intros (k' & Hk' & Hc). exists k'.
      apply lookup_delete_Some in Hk' as [Hne Hk']. done.
    + intros (k' & Hne & Hk' & Hc). exists k'. split; [|done].
      by rewrite lookup_delete_ne.
Qed.

End FormHelpers.

(** ** The map *)

Section MapOfEntries.
Import CampaignMap.

Lemma marker_is_Some e : is_Some (marker e) <-> truthy (globalLat e) = true.
Proof.
  unfold marker. destruct (truthy (globalLat e)).
  - split; eauto.
  - split; [by intros [x Hx] | done].
Qed.

(** X27: the markers of the map. The map has data exactly when some
    entry gets a marker; it is then centered on the first marker, whose
    latitude is not 0, so that the view is moved there unless that
    longitude is 0; without data the center is [[0, 0]]. An entry whose
    latitude is the number 0 gets no marker. A polygon is drawn only
    from an array of more than two points. *)
Theorem map_markers (entries0 : list Entry) :
  (hasData entries0 = true <-> Exists (fun e => is_Some (marker e)) entries0)
  /\ (hasData entries0 = false -> center entries0 = (VNumber 0, VNumber 0))
  /\ (forall before e rest,
        entries0 = (before ++ e :: rest)%list ->
        Forall (fun x => marker x = None) before ->
        is_Some (marker e) ->
        marker e = Some (center entries0)
        /\ isnt_zero (fst (center entries0)) = true
        /\ recenters (center entries0) = isnt_zero (globalLng e))
  /\ (forall e, globalLat e = VNumber 0 -> marker e = None)
  /\ (forall e f, drawn e f = true ->
                  exists p1 p2 p3 more,
                    data e !! field_id f = Some (VArray (p1 :: p2 :: p3 :: more))).
Proof.
  split; [|split; [|split; [|split]]].
  - unfold hasData. rewrite Exists_exists. split.
    + intros (e & Hin & He)%existsb_exists. exists e.
      split; [by apply list_elem_of_In | by apply marker_is_Some].
    + intros (e & Hin & He). apply existsb_exists. exists e.
      split; [by apply list_elem_of_In | by apply marker_is_Some].
  - unfold hasData, center. intros Hno.
    destruct (List.find _ _) as [e|] eqn:Hfind; [|done].
    apply List.find_some in Hfind as [Hin He].
    assert (existsb (fun e => truthy (globalLat e)) entries0 = true) as Ht
      by (apply existsb_exists; eauto).
    congruence.
  - intros before e rest -> Hbefore He. apply marker_is_Some in He.
    assert (center (before ++ e :: rest) = (globalLat e, globalLng e)) as ->.
    { unfold center. induction Hbefore as [|x l Hx _ IH]; simpl.
      - by rewrite He.
      - unfold marker in Hx. destruct (truthy (globalLat x)); [done|]. exact IH. }
    unfold marker, recenters. rewrite He. cbn [fst snd].
    assert (isnt_zero (globalLat e) = true) as Hz.
    { unfold truthy in He. unfold isnt_zero.
      destruct (globalLat e); try done.
      apply negb_true_iff, orb_false_iff in He as [-> _]. done. }
    by rewrite Hz.
  - intros e He. unfold marker. by rewrite He.
  - intros e f. unfold drawn, prop.
    destruct (data e !! field_id f) as [[]|]; simpl; try done.
    + destruct items as [|p1 [|p2 [|p3 more]]]; try done. eauto 6.
    + unfold inherited. by repeat case_match.
Qed.

End MapOfEntries.

(** ** The campaign editor *)

Section CampaignEditor.
Import JSString CreateCampaign.

Lemma trimStart_empty s : trimStart s = "" <-> allWhite s = true.
Proof.
  unfold allWhite. induction s as [|c s IH]; simpl; [done|].
  destruct (isWhiteSpace c); simpl; [done|]. split; discriminate.
Qed.

Lemma trimStart_allWhite s : trimStart s <> "" -> allWhite (trimStart s) = false.
Proof.
  unfold allWhite. induction s as [|c s IH]; simpl; [done|].
  destruct (isWhiteSpace c) eqn:Hc; [done|]. intros _. simpl. by rewrite Hc.
Qed.

Lemma allWhite_revapp s : forall acc,
  allWhite (revapp s acc) = allWhite s && allWhite acc.
Proof.
  unfold allWhite. induction s as [|c s IH]; intros acc; simpl; [done|].
  rewrite IH. simpl. destruct (isWhiteSpace c); simpl; [done|].
  by rewrite andb_false_r.
Qed.

Lemma reversed_empty s : reversed s = "" -> s = "".
Proof.
  unfold reversed. destruct s as [|c s]; [done|]. simpl.
  assert (forall t acc, acc <> "" -> revapp t acc <> "") as Hne.
  { induction t as [|c' t IH]; simpl; [done|]. intros acc _. by apply IH. }
  intros Hs. by apply Hne in Hs.
Qed.

(** [!s.trim()] holds of the strings made of white space only. *)
Lemma blank_allWhite s : blank s = allWhite s.
Proof.
  unfold blank, trim. destruct (allWhite s) eqn:Hs.
  - apply trimStart_empty in Hs. by rewrite Hs.
  - apply String.eqb_neq. intros Hr%reversed_empty.
    apply trimStart_empty in Hr. unfold reversed in Hr.
    rewrite allWhite_revapp, andb_true_r in Hr.
    rewrite trimStart_allWhite in Hr; [done|].
    intros He%trimStart_empty. congruence.
Qed.

(** X22: [handleSave] of the campaign editor. It alerts, and saves
    nothing, when the name is made of white space only, and then when
    the name of a field is; otherwise it hands over a campaign with the
    name and the fields of the form and an empty description, which for
    an existing campaign keeps the spreadsheet id, the id unless empty
    and the creation time unless 0, and for a new one takes the new uuid
    and the current time. *)
Theorem handleSave_validates (existingCampaign : option Campaign)
    (uuid : string) (now : Z) (name : string) (fields0 : list FieldDefinition) :
  match handleSave existingCampaign uuid now name fields0 with
  | Alerted message =>
      (allWhite name = true /\ message = "Please enter a campaign name")
      \/ (allWhite name = false
          /\ Exists (fun f => allWhite (field_name f) = true) fields0
          /\ message = "All fields must have a name")
  | OnSave c =>
      allWhite name = false
      /\ Forall (fun f => allWhite (field_name f) = false) fields0
      /\ campaign_name c = name
      /\ fields c = fields0
      /\ campaign_description c = ""
      /\ match existingCampaign with
         | None =>
             campaign_id c = uuid /\ campaign_createdAt c = now
             /\ spreadsheetId c = None
         | Some c0 =>
             spreadsheetId c = spreadsheetId c0
             /\ (campaign_id c0 <> "" -> campaign_id c = campaign_id c0)
             /\ (campaign_createdAt c0 <> 0 ->
                 campaign_createdAt c = campaign_createdAt c0)
         end
  end.
Proof.
  unfold handleSave. rewrite blank_allWhite.
  destruct (allWhite name) eqn:Hn; [by left|].
  destruct (existsb _ fields0) eqn:Hf.
  - right. split; [done|]. split; [|done].
    apply existsb_exists in Hf as (f & Hin & Hb). apply Exists_exists.
    exists f. split; [by apply list_elem_of_In|]. by rewrite <- blank_allWhite.
  - split; [done|]. split.
    + apply Forall_forall. intros f Hin%list_elem_of_In.
      rewrite <- blank_allWhite. destruct (blank (field_name f)) eqn:Hb; [|done].
      assert (existsb (fun f => blank (field_name f)) fields0 = true) as Ht
        by (apply existsb_exists; eauto).
      congruence.
    + cbn [campaign_name fields campaign_description campaign_id
           campaign_createdAt spreadsheetId].
      do 3 (split; [done|]). destruct existingCampaign as [c0|]; [|done].
      split; [done|]. split.
      * intros Hne. by destruct (String.eqb_spec (campaign_id c0) "").
      * intros Hne. by destruct (Z.eqb_spec (campaign_createdAt c0) 0).
Qed.

(** X23: the edits of the field list. A field added under a fresh id
    and then removed leaves the list as it was; [removeField] removes the
    fields of the given id and keeps the others in their order;
    [updateField] with updates that do not touch the id keeps the ids in
    their order and leaves every field of another id as it is. *)
Theorem field_list_edits (i : string) (type : FieldType)
    (updates : FieldUpdates) (fields0 : list FieldDefinition) :
  (Forall (fun f => field_id f <> i) fields0 ->
   removeField i (addField i type fields0) = fields0)
  /\ (forall f, f ∈ removeField i fields0 <-> f ∈ fields0 /\ field_id f <> i)
  /\ (exists dropped, List.length (removeField i fields0) + dropped
                      = List.length fields0)%nat
  /\ (new_id updates = None ->
      List.map field_id (updateField i updates fields0)
      = List.map field_id fields0)
  /\ (forall n f, fields0 !! n = Some f -> field_id f <> i ->
                  updateField i updates fields0 !! n = Some f).
Proof.
  split; [|split; [|split; [|split]]].
  - intros Hfresh. unfold removeField, addField.
    rewrite List.filter_app. simpl. rewrite String.eqb_refl. simpl.
    rewrite app_nil_r. induction Hfresh as [|f l Hf _ IH]; simpl; [done|].
    destruct (String.eqb_spec (field_id f) i); [done|]. simpl. by rewrite IH.
  - intros f. unfold removeField.
    rewrite list_elem_of_In, List.filter_In, <- list_elem_of_In.
    rewrite negb_true_iff, String.eqb_neq. done.
  - unfold removeField. induction fields0 as [|f l [n IH]]; simpl; [by exists 0%nat|].
    destruct (negb _); simpl; [exists n | exists (S n)]; lia.
  - intros Hid. unfold updateField. rewrite List.map_map.
    apply List.map_ext. intros f. destruct (String.eqb (field_id f) i); [|done].
    unfold merged. simpl. by rewrite Hid.
  - intros n f Hn Hne. unfold updateField.
    change (List.map ?g fields0) with (g <$> fields0).
    rewrite list_lookup_fmap, Hn. simpl.
    by destruct (String.eqb_spec (field_id f) i).
Qed.

End CampaignEditor.

(** ** The list of campaigns *)

Lemma newerFirst_total a b :
  Home.newerFirst a b = false -> Home.newerFirst b a = true.
Proof. unfold Home.newerFirst. lia. Qed.

Lemma getCampaigns_after q d : after (db.getCampaigns q d) = d.
Proof.
  unfold db.getCampaigns, on_request, request. simpl.
  destruct (q 0%nat); simpl; [done|]. by destruct (q 1%nat).
Qed.

Section CampaignList.
Import Home.

Lemma loadCampaigns_lists q d h :
  q 0%nat = false ->
  exists l,
    loadCampaigns q d h = (Resolved tt, d, setCampaigns l h)
    /\ (forall c, c ∈ l <-> exists k, IDB.campaigns d !! k = Some c)
    /\ Sorted (fun a b => newerFirst a b = true) l
    /\ length l = size (IDB.campaigns d).
Proof.
  intros Hq. exists (stableSort newerFirst (List.map snd (records (IDB.campaigns d)))).
  split; [|split; [|split]].
  - unfold loadCampaigns. by rewrite getCampaigns_settled, Hq, getCampaigns_after.
  - intros c. rewrite stableSort_Permutation, list_elem_of_In, List.in_map_iff.
    split.
    + intros [[k c'] [Heq Hin]]. simpl in Heq. subst c'. exists k.
      by apply elem_of_records, list_elem_of_In.
    + intros [k Hk]. exists (k, c). split; [done|].
      by apply list_elem_of_In, elem_of_records.
  - apply stableSort_Sorted, newerFirst_total.
  - rewrite stableSort_Permutation, List.length_map. unfold records.
    rewrite merge_sort_Permutation. by rewrite length_map_to_list.
Qed.

(** X24: [handleDeleteCampaign]. Declined, it changes nothing.
    Confirmed, with a store that does not fault, it resolves; the
    campaign and every entry that names it are gone from the store and
    the other entries and campaigns are as before; the application is
    back on the home screen with no campaign selected, and lists the
    campaigns left, each once, newest first. *)
Theorem handleDeleteCampaign_removes (cid : string) (p q : plan) (d : DB)
    (h : State) :
  handleDeleteCampaign false cid p q d h = (Resolved tt, d, h)
  /\ exists d' l,
       handleDeleteCampaign true cid no_fault no_fault d h
       = (Resolved tt, d',
          setCampaigns l (setSelectedCampaign None (setScreen home h)))
       /\ IDB.campaigns d' = delete cid (IDB.campaigns d)
       /\ (forall k, entries d' !! k
                     = match entries d !! k with
                       | Some e => if String.eqb (campaignId e) cid then None
                                   else Some e
                       | None => None
                       end)
       /\ (forall c, c ∈ l <-> exists k, k <> cid /\ IDB.campaigns d !! k = Some c)
       /\ Sorted (fun a b => newerFirst a b = true) l
       /\ length l = size (delete cid (IDB.campaigns d)).
Proof.
  split; [done|].
  destruct (deleteCampaign_cases cid no_fault d) as [[Hs Ha]|[Hs _]];
    [|by rewrite deleteCampaign_no_fault in Hs].
  destruct (loadCampaigns_lists no_fault (cascade cid d)
              (setSelectedCampaign None (setScreen home h)) eq_refl)
    as (l & Hload & Hl & Hsorted & Hlen).
  exists (cascade cid d), l. split; [|split; [|split; [|split; [|split; [|done]]]]].
  - unfold handleDeleteCampaign. by rewrite Hs, Ha.
  - done.
  - intros k. apply cascade_entries.
  - intros c. rewrite Hl. simpl. split.
    + intros [k Hk]. exists k. by apply lookup_delete_Some in Hk as [Hne Hk].
    + intros (k & Hne & Hk). exists k. by rewrite lookup_delete_ne.
  - done.
Qed.

(** X25: [handleSaveCampaign]. With a store that does not fault it
    resolves, the campaign is stored under its id and the other campaigns
    and the entries are as before; the application is on the home screen,
    out of the editor, and lists the stored campaigns, each once, newest
    first, the saved one among them. When the save is rejected nothing
    changes. *)
Theorem handleSaveCampaign_lists (c : Campaign) (p q : plan) (d : DB) (h : State) :
  (p 0%nat = true -> handleSaveCampaign c p q d h = (Rejected, d, h))
  /\ exists l,
       handleSaveCampaign c no_fault no_fault d h
       = (Resolved tt,
          mkDB (<[campaign_id c := c]> (IDB.campaigns d)) (entries d),
          setEditingCampaign None (setScreen home (setCampaigns l h)))
       /\ c ∈ l
       /\ (forall c', c' ∈ l <-> c' = c
                                \/ exists k, k <> campaign_id c
                                             /\ IDB.campaigns d !! k = Some c')
       /\ Sorted (fun a b => newerFirst a b = true) l
       /\ length l = size (<[campaign_id c := c]> (IDB.campaigns d)).
Proof.
  split.
  - intros Hp. unfold handleSaveCampaign, db.saveCampaign, on_request, request.
    simpl. by rewrite Hp.
  - destruct (saveCampaign_no_fault c d) as [Hs Ha].
    destruct (loadCampaigns_lists no_fault
                (mkDB (<[campaign_id c := c]> (IDB.campaigns d)) (entries d)) h
                eq_refl) as (l & Hload & Hl & Hsorted & Hlen).
    exists l.
    assert (forall c', c' ∈ l <-> c' = c
                                 \/ exists k, k <> campaign_id c
                                              /\ IDB.campaigns d !! k = Some c')
      as Hmem.
    { intros c'. rewrite Hl. simpl. split.
      - intros [k Hk]. apply lookup_insert_Some in Hk as [[_ ->]|[Hne Hk]];
          [by left | right; eauto].
      - intros [->|(k & Hne & Hk)].
        + exists (campaign_id c). by rewrite lookup_insert_eq.
        + exists k. by rewrite lookup_insert_ne. }
    split; [|split; [|split; [|split]]]; try done.
    + unfold handleSaveCampaign. by rewrite Hs, Ha, Hload.
    + apply Hmem. by left.
Qed.

End CampaignList.

(** ** The further properties on the sample data *)

Section StoreMethodsOnSamples.
Import db.

Lemma saveEntry_then_getEntries_witness :
  keyed Sample.database
  /\ forall x,
       x ∈ [Sample.E2_edited; Sample.E1]
       <-> (x = Sample.E2_edited /\ campaignId Sample.E2_edited = "c1")
           \/ (x ∈ [Sample.E2; Sample.E1] /\ id x <> id Sample.E2_edited).
Proof.
  split; [exact sample_keyed|].
  refine (proj2 (proj2 (proj2 (proj2 (proj2
            (saveEntry_then_getEntries Sample.E2_edited "c1" Sample.database
               [Sample.E2; Sample.E1] [Sample.E2_edited; Sample.E1]
               sample_keyed _ _)))))); vm_compute; reflexivity.
Defined.

Lemma deleteEntry_removes_one_witness :
  keyed Sample.database
  /\ forall x, x ∈ [Sample.E2] <-> x ∈ [Sample.E2; Sample.E1] /\ id x <> "e1".
Proof.
  split; [exact sample_keyed|].
  refine (proj2 (proj2 (proj2 (proj2 (proj2 (proj2
            (deleteEntry_removes_one "e1" "c1" Sample.database
               [Sample.E2; Sample.E1] [Sample.E2] sample_keyed _ _)))))));
    vm_compute; reflexivity.
Defined.

Lemma markSynced_clears_unsynced_witness :
  keyed Sample.database
  /\ settled (getUnsyncedEntries "c1" no_fault
                (after (markSynced ["e1"] no_fault Sample.database)))
     = Resolved [].
Proof.
  split; [exact sample_keyed|].
  refine (proj1 (markSynced_clears_unsynced "c1" no_fault Sample.database
                   [Sample.E1] sample_keyed _ _) no_fault);
    vm_compute; reflexivity.
Defined.

Lemma saveCampaign_then_getCampaign_witness :
  keyed Sample.database
  /\ settled (getCampaign "c2" no_fault
                (after (saveCampaign Sample.album no_fault Sample.database)))
     = Resolved (Some Sample.album).
Proof.
  split; [exact sample_keyed|].
  exact (proj1 (proj2 (proj2
           (saveCampaign_then_getCampaign Sample.album Sample.database
              sample_keyed)))).
Defined.

End StoreMethodsOnSamples.

Section SheetCallsOnSamples.
Import GoogleService.

Lemma sample_calm : calm Sample.calm.
Proof. split; intros; reflexivity. Qed.

Lemma ensureSheetStructure_writes_once_witness :
  calm Sample.calm
  /\ sheets (snd (ensureSheetStructure "sheet1" Sample.survey Sample.calm
                    Cases.blank_sheet_world)) !! "sheet1"
     = Some [List.map VString (getHeaders (fields Sample.survey))].
Proof.
  split; [exact sample_calm|].
  exact (proj1 (proj2
           (ensureSheetStructure_writes_once "sheet1" Sample.survey Sample.album
              Sample.calm Sample.calm Cases.blank_sheet_world []
              sample_calm eq_refl eq_refl))).
Defined.

Lemma syncEntries_invalid_date_witness :
  validTime (createdAt Cases.undated) = false
  /\ syncEntries (H := Sample.plain) "sheet0" Sample.survey
       [Sample.E1; Cases.undated] Sample.calm Sample.headed_world
     = (Throw, Sample.headed_world).
Proof.
  split; [reflexivity|].
  apply (syncEntries_invalid_date (H := Sample.plain)).
  apply Exists_cons_tl, Exists_cons_hd. reflexivity.
Defined.

Lemma leading_cells_witness :
  exists r,
    entryRow (H := Sample.plain) Sample.survey Sample.E3 = Some r
    /\ r !! 0%nat = Some (VString "e3").
Proof.
  eexists. split; [vm_compute; reflexivity|].
  refine (proj1 (leading_cells (H := Sample.plain) Sample.survey Sample.E3 _ _)).
  vm_compute. reflexivity.
Defined.

Lemma other_fields_are_not_guarded_witness :
  exists r,
    entryRow (H := Sample.plain) Cases.plots Cases.P1 = Some r
    /\ r !! 8%nat = Some (VString "north").
Proof.
  eexists. split; [vm_compute; reflexivity|].
  refine (other_fields_are_not_guarded (H := Sample.plain) Cases.plots Cases.P1
            3 Cases.label "north" _ eq_refl _ _ _ _);
    [discriminate | discriminate | vm_compute; reflexivity
    | vm_compute; reflexivity].
Defined.

Lemma polygon_cell_has_no_coordinates_witness :
  exists r,
    entryRow (H := Sample.plain) Cases.plots Cases.P1 = Some r
    /\ r !! 6%nat = Some (VString "[object Object],[object Object]").
Proof.
  eexists. split; [vm_compute; reflexivity|].
  refine (polygon_cell_has_no_coordinates (H := Sample.plain) Cases.plots Cases.P1
            1 Cases.outline [Cases.corner 1 2; Cases.corner 3 4] _
            eq_refl eq_refl _ _);
    vm_compute; reflexivity.
Defined.

Lemma location_cell_witness :
  nullish (VObject (Cases.corner 12.5 77.5)) = false
  /\ fieldCell (H := Sample.plain) Cases.P1 Cases.site = VString "0,0".
Proof.
  split; [reflexivity|].
  refine (proj1 (location_cell (H := Sample.plain) Cases.P1 Cases.site
                   (VObject (Cases.corner 12.5 77.5)) eq_refl _ eq_refl)).
  vm_compute. reflexivity.
Defined.

End SheetCallsOnSamples.

Section HandlersOnCases.
Import GoogleService App.



Lemma handleSync_frame_witness :
  keyed (store Sample.world)
  /\ keyed (store (snd (handleSync (H := Sample.plain) Sample.credentials
                          Sample.calm Sample.world))).
Proof.
  split; [exact sample_keyed|].
  exact (proj1 (handleSync_frame (H := Sample.plain) Sample.credentials
                  Sample.calm Sample.world sample_keyed)).
Defined.

Lemma sample_reaches_save w : reaches_save Sample.calm w.
Proof. repeat split. Qed.

Lemma spreadsheet_created_per_mount_witness :
  given (spreadsheetId (props_campaign (ui Sample.world))) = None
  /\ reaches_save Sample.calm Sample.world
  /\ state_localCampaign
       (ui (snd (handleSync (H := Sample.plain) Sample.credentials Sample.calm
                   Sample.world)))
     = with_spreadsheetId Sample.survey "sheet1".
Proof.
  split; [reflexivity|]. split; [apply sample_reaches_save|].
  refine (proj1 (proj2
            (spreadsheet_created_per_mount (H := Sample.plain) Sample.credentials
               Sample.calm Sample.world eq_refl eq_refl eq_refl
               (sample_reaches_save _) _))).
  discriminate.
Defined.


Lemma handleSaveEntry_refuses_witness :
  falsy_required (state_formData Cases.zero_count) Cases.count
  /\ exists before f rest,
       fields Cases.plots = (before ++ f :: rest)%list
       /\ Forall (fun g => ~ falsy_required (state_formData Cases.zero_count) g)
                 before
       /\ falsy_required (state_formData Cases.zero_count) f
       /\ handleSaveEntry "u1" 1700000000500 1700000000600 Sample.calm
            Cases.form_world
          = (Ok tt, emit (Alert (field_name f ++ " is required")) Cases.form_world).
Proof.
  assert (falsy_required (state_formData Cases.zero_count) Cases.count) as Hf
    by (split; reflexivity).
  split; [exact Hf|].
  apply (handleSaveEntry_refuses "u1" 1700000000500 1700000000600 Sample.calm
           Cases.form_world).
  apply Exists_cons_tl, Exists_cons_tl, Exists_cons_hd. exact Hf.
Defined.

(** A required field whose id names a member of [Object.prototype] is
    never missing: the empty form reads the inherited method, and the
    entry is saved without a value for the field. *)
Example required_inherited_member_is_saved :
  state_formData Cases.empty_form !! field_id Cases.required_method = None
  /\ ~ falsy_required (state_formData Cases.empty_form) Cases.required_method
  /\ emitted (handleSaveEntry "u1" 1700000000500 1700000000600)
       Sample.calm Cases.empty_form_world
     = [ DbSaveEntry (mkEntry "u1" "c5" ∅ false 1700000000500 1700000000600);
         DbGetEntries "c5" ].
Proof.
  split; [reflexivity|]. split; [intros [_ Hf]; discriminate Hf|].
  vm_compute. reflexivity.
Qed.

Lemma handleSaveEntry_saves_witness :
  calm Sample.calm
  /\ fst (handleSaveEntry "u1" 1700000000500 1700000000600 Sample.calm
            Sample.editing_world) = Ok tt.
Proof.
  split; [exact sample_calm|].
  destruct (handleSaveEntry_saves "u1" 1700000000500 1700000000600 Sample.calm
              Sample.editing_world sample_calm) as (entry & Hok & _).
  - constructor; [|constructor]. intros [Hreq _]. discriminate.
  - exact Hok.
Defined.

End HandlersOnCases.

Section SaveThenSyncOnSamples.
Import GoogleService App.


End SaveThenSyncOnSamples.
